(** * portfolio-metrics: CAGR, XIRR, Sharpe ratio and maximum drawdown

    A shallow embedding of [src/index.js] and [src/utils.js], and the
    properties of the four metrics.

    - JavaScript numbers are IEEE 754 binary64 values: they are Rocq's
      primitive floats, so that NaN, the infinities, the signed zeros and
      rounding behave as in the program.
    - The arguments of the entry points are JavaScript values ([value]):
      the guards of the program test their type before they use them.
    - [throw new Error(...)] is the [Throw] of the [result] type.
    - [Math.pow] is a parameter outside its special cases.
    - [calculateXIRR] also reports the rates at which it evaluated the net
      present value, in order, so that "before iterating" can be stated. *)

From Stdlib Require Import Floats ZArith List String Bool Lia.
From Stdlib Require Import Permutation.
Import ListNotations.

Local Open Scope string_scope.
Local Open Scope list_scope.
Local Open Scope float_scope.

#[local] Set Warnings "-register-all,-inexact-float,-notation-for-abbreviation".

(** * The program *)

(** ** JavaScript values *)

(** The values the four entry points can be handed.  A [Date] object is
    represented by its time value in milliseconds ([NaN] for an invalid
    date); a plain object by its property table. *)
Inductive value : Type :=
| VUndefined
| VNull
| VBool (b : bool)
| VNumber (x : float)
| VString (s : string)
| VDate (t : float)
| VObject (props : list (string * value))
| VArray (elems : list value).

(** [typeof v === 'number'] *)
Definition is_number (v : value) : bool :=
  match v with VNumber _ => true | _ => false end.

(** [typeof v === 'object'] ([typeof null] is ['object'] too). *)
Definition is_object (v : value) : bool :=
  match v with
  | VNull | VDate _ | VObject _ | VArray _ => true
  | _ => false
  end.

(** [v instanceof Date] *)
Definition is_Date (v : value) : bool :=
  match v with VDate _ => true | _ => false end.

(** ToBoolean: what [!v] negates. *)
Definition truthy (v : value) : bool :=
  match v with
  | VUndefined | VNull => false
  | VBool b => b
  | VNumber x => negb (x =? 0) && negb (is_nan x)
  | VString s => negb (String.eqb s "")
  | VDate _ | VObject _ | VArray _ => true
  end.

Fixpoint lookup (k : string) (props : list (string * value)) : value :=
  match props with
  | [] => VUndefined
  | (k', v) :: rest => if String.eqb k k' then v else lookup k rest
  end.

(** Property read [v.k] on an object; a property that is absent reads as
    [undefined]. *)
Definition get (v : value) (k : string) : value :=
  match v with
  | VObject props => lookup k props
  | _ => VUndefined
  end.

(** The number behind a value that passed a [typeof === 'number'] or
    [instanceof Date] guard ([getTime()] / [valueOf()] for a date). *)
Definition num (v : value) : float :=
  match v with
  | VNumber x => x
  | VDate t => t
  | _ => nan
  end.

(** ** Errors

    Every [throw new Error(...)] of the program, one constructor per
    message; the label or the index interpolated in the message is the
    constructor's argument. *)
Inductive error : Type :=
| MustBeValidDate (label : string)
| MustBePositiveNumber (label : string)
| MustBeNonNegativeNumber (label : string)
| ExpenseRatioOutOfRange
| StartNotBeforeEnd
| CashflowsTooShort
| CashflowMissingProperties (i : nat)
| CashflowInvalidDate (i : nat)
| CashflowInvalidAmount (i : nat)
| CashflowsNotMixedSign
| NoSolutionInRange
| NpvDoesNotConverge
| ReturnsTooShort
| ReturnInvalidNumber (i : nat)
| RiskFreeRateInvalid
| ValuesTooShort
| ValueNotNonNegative (i : nat).

(** The error kinds of the specification's taxonomy. *)
Inductive error_kind : Type :=
| InvalidArgumentType
| OutOfRangeValue
| InvalidDateOrdering
| InsufficientData
| DegenerateInput
| NoRootInBracket
| NonConvergence.

(** The kinds an error can stand for.  The number guards of utils.js throw
    one message for a wrong type and for a value out of range, so those
    errors have two kinds. *)
Definition has_kind (e : error) (k : error_kind) : bool :=
  match e, k with
  | MustBeValidDate _, InvalidArgumentType
  | MustBePositiveNumber _, (InvalidArgumentType | OutOfRangeValue)
  | MustBeNonNegativeNumber _, (InvalidArgumentType | OutOfRangeValue)
  | ExpenseRatioOutOfRange, (InvalidArgumentType | OutOfRangeValue)
  | StartNotBeforeEnd, InvalidDateOrdering
  | CashflowsTooShort, InsufficientData
  | CashflowMissingProperties _, InvalidArgumentType
  | CashflowInvalidDate _, InvalidArgumentType
  | CashflowInvalidAmount _, InvalidArgumentType
  | CashflowsNotMixedSign, DegenerateInput
  | NoSolutionInRange, NoRootInBracket
  | NpvDoesNotConverge, NonConvergence
  | ReturnsTooShort, InsufficientData
  | ReturnInvalidNumber _, InvalidArgumentType
  | RiskFreeRateInvalid, InvalidArgumentType
  | ValuesTooShort, InsufficientData
  | ValueNotNonNegative _, (InvalidArgumentType | OutOfRangeValue) => true
  | _, _ => false
  end.

Inductive result (A : Type) : Type :=
| Ok (a : A)
| Throw (e : error).
Arguments Ok {A} a.
Arguments Throw {A} e.

Definition bind {A B : Type} (r : result A) (k : A -> result B) : result B :=
  match r with
  | Ok a => k a
  | Throw e => Throw e
  end.

Notation "r ;; k" := (bind r (fun _ => k))
  (at level 61, right associativity).
Notation "x <- r ;; k" := (bind r (fun x => k))
  (at level 61, r at next level, right associativity).

(** ** utils.js: validation guards *)

Definition validateDate (date : value) (label : string) : result unit :=
  if negb (is_Date date) || is_nan (num date)
  then Throw (MustBeValidDate label)
  else Ok tt.

Definition validatePositiveNumber (v : value) (label : string) : result unit :=
  if negb (is_number v) || (num v <=? 0)
  then Throw (MustBePositiveNumber label)
  else Ok tt.

Definition validateNonNegativeNumber (v : value) (label : string) : result unit :=
  if negb (is_number v) || (num v <? 0)
  then Throw (MustBeNonNegativeNumber label)
  else Ok tt.

Definition validateExpenseRatio (expenseRatio : value) : result unit :=
  if negb (is_number expenseRatio) || (num expenseRatio <? 0) || (1 <=? num expenseRatio)
  then Throw ExpenseRatioOutOfRange
  else Ok tt.

(** ** utils.js: statistics *)

(** [arr.length] as a number (array lengths are below [2^32]). *)
Definition float_of_nat (n : nat) : float :=
  of_uint63 (Uint63.of_Z (Z.of_nat n)).

Definition msPerYear : float := 1000 * 60 * 60 * 24 * 365.25.

Definition calculateYears (startDate endDate : float) : float :=
  (endDate - startDate) / msPerYear.

Definition mean (arr : list float) : float :=
  match arr with
  | [] => 0
  | _ => fold_left (fun sum val => sum + val) arr 0 / float_of_nat (List.length arr)
  end.

(** ** index.js: maximum drawdown *)

(** The validation loop of [calculateMaxDrawdown], from index [i] on. *)
Fixpoint validateValues (i : nat) (values : list value) : result (list float) :=
  match values with
  | [] => Ok []
  | v :: rest =>
      if negb (is_number v) || is_nan (num v) || (num v <? 0)
      then Throw (ValueNotNonNegative i)
      else rest' <- validateValues (S i) rest ;; Ok (num v :: rest')
  end.

(** The scan of [calculateMaxDrawdown] over [values[1..]]. *)
Fixpoint drawdownScan (values : list float) (maxSoFar maxDrawdown : float) : float :=
  match values with
  | [] => maxDrawdown
  | v :: rest =>
      if maxSoFar <? v then drawdownScan rest v maxDrawdown
      else
        let drawdown := (v - maxSoFar) / maxSoFar in
        if drawdown <? maxDrawdown
        then drawdownScan rest maxSoFar drawdown
        else drawdownScan rest maxSoFar maxDrawdown
  end.

Definition calculateMaxDrawdown (values : value) : result float :=
  match values with
  | VArray elems =>
      if (List.length elems <? 2)%nat then Throw ValuesTooShort
      else
        vs <- validateValues 0 elems ;;
        match vs with
        | v0 :: rest => Ok (drawdownScan rest v0 0)
        | [] => Ok 0
        end
  | _ => Throw ValuesTooShort
  end.

(** ** Code that calls [Math.pow]

    ECMAScript fixes [Math.pow] on special operands and leaves its result
    on ordinary ones to the engine ("implementation-approximated").  The
    model follows that: [Math_pow] decides the first special cases of
    [Number::exponentiate] itself, in the order of the standard, and asks
    [pow_approx], a parameter of the development, for everything else. *)
Section Metrics.

Variable pow_approx : float -> float -> float.

Definition Math_pow (base exponent : float) : float :=
  if is_nan exponent then nan
  else if exponent =? 0 then 1
  else if is_nan base then nan
  else pow_approx base exponent.

(** *** utils.js: standard deviation and net present value *)

Definition stdDev (arr : list float) : float :=
  if (List.length arr <? 2)%nat then 0
  else
    let avg := mean arr in
    let variance :=
      fold_left (fun sum val => sum + Math_pow (val - avg) 2) arr 0
      / (float_of_nat (List.length arr) - 1) in
    sqrt variance.

(** A validated cashflow: the time value of its date and its amount. *)
Record cashflow : Type := mkCashflow { date : float; amount : float }.

Definition npv (r : float) (cashflows : list cashflow) (refDate : float) : float :=
  fold_left
    (fun sum cf =>
       let t := (date cf - refDate) / (365.25 * 24 * 60 * 60 * 1000) in
       sum + amount cf / Math_pow (1 + r) t)
    cashflows 0.

(** *** index.js: calculateCAGR *)

Definition calculateCAGR
    (initialValue finalValue startDate endDate expenseRatio : value) : result float :=
  validatePositiveNumber initialValue "Initial value" ;;
  validateNonNegativeNumber finalValue "Final value" ;;
  validateDate startDate "Start date" ;;
  validateDate endDate "End date" ;;
  if num endDate <=? num startDate then Throw StartNotBeforeEnd
  else
    match expenseRatio with
    | VUndefined => Ok tt
    | _ => validateExpenseRatio expenseRatio
    end ;;
    let years := calculateYears (num startDate) (num endDate) in
    if num finalValue =? 0 then Ok (-1)
    else
      let cagr := Math_pow (num finalValue / num initialValue) (1 / years) - 1 in
      match expenseRatio with
      | VUndefined => Ok cagr
      | _ => Ok ((1 + cagr) * (1 - num expenseRatio) - 1)
      end.

(** *** index.js: calculateXIRR *)

(** The validation loop over [cashflows], from index [i] on, with the
    three variables it updates. *)
Fixpoint validateCashflows (i : nat) (cashflows : list value)
    (validCashflows : list cashflow) (hasPositive hasNegative : bool)
    : result (list cashflow * bool * bool) :=
  match cashflows with
  | [] => Ok (validCashflows, hasPositive, hasNegative)
  | cf :: rest =>
      if negb (truthy cf) || negb (is_object cf)
         || negb (truthy (get cf "date")) || negb (truthy (get cf "amount"))
      then Throw (CashflowMissingProperties i)
      else if negb (is_Date (get cf "date")) || is_nan (num (get cf "date"))
      then Throw (CashflowInvalidDate i)
      else if negb (is_number (get cf "amount")) || is_nan (num (get cf "amount"))
      then Throw (CashflowInvalidAmount i)
      else
        let a := num (get cf "amount") in
        validateCashflows (S i) rest
          (validCashflows ++ [mkCashflow (num (get cf "date")) a])
          (if 0 <? a then true else hasPositive)
          (if a <? 0 then true else hasNegative)
  end.

(** [validCashflows.sort((a, b) => a.date - b.date)]: the sort is stable,
    and [b] goes before [a] when the comparator is positive. *)
Definition compareDates (a b : cashflow) : float := date a - date b.

Fixpoint insertByDate (x : cashflow) (sorted : list cashflow) : list cashflow :=
  match sorted with
  | [] => [x]
  | y :: rest =>
      if 0 <? compareDates x y then y :: insertByDate x rest else x :: sorted
  end.

Definition sortByDate (cashflows : list cashflow) : list cashflow :=
  fold_right insertByDate [] cashflows.

Definition low0 : float := -0.999.
Definition high0 : float := 100000.0.
Definition tolerance : float := 1e-6.
Definition maxIterations : nat := 100.

(** The bisection loop with [iters] iterations left, followed by the final
    check.  Besides the outcome it returns the rates at which it evaluated
    the net present value, in order. *)
Fixpoint bisect (f : float -> float) (iters : nat) (low high : float)
    : list float * result float :=
  match iters with
  | O =>
      let finalR := (low + high) / 2 in
      ([finalR],
       if 1e-4 <? abs (f finalR) then Throw NpvDoesNotConverge else Ok finalR)
  | S iters' =>
      let mid := (low + high) / 2 in
      let midNpv := f mid in
      if abs midNpv <? tolerance then ([mid], Ok mid)
      else
        let rest :=
          if 0 <? midNpv then bisect f iters' mid high
          else bisect f iters' low mid in
        (mid :: fst rest, snd rest)
  end.

(** [validCashflows[0].date] of the sorted array. *)
Definition referenceDate (sorted : list cashflow) : float :=
  match sorted with
  | cf :: _ => date cf
  | [] => nan
  end.

(** The function whose root is searched: the net present value of the
    validated cashflows, sorted, discounted to their earliest date. *)
Definition seriesNpv (validCashflows : list cashflow) (r : float) : float :=
  let sorted := sortByDate validCashflows in
  npv r sorted (referenceDate sorted).

(** The root search on the net present value [f]: the check of the two
    ends of the bracket, then the bisection. *)
Definition findRoot (f : float -> float) : list float * result float :=
  let npvLow := f low0 in
  let npvHigh := f high0 in
  if 0 <? npvLow * npvHigh then ([low0; high0], Throw NoSolutionInRange)
  else
    let search := bisect f maxIterations low0 high0 in
    (low0 :: high0 :: fst search, snd search).

(** What follows the validation loop: the mixed-sign check, the sort and
    the root search. *)
Definition solveXIRR (validCashflows : list cashflow) (hasPositive hasNegative : bool)
    : list float * result float :=
  if negb hasPositive || negb hasNegative then ([], Throw CashflowsNotMixedSign)
  else findRoot (seriesNpv validCashflows).

(** [calculateXIRR] together with the rates at which [npv] was evaluated. *)
Definition calculateXIRR_traced (cashflows : value) : list float * result float :=
  match cashflows with
  | VArray elems =>
      if (List.length elems <? 2)%nat then ([], Throw CashflowsTooShort)
      else
        match validateCashflows 0 elems [] false false with
        | Throw e => ([], Throw e)
        | Ok (validCashflows, hasPositive, hasNegative) =>
            solveXIRR validCashflows hasPositive hasNegative
        end
  | _ => ([], Throw CashflowsTooShort)
  end.

Definition calculateXIRR (cashflows : value) : result float :=
  snd (calculateXIRR_traced cashflows).

(** *** index.js: calculateSharpeRatio *)

Fixpoint validateReturns (i : nat) (returns : list value) : result (list float) :=
  match returns with
  | [] => Ok []
  | v :: rest =>
      if negb (is_number v) || is_nan (num v)
      then Throw (ReturnInvalidNumber i)
      else rest' <- validateReturns (S i) rest ;; Ok (num v :: rest')
  end.

Definition calculateSharpeRatio (returns riskFreeRate : value) : result float :=
  match returns with
  | VArray elems =>
      if (List.length elems <? 2)%nat then Throw ReturnsTooShort
      else
        rs <- validateReturns 0 elems ;;
        if negb (is_number riskFreeRate) || is_nan (num riskFreeRate)
        then Throw RiskFreeRateInvalid
        else
          let rf := num riskFreeRate in
          let avgReturn := mean rs in
          let volatility := stdDev rs in
          if volatility <? 1e-10
          then Ok (if rf <? avgReturn then infinity
                   else if avgReturn <? rf then neg_infinity
                   else 0)
          else Ok ((avgReturn - rf) / volatility)
  | _ => Throw ReturnsTooShort
  end.

End Metrics.

(** * Vocabulary of the properties

    Definitions that the statements below use and the program does not
    contain: the brackets of the bisection as the specification describes
    them, what a valid input is, and the series of the examples. *)

(** ** The bisection, iteration by iteration

    The bracket after each iteration that does not return, as the
    specification describes it: the midpoint replaces the lower bound when
    the net present value there is positive, the upper bound otherwise. *)

Definition bracketStep (f : float -> float) (bracket : float * float) : float * float :=
  let mid := (fst bracket + snd bracket) / 2 in
  if 0 <? f mid then (mid, snd bracket) else (fst bracket, mid).

Definition bracketAfter (f : float -> float) (bracket : float * float) (k : nat)
    : float * float :=
  Nat.iter k (bracketStep f) bracket.

Definition midpoint (bracket : float * float) : float :=
  (fst bracket + snd bracket) / 2.

(** The midpoint evaluated in iteration [k] (counted from 0); for
    [k = maxIterations] it is the final midpoint. *)
Definition midpointAfter (f : float -> float) (k : nat) : float :=
  midpoint (bracketAfter f (low0, high0) k).

(** A cashflow array that passes the validation of [calculateXIRR], with
    the validated copies the loop collects. *)
Definition validatedSeries (elems : list value) (validCashflows : list cashflow) : Prop :=
  (2 <= List.length elems)%nat
  /\ validateCashflows 0 elems [] false false = Ok (validCashflows, true, true).

(** ** Inputs *)

(** The optional fifth argument of [calculateCAGR]. *)
Definition optionalNumber (x : option float) : value :=
  match x with
  | Some e => VNumber e
  | None => VUndefined
  end.

(** A number that passed the validation of [calculateMaxDrawdown]. *)
Definition validValue (v : float) : Prop := is_nan v = false /\ (v <? 0) = false.

(** The series never declines below a prior running peak: every value
    after the first is at least the largest value before it. *)
Fixpoint neverDeclines (values : list float) (peak : float) : bool :=
  match values with
  | [] => true
  | v :: rest => (peak <=? v) && neverDeclines rest (if peak <? v then v else peak)
  end.

Fixpoint strictlyIncreasing (values : list float) : bool :=
  match values with
  | v1 :: (v2 :: _) as rest => (v1 <? v2) && strictlyIncreasing rest
  | _ => true
  end.

(** A cashflow the validation loop accepts: a date that is not invalid and
    an amount that is neither NaN nor zero. *)
Definition validFlow (flow : float * float) : Prop :=
  is_nan (fst flow) = false /\ is_nan (snd flow) = false /\ (snd flow =? 0) = false.

(** [{ date: new Date(t), amount: a }] *)
Definition cashflowObject (t a : float) : value :=
  VObject [("date", VDate t); ("amount", VNumber a)].

(** A series given by its (time, amount) pairs, and the series with every
    amount negated. *)
Definition seriesOf (flows : list (float * float)) : list value :=
  map (fun flow => cashflowObject (fst flow) (snd flow)) flows.

Definition cashflowsOf (flows : list (float * float)) : list cashflow :=
  map (fun flow => mkCashflow (fst flow) (snd flow)) flows.

Definition negateAmounts (flows : list (float * float)) : list (float * float) :=
  map (fun flow => (fst flow, - snd flow)) flows.

(** The milliseconds of 365.25 days. *)
Definition oneYear : float := 31557600000.

(** An investment of 1000 that returns 1200 one year later. *)
Definition investment : list (float * float) := [(0, -1000); (oneYear, 1200)].

(** Amounts near the largest binary64 number, all but the first dated one
    year after it. *)
Definition hugeFlows : list (float * float) :=
  [(0, 1e301); (oneYear, -1.7976931348625167e+305); (oneYear, 1.79e305);
   (oneYear, 1.79e305); (oneYear, 1.79e305); (oneYear, -1e306)].

(** The net present value when every date is 0 or [oneYear] and the
    reference date is 0. *)
Definition npvWithinYear (r : float) (cashflows : list cashflow) : float :=
  fold_left
    (fun sum cf => sum + amount cf / (if date cf =? 0 then 1 else 1 + r))
    cashflows 0.

(** ** Binary64 numbers in the specification of the operations *)

(** The round and sticky bits of a shifted mantissa say whether a bit was
    lost. *)
Definition inexact (r : shr_record) : bool := shr_r r || shr_s r.

(** [r'] is [r] shifted right by [n] bits. *)
Definition shifted (r : shr_record) (n : Z) (r' : shr_record) : Prop :=
  (0 <= shr_m r)%Z ->
  shr_m r' = (shr_m r / 2 ^ n)%Z
  /\ (inexact r' = true -> inexact r = true \/ (shr_m r mod 2 ^ n)%Z <> 0%Z).

(** The number -1. *)
Definition minus_one : spec_float := S754_finite true 4503599627370496 (-52).

(** Zero, a positive number or +infinity. *)
Definition SFnonneg (x : spec_float) : bool :=
  match x with
  | S754_zero _ | S754_infinity false | S754_finite false _ _ => true
  | _ => false
  end.

(** ** What the validations accept *)

(** The arguments the guards of [calculateCAGR] let through. *)
Definition positiveNumber (v : value) : bool := is_number v && negb (num v <=? 0).
Definition nonNegativeNumber (v : value) : bool := is_number v && negb (num v <? 0).
Definition validDateObject (v : value) : bool := is_Date v && negb (is_nan (num v)).
Definition expenseRatioInRange (v : value) : bool :=
  is_number v && negb (num v <? 0) && negb (1 <=? num v).

(** [typeof v === 'number' && !isNaN(v)]: an entry the validation loop of
    [calculateSharpeRatio] accepts. *)
Definition validReturn (v : value) : bool :=
  is_number v && negb (is_nan (num v)).

(** An entry the validation loop of [calculateMaxDrawdown] accepts. *)
Definition validDrawdownValue (v : value) : bool :=
  is_number v && negb (is_nan (num v)) && negb (num v <? 0).

(** [j] is the index of the first entry of [l] that [ok] rejects. *)
Definition firstRejected {A : Type} (ok : A -> bool) (l : list A) (j : nat) : Prop :=
  exists v, nth_error l j = Some v /\ ok v = false /\ forallb ok (firstn j l) = true.

(** An entry of the cashflow array that the validation loop accepts: a
    plain object whose [date] is a valid Date and whose [amount] is a
    number other than NaN and zero. *)
Definition wellFormedCashflow (cf : value) : Prop :=
  exists props t a,
    cf = VObject props
    /\ lookup "date" props = VDate t /\ lookup "amount" props = VNumber a
    /\ is_nan t = false /\ is_nan a = false /\ (a =? 0) = false.

(** [{ date: cf.date, amount: cf.amount }] *)
Definition copyOf (cf : value) : cashflow :=
  mkCashflow (num (get cf "date")) (num (get cf "amount")).

(** ** Cashflows and rates *)

(** Cashflows with a finite date (the time value of a JavaScript [Date]
    is a finite number or NaN, never an infinity), and cashflows that
    share a date only when they are the same cashflow. *)
Definition finiteDates (cashflows : list cashflow) : Prop :=
  Forall (fun cf => is_finite (date cf) = true) cashflows.

Definition datesIdentify (cashflows : list cashflow) : Prop :=
  forall x y, In x cashflows -> In y cashflows -> x = y \/ (date x =? date y) = false.

(** The net present value of cashflows that are all dated at the reference
    date: no amount is discounted. *)
Definition undiscounted (cashflows : list cashflow) : float :=
  fold_left (fun sum cf => sum + amount cf / 1) cashflows 0.

(** A rate of the search bracket of [calculateXIRR]. *)
Definition inBracket (r : float) : Prop :=
  (low0 <=? r) = true /\ (r <=? high0) = true.

(** ** Drawdowns *)

(** The drawdowns the scan of [calculateMaxDrawdown] computes: one for
    every value that does not exceed the running peak, measured from that
    peak. *)
Fixpoint drawdowns (values : list float) (peak : float) : list float :=
  match values with
  | [] => []
  | v :: rest =>
      if peak <? v then drawdowns rest v
      else (v - peak) / peak :: drawdowns rest peak
  end.

(** The running peak after the scan of [values]. *)
Fixpoint runningPeak (values : list float) (peak : float) : float :=
  match values with
  | [] => peak
  | v :: rest => runningPeak rest (if peak <? v then v else peak)
  end.

(** A portfolio value that is a finite number, zero or positive. *)
Definition finiteValue (v : float) : Prop := (0 <=? v) = true /\ is_finite v = true.

(** ** Values of binary64 numbers *)

(** The value of a finite binary64 number, in units of [2^-1075] (half
    the least positive number), and 0 for the others. *)
Definition SFval (x : spec_float) : Z :=
  match x with
  | S754_finite s m e => cond_Zopp s (Zpos m * 2 ^ (e + 1075))
  | _ => 0%Z
  end.

(** A zero or a finite number. *)
Definition SFfinite (x : spec_float) : bool :=
  match x with
  | S754_zero _ | S754_finite _ _ _ => true
  | _ => false
  end.

(** [R] is a rounding of the magnitude [V] (in units of [2^-1075]) with
    the sign [s]: it has that sign and stays on the same side of every
    representable bound as [V]. *)
Definition roundsMagnitude (s : bool) (V : Z) (R : spec_float) : Prop :=
  (R = S754_zero s \/ R = S754_infinity s \/ exists m e, R = S754_finite s m e)
  /\ (forall (mB : positive) (eB : Z),
        canonical_mantissa prec emax mB eB = true -> (eB <= emax - prec)%Z ->
        (V <= Zpos mB * 2 ^ (eB + 1075))%Z ->
        R = S754_zero s
        \/ exists m e, R = S754_finite s m e
                       /\ (Zpos m * 2 ^ (e + 1075) <= Zpos mB * 2 ^ (eB + 1075))%Z)
  /\ (forall (mB : positive) (eB : Z),
        canonical_mantissa prec emax mB eB = true ->
        (Zpos mB * 2 ^ (eB + 1075) <= V)%Z ->
        R = S754_infinity s
        \/ exists m e, R = S754_finite s m e
                       /\ (Zpos mB * 2 ^ (eB + 1075) <= Zpos m * 2 ^ (e + 1075))%Z).

(** The number 2. *)
Definition SFtwo : spec_float := S754_finite false 4503599627370496 (-51).

(** Twice a finite number. *)
Definition SFdouble (x : spec_float) : spec_float :=
  match x with
  | S754_finite s m e =>
      if (Zdigits2 (Zpos m) =? 53)%Z then S754_finite s m (e + 1)
      else S754_finite s m~0 e
  | _ => x
  end.

(** The binary64 number [2^k], for [k] from -1074 on. *)
Definition SFpow2 (k : Z) : spec_float :=
  if (-1022 <=? k)%Z then S754_finite false 4503599627370496 (k - 52)
  else S754_finite false (Z.to_pos (2 ^ (k + 1074))) (-1074).

(** * Binary64 facts *)

(** ** Comparisons of binary64 numbers *)

Lemma SFcompare_refl (x : spec_float) :
  x <> S754_nan -> SFcompare x x = Some Eq.
Proof.
  destruct x as [s|s| |s m e]; simpl; try congruence; intros _.
  - destruct s; reflexivity.
  - rewrite Z.compare_refl.
    assert (H : Pos.compare_cont Eq m m = Eq) by apply Pos.compare_refl.
    rewrite H. destruct s; reflexivity.
Qed.

Lemma SFcompare_swap (x y : spec_float) :
  SFcompare y x = option_map CompOpp (SFcompare x y).
Proof.
  destruct x as [sx|sx| |sx mx ex], y as [sy|sy| |sy my ey]; simpl;
    try reflexivity; try (destruct sx; reflexivity); try (destruct sy; reflexivity);
    try (destruct sx, sy; reflexivity).
  f_equal.
  assert (Hm : Pos.compare_cont Eq my mx = CompOpp (Pos.compare_cont Eq mx my))
    by apply Pos.compare_antisym.
  rewrite (Z.compare_antisym ex ey).
  destruct sx, sy; simpl; try reflexivity;
    destruct (ex ?= ey)%Z; simpl; try reflexivity; rewrite Hm;
    destruct (Pos.compare_cont Eq mx my); reflexivity.
Qed.

Lemma is_nan_Prim2SF (x : float) : is_nan x = true <-> Prim2SF x = S754_nan.
Proof.
  unfold is_nan. rewrite FloatAxioms.eqb_spec. unfold SFeqb. split.
  - intros H. destruct (Prim2SF x) eqn:E; try reflexivity;
      rewrite SFcompare_refl in H by congruence; discriminate.
  - intros ->. reflexivity.
Qed.

Lemma not_nan_Prim2SF (x : float) : is_nan x = false <-> Prim2SF x <> S754_nan.
Proof.
  rewrite <- is_nan_Prim2SF. destruct (is_nan x); split; congruence.
Qed.

(** What an order test between two numbers can answer. *)
Lemma SFcompare_cases (x y : float) :
  (is_nan x = true \/ is_nan y = true) /\ SFcompare (Prim2SF x) (Prim2SF y) = None
  \/ is_nan x = false /\ is_nan y = false
     /\ exists c, SFcompare (Prim2SF x) (Prim2SF y) = Some c.
Proof.
  destruct (is_nan x) eqn:Hx.
  { left. split; [now left|]. apply is_nan_Prim2SF in Hx. now rewrite Hx. }
  destruct (is_nan y) eqn:Hy.
  { left. split; [now right|]. apply is_nan_Prim2SF in Hy. rewrite Hy.
    now destruct (Prim2SF x). }
  right. repeat split.
  apply not_nan_Prim2SF in Hx, Hy.
  destruct (Prim2SF x), (Prim2SF y); try congruence; simpl; eauto.
Qed.

(** The order tests of two numbers, read on the comparison of their
    specifications, in both directions. *)
Ltac on_compare x y :=
  rewrite ?FloatAxioms.eqb_spec, ?FloatAxioms.ltb_spec, ?FloatAxioms.leb_spec;
  unfold SFeqb, SFltb, SFleb;
  rewrite ?(SFcompare_swap (Prim2SF x) (Prim2SF y)).

Ltac by_compare x y :=
  on_compare x y;
  destruct (SFcompare (Prim2SF x) (Prim2SF y)) as [[]|]; simpl;
  repeat split; congruence.

Lemma ltb_true_not_nan (x y : float) :
  (x <? y) = true -> is_nan x = false /\ is_nan y = false.
Proof.
  on_compare x y. intros H.
  destruct (SFcompare_cases x y) as [[_ Hc]|(Hx & Hy & _)]; [|now split].
  rewrite Hc in H. discriminate.
Qed.

Lemma leb_true_not_nan (x y : float) :
  (x <=? y) = true -> is_nan x = false /\ is_nan y = false.
Proof.
  on_compare x y. intros H.
  destruct (SFcompare_cases x y) as [[_ Hc]|(Hx & Hy & _)]; [|now split].
  rewrite Hc in H. discriminate.
Qed.

Lemma ltb_true_leb_false (x y : float) : (x <? y) = true -> (y <=? x) = false.
Proof. by_compare x y. Qed.

Lemma leb_true_ltb_false (x y : float) : (x <=? y) = true -> (y <? x) = false.
Proof. by_compare x y. Qed.

Lemma ltb_true_ltb_false (x y : float) : (x <? y) = true -> (y <? x) = false.
Proof. by_compare x y. Qed.

Lemma ltb_true_leb_true (x y : float) : (x <? y) = true -> (x <=? y) = true.
Proof. by_compare x y. Qed.


(** Between two numbers that are not NaN, [x < y] fails only when [y <= x]. *)
Lemma ltb_false_leb_true (x y : float) :
  is_nan x = false -> is_nan y = false -> (x <? y) = false -> (y <=? x) = true.
Proof.
  intros Hx Hy. on_compare x y.
  destruct (SFcompare_cases x y) as [[[H|H] _]|(_ & _ & c & Hc)]; try congruence.
  rewrite Hc. destruct c; simpl; congruence.
Qed.

(** [x < y] fails exactly when [y <= x] or one of the two is NaN. *)
Lemma ltb_false_iff (x y : float) :
  (x <? y) = false <-> (y <=? x) = true \/ is_nan x = true \/ is_nan y = true.
Proof.
  split.
  - intros H. destruct (is_nan x) eqn:Hx; [tauto|]. destruct (is_nan y) eqn:Hy; [tauto|].
    left. now apply ltb_false_leb_true.
  - intros [H|[H|H]].
    + now apply leb_true_ltb_false.
    + destruct (x <? y) eqn:E; [|reflexivity].
      apply ltb_true_not_nan in E. destruct E; congruence.
    + destruct (x <? y) eqn:E; [|reflexivity].
      apply ltb_true_not_nan in E. destruct E; congruence.
Qed.

Lemma abs_is_nan (x : float) : is_nan (abs x) = is_nan x.
Proof.
  destruct (is_nan x) eqn:Hx.
  - apply is_nan_Prim2SF. rewrite abs_spec. apply is_nan_Prim2SF in Hx. now rewrite Hx.
  - apply not_nan_Prim2SF. rewrite abs_spec. apply not_nan_Prim2SF in Hx.
    destruct (Prim2SF x); simpl; congruence.
Qed.

(** ** Rounding of a drawdown

    The drawdown [(v - peak) / peak] takes two rounded operations.  Their
    definitions in the binary64 specification are followed here to bound
    the result: each rounding stays below a representable bound that the
    exact value does not exceed. *)

Section Rounding.

Local Open Scope Z_scope.

(** *** Digits of a mantissa *)
Lemma Zdigits2_log2 (m : positive) : Zdigits2 (Zpos m) = Z.log2 (Zpos m) + 1.
Proof.
  cbn [Zdigits2]. induction m as [m IH|m IH|]; cbn [digits2_pos].
  - rewrite Pos2Z.inj_succ, IH. 
    change (Z.log2 (Zpos m~1)) with (Zpos (Pos.size m)).
    destruct m; cbn [Z.log2]; try lia. all: cbn [Pos.size]; lia.
  - rewrite Pos2Z.inj_succ, IH. 
    change (Z.log2 (Zpos m~0)) with (Zpos (Pos.size m)).
    destruct m; cbn [Z.log2]; try lia. all: cbn [Pos.size]; lia.
  - reflexivity.
Qed.

Lemma Zdigits2_bounds (m : Z) :
  0 < m -> 2 ^ (Zdigits2 m - 1) <= m < 2 ^ Zdigits2 m.
Proof.
  intros Hm. destruct m as [|p|p]; try lia.
  rewrite Zdigits2_log2. replace (Z.log2 (Zpos p) + 1 - 1) with (Z.log2 (Zpos p)) by lia.
  replace (Z.log2 (Zpos p) + 1) with (Z.succ (Z.log2 (Zpos p))) by lia.
  apply Z.log2_spec. lia.
Qed.

Lemma Zdigits2_nonneg (m : Z) : 0 <= Zdigits2 m.
Proof. destruct m; cbn; lia. Qed.

Lemma Zdigits2_pos (m : Z) : 0 < m -> 0 < Zdigits2 m.
Proof. destruct m; cbn; lia. Qed.

(** [m < 2^d] bounds the number of digits. *)
Lemma Zdigits2_le (m d : Z) : 0 <= d -> 0 <= m -> m < 2 ^ d -> Zdigits2 m <= d.
Proof.
  intros Hd Hm Hlt. destruct (Z.eq_dec m 0) as [->|Hne]; [cbn; lia|].
  destruct (Zdigits2_bounds m ltac:(lia)) as [Hlo _].
  destruct (Z_le_gt_dec (Zdigits2 m) d) as [H|H]; [exact H|].
  assert (2 ^ d <= 2 ^ (Zdigits2 m - 1)) by (apply Z.pow_le_mono_r; lia). lia.
Qed.

(** *** Right shifts with round and sticky bits *)
Lemma shifted_1 (r : shr_record) : shifted r 1 (shr_1 r).
Proof.
  intros Hm. destruct r as [m rb sb]. cbn [shr_m] in *. unfold inexact.
  change (2 ^ 1) with 2.
  destruct m as [|[p|p|]|p]; try lia; cbn [shr_1 shr_m shr_r shr_s orb].
  - split; [reflexivity|]. intros H. left. exact H.
  - split; [rewrite Pos2Z.inj_xI; apply Z.div_unique with 1; lia|].
    intros _. right. rewrite Pos2Z.inj_xI.
    rewrite <- (Z.mod_unique (2 * Zpos p + 1) 2 (Zpos p) 1); lia.
  - split; [rewrite Pos2Z.inj_xO; apply Z.div_unique with 0; lia|].
    intros H. left. exact H.
  - split; [reflexivity|]. intros _. right. cbn. lia.
Qed.

Lemma shifted_trans (r r1 r2 : shr_record) (a b : Z) :
  0 <= a -> 0 <= b ->
  shifted r a r1 -> shifted r1 b r2 -> shifted r (a + b) r2.
Proof.
  intros Ha Hb H1 H2 Hm.
  destruct (H1 Hm) as [Hm1 Hi1].
  assert (Hpa : 0 < 2 ^ a) by (apply Z.pow_pos_nonneg; lia).
  assert (Hpb : 0 < 2 ^ b) by (apply Z.pow_pos_nonneg; lia).
  assert (Hm1' : 0 <= shr_m r1) by (rewrite Hm1; apply Z.div_pos; lia).
  destruct (H2 Hm1') as [Hm2 Hi2].
  rewrite Z.pow_add_r by lia. split.
  - rewrite Hm2, Hm1. apply Z.div_div; lia.
  - intros H. destruct (Hi2 H) as [H'|H'].
    + destruct (Hi1 H') as [H''|H'']; [now left|right].
      intros Hz. apply H''. 
      apply Z.mod_divide in Hz; [|lia]. apply Z.mod_divide; [lia|].
      destruct Hz as [c Hc]. exists (c * 2 ^ b). lia.
    + right. intros Hz. apply H'. rewrite Hm1.
      apply Z.mod_divide in Hz; [|lia]. apply Z.mod_divide; [lia|].
      destruct Hz as [c Hc]. exists c. rewrite Hc.
      replace (c * (2 ^ a * 2 ^ b)) with (c * 2 ^ b * 2 ^ a) by lia.
      rewrite Z.div_mul; lia.
Qed.

Lemma iter_pos_shr_1 (p : positive) :
  forall r, shifted r (Zpos p) (SpecFloat.iter_pos shr_1 p r).
Proof.
  induction p as [p IH|p IH|]; intros r; cbn [SpecFloat.iter_pos].
  - replace (Zpos p~1) with (1 + (Zpos p + Zpos p)) by lia.
    eapply shifted_trans; [lia|lia|apply shifted_1|].
    eapply shifted_trans; [lia|lia|apply IH|apply IH].
  - replace (Zpos p~0) with (Zpos p + Zpos p) by lia.
    eapply shifted_trans; [lia|lia|apply IH|apply IH].
  - apply shifted_1.
Qed.

Local Notation fexp64 := (SpecFloat.fexp prec emax).

Lemma fexp64_eq (e : Z) : fexp64 e = Z.max (e - 53) (-1074).
Proof. reflexivity. Qed.

Lemma shr_record_of_loc_spec (m : Z) (l : location) :
  shr_m (shr_record_of_loc m l) = m
  /\ (inexact (shr_record_of_loc m l) = true -> l <> loc_Exact).
Proof.
  destruct l as [|[]]; cbn; split; try reflexivity; intros H; discriminate.
Qed.

Lemma shr_fexp_spec (m e : Z) (l : location) :
  0 <= m ->
  exists r e',
    shr_fexp prec emax m e l = (r, e')
    /\ e' = e + Z.max 0 (fexp64 (Zdigits2 m + e) - e)
    /\ shr_m r = m / 2 ^ Z.max 0 (fexp64 (Zdigits2 m + e) - e)
    /\ (inexact r = true ->
        l <> loc_Exact \/ m mod 2 ^ Z.max 0 (fexp64 (Zdigits2 m + e) - e) <> 0).
Proof.
  intros Hm. unfold shr_fexp, shr.
  destruct (shr_record_of_loc_spec m l) as [Hrm Hri].
  destruct (fexp64 (Zdigits2 m + e) - e) as [|p|p] eqn:Hk.
  - eexists _, _. split; [reflexivity|]. cbn [Z.max Z.compare].
    rewrite Z.add_0_r, Z.pow_0_r, Z.div_1_r. auto.
  - destruct (iter_pos_shr_1 p (shr_record_of_loc m l)) as [Hsm Hsi]; [lia|].
    eexists _, _. split; [reflexivity|].
    replace (Z.max 0 (Zpos p)) with (Zpos p) by lia.
    rewrite Hrm in *. repeat split; auto.
    intros H. destruct (Hsi H) as [H'|H']; auto.
  - eexists _, _. split; [reflexivity|].
    replace (Z.max 0 (Zneg p)) with 0 by lia.
    rewrite Z.add_0_r, Z.pow_0_r, Z.div_1_r. auto.
Qed.

Lemma round_nearest_even_spec (r : shr_record) :
  round_nearest_even (shr_m r) (loc_of_shr_record r) = shr_m r
  \/ (round_nearest_even (shr_m r) (loc_of_shr_record r) = shr_m r + 1
      /\ inexact r = true).
Proof.
  destruct r as [m [|] [|]]; cbn; auto.
  destruct (Z.even m); auto.
Qed.

(** Division by a power of two below a bound that is a multiple of it. *)
Lemma div_pow2_le (m b k : Z) :
  0 <= k -> 0 <= m -> m <= b * 2 ^ k -> m / 2 ^ k <= b.
Proof.
  intros Hk Hm Hle.
  assert (Hp : 0 < 2 ^ k) by (apply Z.pow_pos_nonneg; lia).
  apply Z.div_le_upper_bound; lia.
Qed.

Lemma div_pow2_lt (m b k : Z) :
  0 <= k -> 0 <= m -> m <= b * 2 ^ k -> m mod 2 ^ k <> 0 -> m / 2 ^ k < b.
Proof.
  intros Hk Hm Hle Hmod.
  assert (Hp : 0 < 2 ^ k) by (apply Z.pow_pos_nonneg; lia).
  assert (m <> b * 2 ^ k) by (intros ->; apply Hmod; apply Z.mod_mul; lia).
  apply Z.div_lt_upper_bound; lia.
Qed.

Lemma div_pow2_lt' (m b k : Z) :
  0 <= k -> 0 <= m -> m < b * 2 ^ k -> m / 2 ^ k < b.
Proof.
  intros Hk Hm Hle.
  assert (Hp : 0 < 2 ^ k) by (apply Z.pow_pos_nonneg; lia).
  apply Z.div_lt_upper_bound; lia.
Qed.

Lemma fexp64_mono (a b : Z) : a <= b -> fexp64 a <= fexp64 b.
Proof. rewrite !fexp64_eq. lia. Qed.

Lemma canonical_mantissa_eq (m : positive) (e : Z) :
  canonical_mantissa prec emax m e = true ->
  fexp64 (Zdigits2 (Zpos m) + e) = e.
Proof. unfold canonical_mantissa. intros H. apply Z.eqb_eq in H. exact H. Qed.

(** The number of digits of a mantissa below a bound at a higher exponent. *)
Lemma Zdigits2_below (m : Z) (mB : positive) (d : Z) :
  0 <= d -> 0 <= m -> m <= Zpos mB * 2 ^ d ->
  Zdigits2 m <= Zdigits2 (Zpos mB) + d.
Proof.
  intros Hd Hm Hle.
  destruct (Zdigits2_bounds (Zpos mB) ltac:(lia)) as [_ Hhi].
  pose proof (Zdigits2_pos (Zpos mB) ltac:(lia)) as Hpos.
  apply Zdigits2_le; [lia|lia|].
  rewrite Z.pow_add_r by lia.
  assert (0 < 2 ^ d) by (apply Z.pow_pos_nonneg; lia). nia.
Qed.

(** Rounding stays below a representable bound. *)
Lemma binary_round_aux_le (s : bool) (mx ex : Z) (lx : location) (mB : positive) (eB : Z) :
  0 <= mx -> ex <= eB ->
  canonical_mantissa prec emax mB eB = true ->
  eB <= emax - prec ->
  mx <= Zpos mB * 2 ^ (eB - ex) ->
  (lx <> loc_Exact -> mx < Zpos mB * 2 ^ (eB - ex)) ->
  binary_round_aux prec emax s mx ex lx = S754_zero s
  \/ exists m e,
       binary_round_aux prec emax s mx ex lx = S754_finite s m e
       /\ e <= eB /\ Zpos m <= Zpos mB * 2 ^ (eB - e).
Proof.
  intros Hmx Hex Hcan Hbound Hle Hlt.
  apply canonical_mantissa_eq in Hcan.
  destruct (shr_fexp_spec mx ex lx Hmx) as (r1 & e1 & E1 & He1 & Hm1 & Hi1).
  set (k := Z.max 0 (fexp64 (Zdigits2 mx + ex) - ex)) in *.
  assert (Hk : 0 <= k) by lia.
  assert (He1B : e1 <= eB).
  { pose proof (Zdigits2_below mx mB (eB - ex) ltac:(lia) Hmx Hle) as Hd.
    pose proof (fexp64_mono (Zdigits2 mx + ex) (Zdigits2 (Zpos mB) + eB) ltac:(lia)). lia. }
  assert (Hsplit : 2 ^ (eB - ex) = 2 ^ (eB - e1) * 2 ^ k).
  { rewrite <- Z.pow_add_r by lia. f_equal. lia. }
  assert (Hpk : 0 < 2 ^ k) by (apply Z.pow_pos_nonneg; lia).
  assert (Hm1le : shr_m r1 <= Zpos mB * 2 ^ (eB - e1)).
  { rewrite Hm1. apply div_pow2_le; [lia|lia|]. rewrite Hsplit in Hle. lia. }
  assert (Hm1lt : inexact r1 = true -> shr_m r1 < Zpos mB * 2 ^ (eB - e1)).
  { intros Hi. rewrite Hm1. destruct (Hi1 Hi) as [Hl|Hmod].
    - apply div_pow2_lt'; [lia|lia|]. specialize (Hlt Hl). rewrite Hsplit in Hlt. lia.
    - apply div_pow2_lt; [lia|lia| |exact Hmod]. rewrite Hsplit in Hle. lia. }
  assert (Hm1pos : 0 <= shr_m r1) by (rewrite Hm1; apply Z.div_pos; lia).
  set (m2 := round_nearest_even (shr_m r1) (loc_of_shr_record r1)).
  assert (Hm2 : 0 <= m2 <= Zpos mB * 2 ^ (eB - e1)).
  { unfold m2. destruct (round_nearest_even_spec r1) as [->|[-> Hi]]; [lia|].
    specialize (Hm1lt Hi). lia. }
  destruct (shr_fexp_spec m2 e1 loc_Exact ltac:(lia)) as (r3 & e3 & E3 & He3 & Hm3 & _).
  set (k' := Z.max 0 (fexp64 (Zdigits2 m2 + e1) - e1)) in *.
  assert (He3B : e3 <= eB).
  { pose proof (Zdigits2_below m2 mB (eB - e1) ltac:(lia) ltac:(lia) ltac:(lia)) as Hd.
    pose proof (fexp64_mono (Zdigits2 m2 + e1) (Zdigits2 (Zpos mB) + eB) ltac:(lia)). lia. }
  assert (Hsplit' : 2 ^ (eB - e1) = 2 ^ (eB - e3) * 2 ^ k').
  { rewrite <- Z.pow_add_r by lia. f_equal. lia. }
  assert (Hm3le : shr_m r3 <= Zpos mB * 2 ^ (eB - e3)).
  { rewrite Hm3. apply div_pow2_le; [lia|lia|]. rewrite Hsplit' in Hm2. lia. }
  assert (Hm3pos : 0 <= shr_m r3).
  { rewrite Hm3. apply Z.div_pos; [lia|]. apply Z.pow_pos_nonneg; lia. }
  unfold binary_round_aux. rewrite E1. fold m2. rewrite E3.
  destruct (shr_m r3) as [|m3|m3] eqn:Em3.
  - left. reflexivity.
  - right. exists m3, e3.
    replace (e3 <=? emax - prec) with true by (symmetry; apply Z.leb_le; lia).
    repeat split; auto.
  - lia.
Qed.

Lemma iter_xO (m d : positive) : Zpos (Pos.iter xO m d) = Zpos m * 2 ^ Zpos d.
Proof.
  induction d as [|d IH] using Pos.peano_ind.
  - cbn. lia.
  - rewrite Pos.iter_succ, Pos2Z.inj_xO, IH, Pos2Z.inj_succ, Z.pow_succ_r by lia. lia.
Qed.

Lemma shl_align_spec (m : positive) (e e' : Z) :
  snd (shl_align m e e') = Z.min e e'
  /\ Zpos (fst (shl_align m e e')) = Zpos m * 2 ^ (e - Z.min e e').
Proof.
  unfold shl_align. destruct (e' - e) as [|d|d] eqn:Hd; cbn [fst snd].
  - replace (Z.min e e') with e by lia. rewrite Z.sub_diag. cbn. lia.
  - replace (Z.min e e') with e by lia. rewrite Z.sub_diag. cbn. lia.
  - replace (Z.min e e') with e' by lia. rewrite iter_xO.
    replace (e - e') with (Zpos d) by lia. lia.
Qed.

(** Canonical mantissas: at most 53 digits, exactly 53 above the least
    exponent. *)
Lemma canonical_digits (m : positive) (e : Z) :
  canonical_mantissa prec emax m e = true ->
  -1074 <= e /\ Zdigits2 (Zpos m) <= 53 /\ (-1074 < e -> Zdigits2 (Zpos m) = 53).
Proof.
  intros H. apply canonical_mantissa_eq in H. rewrite fexp64_eq in H. lia.
Qed.

Lemma canonical_lt (m1 m2 : positive) (e1 e2 : Z) :
  canonical_mantissa prec emax m1 e1 = true ->
  canonical_mantissa prec emax m2 e2 = true ->
  e1 < e2 -> Zpos m1 < Zpos m2 * 2 ^ (e2 - e1).
Proof.
  intros H1 H2 Hlt.
  destruct (canonical_digits _ _ H1) as (Hmin & Hd1 & _).
  destruct (canonical_digits _ _ H2) as (_ & _ & Hd2). specialize (Hd2 ltac:(lia)).
  destruct (Zdigits2_bounds (Zpos m1) ltac:(lia)) as [_ Hhi].
  destruct (Zdigits2_bounds (Zpos m2) ltac:(lia)) as [Hlo _].
  rewrite Hd2 in Hlo. change (2 ^ (53 - 1)) with 4503599627370496 in Hlo.
  assert (2 ^ Zdigits2 (Zpos m1) <= 2 ^ 53) by (apply Z.pow_le_mono_r; lia).
  change (2 ^ 53) with 9007199254740992 in *.
  assert (2 ^ 1 <= 2 ^ (e2 - e1)) by (apply Z.pow_le_mono_r; lia).
  change (2 ^ 1) with 2 in *. nia.
Qed.

(** The order test on two positive finite numbers, on their mantissas
    aligned to the smaller exponent. *)
Lemma SFcompare_le_aligned (m1 m2 : positive) (e1 e2 : Z) (c : comparison) :
  canonical_mantissa prec emax m1 e1 = true ->
  canonical_mantissa prec emax m2 e2 = true ->
  SFcompare (S754_finite false m1 e1) (S754_finite false m2 e2) = Some c ->
  c <> Gt ->
  Zpos m1 * 2 ^ (e1 - Z.min e1 e2) <= Zpos m2 * 2 ^ (e2 - Z.min e1 e2)
  /\ (c = Eq -> e1 = e2 /\ m1 = m2).
Proof.
  intros H1 H2 Hc Hne. cbn in Hc. injection Hc as Hc.
  destruct (Z.compare_spec e1 e2) as [->|Hlt|Hgt].
  - rewrite Z.min_id, Z.sub_diag. cbn [Z.pow]. rewrite !Z.mul_1_r.
    change (Pos.compare_cont Eq m1 m2) with (Pos.compare m1 m2) in Hc.
    destruct (Pos.compare_spec m1 m2) as [->|Hm|Hm]; subst c; try congruence.
    + split; [lia|auto].
    + split; [lia|discriminate].
  - replace (Z.min e1 e2) with e1 by lia. rewrite Z.sub_diag. cbn [Z.pow].
    pose proof (canonical_lt _ _ _ _ H1 H2 Hlt). subst c. split; [lia|discriminate].
  - subst c. congruence.
Qed.

(** [v - p] for positive finite [v <= p]: zero, or negative and no larger
    than [p] in absolute value. *)
Lemma SFsub_below (mv mp : positive) (ev ep : Z) (c : comparison) :
  canonical_mantissa prec emax mv ev = true ->
  canonical_mantissa prec emax mp ep = true ->
  ep <= emax - prec ->
  SFcompare (S754_finite false mv ev) (S754_finite false mp ep) = Some c ->
  c <> Gt ->
  (c = Eq -> SF64sub (S754_finite false mv ev) (S754_finite false mp ep) = S754_zero false)
  /\ (SF64sub (S754_finite false mv ev) (S754_finite false mp ep) = S754_zero false
      \/ SF64sub (S754_finite false mv ev) (S754_finite false mp ep) = S754_zero true
      \/ exists m e,
           SF64sub (S754_finite false mv ev) (S754_finite false mp ep) = S754_finite true m e
           /\ e <= ep /\ Zpos m <= Zpos mp * 2 ^ (ep - e)).
Proof.
  intros Hv Hp Hbound Hc Hne.
  destruct (SFcompare_le_aligned _ _ _ _ _ Hv Hp Hc Hne) as [Hle Heq].
  unfold SF64sub, SFsub. cbn [cond_Zopp].
  set (ez := Z.min ev ep) in *.
  destruct (shl_align_spec mv ev ez) as [_ HV].
  destruct (shl_align_spec mp ep ez) as [_ HP].
  replace (Z.min ev ez) with ez in HV by lia.
  replace (Z.min ep ez) with ez in HP by lia.
  set (V := Zpos (fst (shl_align mv ev ez))) in *.
  set (P := Zpos (fst (shl_align mp ep ez))) in *.
  assert (HVP : V <= P) by lia.
  split.
  - intros ->. destruct (Heq eq_refl) as [-> ->].
    replace (V - P) with 0 by lia. reflexivity.
  - destruct (V - P) as [|n|n] eqn:Hn; cbn [binary_normalize]; [now left|lia|].
    right. unfold binary_round.
    destruct (shl_align_spec n ez (fexp64 (Zpos (digits2_pos n) + ez))) as [He' Hmz].
    destruct (shl_align n ez (fexp64 (Zpos (digits2_pos n) + ez))) as [mz ez'].
    cbn [fst snd] in He', Hmz.
    assert (Hez : ez' <= ez) by lia.
    assert (Hpow : 2 ^ (ep - ez') = 2 ^ (ep - ez) * 2 ^ (ez - ez')).
    { rewrite <- Z.pow_add_r by lia. f_equal. lia. }
    assert (Hp2 : 0 < 2 ^ (ez - ez')) by (apply Z.pow_pos_nonneg; lia).
    assert (Hmzle : Zpos mz <= Zpos mp * 2 ^ (ep - ez')).
    { rewrite Hmz, Hpow. rewrite <- He'. 
      replace (Z.min ez (fexp64 (Zpos (digits2_pos n) + ez))) with ez' by lia.
      assert (Zpos n <= Zpos mp * 2 ^ (ep - ez)) by lia. nia. }
    destruct (binary_round_aux_le true (Zpos mz) ez' loc_Exact mp ep)
      as [Hz|(m & e & Hf & He & Hm)]; try lia; try assumption.
    + congruence.
    + left. exact Hz.
    + right. exists m, e. auto.
Qed.

Lemma new_location_inexact (nb k : Z) : new_location nb k <> loc_Exact -> k <> 0.
Proof.
  intros H ->. apply H. unfold new_location, new_location_even, new_location_odd.
  destruct (Z.even nb); reflexivity.
Qed.

(** [q / p] for negative [q] no larger than positive [p] in absolute value
    is a negative zero or a negative number no smaller than -1. *)
Lemma SFdiv_above_minus_one (mq mp : positive) (eq ep : Z) :
  eq <= ep -> Zpos mq <= Zpos mp * 2 ^ (ep - eq) ->
  SF64div (S754_finite true mq eq) (S754_finite false mp ep) = S754_zero true
  \/ exists m e,
       SF64div (S754_finite true mq eq) (S754_finite false mp ep) = S754_finite true m e
       /\ SFleb minus_one (S754_finite true m e) = true.
Proof.
  intros He Hm. unfold SF64div, SFdiv, SFdiv_core_binary.
  set (e' := Z.min (fexp64 (Zdigits2 (Zpos mq) + eq - (Zdigits2 (Zpos mp) + ep))) (eq - ep)).
  assert (Hd : Zdigits2 (Zpos mq) <= Zdigits2 (Zpos mp) + (ep - eq))
    by (apply Zdigits2_below; lia).
  assert (He' : e' <= -53) by (unfold e'; rewrite fexp64_eq; lia).
  assert (Hs : 0 <= eq - ep - e') by (unfold e'; lia).
  set (M := match eq - ep - e' with
            | 0 => Zpos mq
            | Zpos _ => Z.shiftl (Zpos mq) (eq - ep - e')
            | Zneg _ => 0
            end).
  assert (HM : M = Zpos mq * 2 ^ (eq - ep - e')).
  { unfold M. destruct (eq - ep - e') as [|s|s] eqn:Es; try lia.
    apply Z.shiftl_mul_pow2. lia. }
  clearbody M.
  assert (Hpow : 2 ^ (- e') = 2 ^ (ep - eq) * 2 ^ (eq - ep - e')).
  { rewrite <- Z.pow_add_r by lia. f_equal. lia. }
  assert (Hp2 : 0 < 2 ^ (eq - ep - e')) by (apply Z.pow_pos_nonneg; lia).
  assert (HMle : M <= Zpos mp * 2 ^ (- e')) by (rewrite HM, Hpow; nia).
  assert (HM0 : 0 <= M) by (rewrite HM; lia).
  pose proof (Z_div_mod M (Zpos mp) ltac:(lia)) as Hdiv.
  destruct (Z.div_eucl M (Zpos mp)) as [q r]. destruct Hdiv as [Hqr Hr].
  assert (Hq0 : 0 <= q) by nia.
  assert (Hpow' : 4503599627370496 * 2 ^ (-52 - e') = 2 ^ (- e')).
  { change 4503599627370496 with (2 ^ 52). rewrite <- Z.pow_add_r by lia. f_equal. lia. }
  assert (Hp3 : 0 < 2 ^ (- e')) by (apply Z.pow_pos_nonneg; lia).
  destruct (binary_round_aux_le (xorb true false) q e' (new_location (Zpos mp) r)
              4503599627370496 (-52))
    as [Hz|(m & e & Hf & Hle & Hmle)]; try lia.
  - reflexivity.
  - unfold emax, prec. lia.
  - rewrite Hpow'. apply Z.nlt_ge. intros Hgt.
    assert (Zpos mp * (2 ^ (- e') + 1) <= Zpos mp * q) by (apply Z.mul_le_mono_nonneg_l; lia).
    lia.
  - intros Hloc. apply new_location_inexact in Hloc. rewrite Hpow'.
    apply Z.nle_gt. intros Hge.
    assert (Zpos mp * 2 ^ (- e') <= Zpos mp * q) by (apply Z.mul_le_mono_nonneg_l; lia).
    lia.
  - left. exact Hz.
  - right. exists m, e. split; [exact Hf|].
    unfold SFleb, minus_one. cbn [SFcompare].
    destruct (Z.compare_spec (-52) e) as [<-|Hlt|Hgt]; [|lia|reflexivity].
    rewrite Z.sub_diag in Hmle. cbn [Z.pow] in Hmle.
    change (Pos.compare_cont Eq 4503599627370496 m) with (Pos.compare 4503599627370496 m).
    destruct (Pos.compare_spec 4503599627370496 m) as [H|H|H]; try reflexivity. lia.
Qed.

Lemma valid_binary_finite (s : bool) (m : positive) (e : Z) :
  valid_binary (S754_finite s m e) = true ->
  canonical_mantissa prec emax m e = true /\ e <= emax - prec.
Proof.
  cbn. unfold bounded. intros H. apply andb_true_iff in H. destruct H as [H1 H2].
  apply Z.leb_le in H2. auto.
Qed.

(** The drawdown [(v - p) / p] of a value [v] under the peak [p]. *)
Lemma SF_drawdown_range (sv sp : spec_float) (c : comparison) :
  valid_binary sv = true -> valid_binary sp = true ->
  SFnonneg sv = true -> SFnonneg sp = true ->
  SFcompare sv sp = Some c -> c <> Gt ->
  (SF64div (SF64sub sv sp) sp = S754_nan
   \/ SFleb minus_one (SF64div (SF64sub sv sp) sp) = true
      /\ SFleb (SF64div (SF64sub sv sp) sp) (S754_zero false) = true)
  /\ (c = Eq ->
      SF64div (SF64sub sv sp) sp = S754_nan
      \/ exists s, SF64div (SF64sub sv sp) sp = S754_zero s).
Proof.
  intros Hv Hp Hnv Hnp Hc Hne.
  destruct sv as [sv|[|]| |[|] mv ev], sp as [sp|[|]| |[|] mp ep];
    try discriminate Hnv; try discriminate Hnp;
    try (cbn in Hc; injection Hc as <-; congruence).
  - (* zero, zero *)
    split; [left|intros _; left]; destruct sv, sp; reflexivity.
  - (* zero, infinity *)
    split; [left|intros _; left]; destruct sv; reflexivity.
  - (* zero, finite *)
    cbn in Hc. injection Hc as <-.
    split; [right|discriminate].
    assert (Hsub : SF64sub (S754_zero sv) (S754_finite false mp ep) = S754_finite true mp ep)
      by (destruct sv; reflexivity).
    rewrite Hsub.
    destruct (SFdiv_above_minus_one mp mp ep ep) as [Hz|(m & e & Hf & Hle)].
    + lia.
    + rewrite Z.sub_diag. cbn [Z.pow]. lia.
    + rewrite Hz. split; reflexivity.
    + rewrite Hf. split; [exact Hle|reflexivity].
  - (* infinity, infinity *)
    split; [left|intros _; left]; reflexivity.
  - (* finite, infinity *)
    split; [left|intros _; left]; reflexivity.
  - (* finite, finite *)
    destruct (valid_binary_finite _ _ _ Hv) as [Hcv _].
    destruct (valid_binary_finite _ _ _ Hp) as [Hcp Hbp].
    destruct (SFsub_below mv mp ev ep c Hcv Hcp Hbp Hc Hne) as [Heq Hsub].
    split.
    + destruct Hsub as [Hq|[Hq|(m & e & Hq & He & Hm)]]; rewrite Hq.
      * right. split; reflexivity.
      * right. split; reflexivity.
      * right. destruct (SFdiv_above_minus_one m mp e ep He Hm) as [Hz|(m' & e' & Hf & Hle)].
        -- rewrite Hz. split; reflexivity.
        -- rewrite Hf. split; [exact Hle|reflexivity].
    + intros Hceq. rewrite (Heq Hceq). right. exists false. reflexivity.
Qed.

Lemma Prim2SF_zero : Prim2SF 0 = S754_zero false.
Proof. reflexivity. Qed.

Lemma Prim2SF_minus_one : Prim2SF (-1) = minus_one.
Proof. reflexivity. Qed.

End Rounding.

(** * Properties of the program *)

(** ** Inputs shorter than two elements *)

(** C8: each of calculateXIRR, calculateSharpeRatio and calculateMaxDrawdown
    fails with an InsufficientData error on every array of length 0 or 1,
    and calculateXIRR has evaluated no net present value by then. *)
Theorem short_input_insufficient_data :
  forall (pow_approx : float -> float -> float) (elems : list value) (riskFreeRate : value),
    (List.length elems < 2)%nat ->
    calculateXIRR_traced pow_approx (VArray elems) = ([], Throw CashflowsTooShort)
    /\ calculateXIRR pow_approx (VArray elems) = Throw CashflowsTooShort
    /\ calculateSharpeRatio pow_approx (VArray elems) riskFreeRate = Throw ReturnsTooShort
    /\ calculateMaxDrawdown (VArray elems) = Throw ValuesTooShort
    /\ has_kind CashflowsTooShort InsufficientData = true
    /\ has_kind ReturnsTooShort InsufficientData = true
    /\ has_kind ValuesTooShort InsufficientData = true.
Proof.
  intros pw elems rf Hlen.
  apply Nat.ltb_lt in Hlen.
  unfold calculateXIRR, calculateXIRR_traced, calculateSharpeRatio, calculateMaxDrawdown.
  rewrite Hlen. repeat split.
Qed.

Lemma short_input_insufficient_data_witness :
  calculateXIRR (fun _ _ => 1) (VArray [VObject [("date", VDate 0); ("amount", VNumber 100)]])
  = Throw CashflowsTooShort.
Proof.
  apply (short_input_insufficient_data (fun _ _ => 1)
           [VObject [("date", VDate 0); ("amount", VNumber 100)]] (VNumber 0.02)).
  simpl. lia.
Defined.

(** ** calculateCAGR *)

Lemma msPerYear_value : msPerYear = 31557600000.
Proof. reflexivity. Qed.

(** C5: on valid input, calculateCAGR returns -1 when the final value is 0,
    and otherwise (finalValue/initialValue)^(1/years) - 1, with years the
    elapsed milliseconds over those of 365.25 days, compounded with
    (1 - expenseRatio) when an expense ratio is given. *)
Theorem calculateCAGR_valid :
  forall (pow_approx : float -> float -> float)
         (initialValue finalValue startDate endDate : float)
         (expenseRatio : option float),
    (0 <? initialValue) = true ->
    (0 <=? finalValue) = true ->
    (startDate <? endDate) = true ->
    (forall e, expenseRatio = Some e -> (0 <=? e) = true /\ (e <? 1) = true) ->
    let years := (endDate - startDate) / (1000 * 60 * 60 * 24 * 365.25) in
    let cagr := Math_pow pow_approx (finalValue / initialValue) (1 / years) - 1 in
    calculateYears startDate endDate = years
    /\ calculateCAGR pow_approx (VNumber initialValue) (VNumber finalValue)
         (VDate startDate) (VDate endDate) (optionalNumber expenseRatio)
       = Ok (if finalValue =? 0 then -1
             else match expenseRatio with
                  | None => cagr
                  | Some e => (1 + cagr) * (1 - e) - 1
                  end).
Proof.
  intros pw iv fv sd ed er Hiv Hfv Hd Her years cagr.
  split; [reflexivity|].
  unfold calculateCAGR, validatePositiveNumber, validateNonNegativeNumber, validateDate.
  cbn [is_number is_Date num negb orb bind].
  rewrite (ltb_true_leb_false _ _ Hiv), (leb_true_ltb_false _ _ Hfv).
  destruct (ltb_true_not_nan _ _ Hd) as [Hsd Hed].
  rewrite Hsd, Hed, (ltb_true_leb_false _ _ Hd).
  cbn [bind].
  destruct er as [e|]; cbn [optionalNumber].
  - destruct (Her e eq_refl) as [He0 He1].
    unfold validateExpenseRatio. cbn [is_number num negb orb].
    rewrite (leb_true_ltb_false _ _ He0), (ltb_true_leb_false _ _ He1).
    cbn [orb bind]. fold years. destruct (fv =? 0); reflexivity.
  - cbn [bind]. fold years. destruct (fv =? 0); reflexivity.
Qed.

Lemma calculateCAGR_valid_witness :
  calculateCAGR (fun x _ => x) (VNumber 100) (VNumber 200)
    (VDate 0) (VDate oneYear) (VNumber 0.01)
  = Ok ((1 + (200 / 100 - 1)) * (1 - 0.01) - 1).
Proof.
  apply (calculateCAGR_valid (fun x _ => x) 100 200 0 oneYear (Some 0.01));
    try reflexivity.
  intros e He. injection He as <-. split; reflexivity.
Defined.

(** The zero-final-value shortcut of the test suite:
    [calculateCAGR(100, 0, 2020-01-01, 2021-01-01)] is [-1]. *)
Example calculateCAGR_total_loss :
  forall pow_approx,
    calculateCAGR pow_approx (VNumber 100) (VNumber 0)
      (VDate 1577836800000) (VDate 1609459200000) VUndefined = Ok (-1).
Proof. reflexivity. Qed.

(** ** The number guards and NaN *)

Lemma mul_nan_r (x : float) : is_nan (x * nan) = true.
Proof.
  apply is_nan_Prim2SF. rewrite mul_spec.
  change (Prim2SF nan) with S754_nan. unfold SF64mul.
  now destruct (Prim2SF x).
Qed.

Lemma sub_nan_l (x y : float) : is_nan x = true -> is_nan (x - y) = true.
Proof.
  intros Hx. apply is_nan_Prim2SF. rewrite sub_spec.
  apply is_nan_Prim2SF in Hx. now rewrite Hx.
Qed.

(** C4, evaluated on the code: none of the three number guards throws on
    NaN (every comparison with NaN is false), and calculateCAGR returns NaN
    for a NaN initial value, final value or expense ratio. *)
Theorem number_guards_accept_nan :
  forall (pow_approx : float -> float -> float) (label : string),
    validatePositiveNumber (VNumber nan) label = Ok tt
    /\ validateNonNegativeNumber (VNumber nan) label = Ok tt
    /\ validateExpenseRatio (VNumber nan) = Ok tt
    /\ calculateCAGR pow_approx (VNumber nan) (VNumber 200)
         (VDate 1577836800000) (VDate 1609459200000) VUndefined = Ok nan
    /\ calculateCAGR pow_approx (VNumber 100) (VNumber nan)
         (VDate 1577836800000) (VDate 1609459200000) VUndefined = Ok nan
    /\ exists r,
         calculateCAGR pow_approx (VNumber 100) (VNumber 200)
           (VDate 1577836800000) (VDate 1609459200000) (VNumber nan) = Ok r
         /\ is_nan r = true.
Proof.
  intros pw label. repeat split.
  eexists. split; [reflexivity|].
  apply sub_nan_l. change (1 - nan) with nan. apply mul_nan_r.
Qed.

(** ** calculateSharpeRatio *)





(** ** calculateXIRR: validation *)

Section XirrValidation.

Variable pow_approx : float -> float -> float.

(** Where the validation loop stops when an entry has amount zero: at that
    entry, with the missing-properties error, unless an earlier entry is
    rejected first. *)
Lemma validateCashflows_zero_amount :
  forall (elems : list value) (i k : nat) (valid : list cashflow)
         (hasPositive hasNegative : bool) (cf : value) (z : float),
    nth_error elems k = Some cf ->
    get cf "amount" = VNumber z ->
    (z =? 0) = true ->
    exists j e,
      (j <= k)%nat
      /\ validateCashflows i elems valid hasPositive hasNegative = Throw e
      /\ (e = CashflowMissingProperties (i + j) \/ e = CashflowInvalidDate (i + j)
          \/ e = CashflowInvalidAmount (i + j))
      /\ (j = k -> e = CashflowMissingProperties (i + k)).
Proof.
  induction elems as [|h rest IH]; intros i k valid hp hn cf z Hnth Hget Hz.
  { destruct k; discriminate. }
  destruct k as [|k]; cbn [nth_error] in Hnth.
  - injection Hnth as ->. exists 0%nat, (CashflowMissingProperties (i + 0)).
    cbn [validateCashflows]. rewrite Hget. cbn [truthy]. rewrite Hz.
    cbn [negb andb]. rewrite !orb_true_r, Nat.add_0_r. repeat split; auto.
  - cbn [validateCashflows].
    destruct (negb (truthy h) || negb (is_object h) || negb (truthy (get h "date"))
              || negb (truthy (get h "amount"))).
    { exists 0%nat, (CashflowMissingProperties (i + 0)).
      rewrite Nat.add_0_r. repeat split; auto; try lia. }
    destruct (negb (is_Date (get h "date")) || is_nan (num (get h "date"))).
    { exists 0%nat, (CashflowInvalidDate (i + 0)).
      rewrite Nat.add_0_r. repeat split; auto; try lia. }
    destruct (negb (is_number (get h "amount")) || is_nan (num (get h "amount"))).
    { exists 0%nat, (CashflowInvalidAmount (i + 0)).
      rewrite Nat.add_0_r. repeat split; auto; try lia. }
    edestruct (IH (S i) k) as (j & e & Hj & Hrun & Hkind & Hat); eauto.
    exists (S j), e. rewrite Hrun.
    replace (i + S j)%nat with (S i + j)%nat by lia.
    replace (i + S k)%nat with (S i + k)%nat by lia.
    repeat split; auto; try lia.
Qed.

(** C9, as the code has it: an array of at least two entries one of which
    has amount zero is rejected with an invalid-argument error, before any
    net present value is computed: by the missing-properties check at that
    entry, or by one of the three per-entry checks at an earlier entry. *)
Theorem zero_amount_rejected :
  forall (elems : list value) (k : nat) (cf : value) (z : float),
    (2 <= List.length elems)%nat ->
    nth_error elems k = Some cf ->
    get cf "amount" = VNumber z ->
    (z =? 0) = true ->
    exists j e,
      (j <= k)%nat
      /\ validateCashflows 0 elems [] false false = Throw e
      /\ calculateXIRR_traced pow_approx (VArray elems) = ([], Throw e)
      /\ calculateXIRR pow_approx (VArray elems) = Throw e
      /\ (e = CashflowMissingProperties j \/ e = CashflowInvalidDate j
          \/ e = CashflowInvalidAmount j)
      /\ (j = k -> e = CashflowMissingProperties k)
      /\ has_kind e InvalidArgumentType = true.
Proof.
  intros elems k cf z Hlen Hnth Hget Hz.
  destruct (validateCashflows_zero_amount elems 0 k [] false false cf z Hnth Hget Hz)
    as (j & e & Hj & Hrun & Hkind & Hat).
  exists j, e.
  assert (Htr : calculateXIRR_traced pow_approx (VArray elems) = ([], Throw e)).
  { unfold calculateXIRR_traced.
    replace (List.length elems <? 2)%nat with false by (symmetry; apply Nat.ltb_ge; exact Hlen).
    rewrite Hrun. reflexivity. }
  unfold calculateXIRR. rewrite Htr. cbn [snd Nat.add] in *.
  repeat split; auto.
  destruct Hkind as [ -> | [ -> | -> ] ]; reflexivity.
Qed.

End XirrValidation.

Lemma zero_amount_rejected_witness :
  exists j e,
    (j <= 1)%nat
    /\ validateCashflows 0
         [VObject [("date", VDate 1577836800000); ("amount", VNumber (-1000))];
          VObject [("date", VDate 1609459200000); ("amount", VNumber 0)]]
         [] false false = Throw e
    /\ calculateXIRR_traced (fun x _ => x)
         (VArray [VObject [("date", VDate 1577836800000); ("amount", VNumber (-1000))];
                  VObject [("date", VDate 1609459200000); ("amount", VNumber 0)]])
       = ([], Throw e)
    /\ calculateXIRR (fun x _ => x)
         (VArray [VObject [("date", VDate 1577836800000); ("amount", VNumber (-1000))];
                  VObject [("date", VDate 1609459200000); ("amount", VNumber 0)]])
       = Throw e
    /\ (e = CashflowMissingProperties j \/ e = CashflowInvalidDate j
        \/ e = CashflowInvalidAmount j)
    /\ (j = 1%nat -> e = CashflowMissingProperties 1)
    /\ has_kind e InvalidArgumentType = true.
Proof.
  apply (zero_amount_rejected (fun x _ => x) _ 1
           (VObject [("date", VDate 1609459200000); ("amount", VNumber 0)]) 0).
  - simpl. lia.
  - reflexivity.
  - reflexivity.
  - reflexivity.
Defined.

(** The claim of C9 without the length bound fails: a one-entry array with
    a zero amount is rejected by the length check, and that error is of
    kind InsufficientData, not an invalid argument. *)
Lemma zero_amount_short_array :
  exists e,
    (forall pow_approx,
       calculateXIRR pow_approx
         (VArray [VObject [("date", VDate 1577836800000); ("amount", VNumber 0)]])
       = Throw e)
    /\ has_kind e InsufficientData = true
    /\ has_kind e InvalidArgumentType = false.
Proof.
  exists CashflowsTooShort. repeat split.
Qed.

Lemma validateCashflows_seriesOf (flows : list (float * float)) :
  Forall validFlow flows ->
  forall i valid hasPositive hasNegative,
    validateCashflows i (seriesOf flows) valid hasPositive hasNegative
    = Ok (valid ++ cashflowsOf flows,
          hasPositive || existsb (fun flow => 0 <? snd flow) flows,
          hasNegative || existsb (fun flow => snd flow <? 0) flows).
Proof.
  induction 1 as [|[t a] rest (Ht & Ha & Hz) _ IH]; intros i valid hp hn.
  - cbn. now rewrite app_nil_r, !orb_false_r.
  - cbn [fst snd] in Ht, Ha, Hz.
    cbn [seriesOf map validateCashflows cashflowObject fst snd truthy is_object get lookup
         String.eqb Ascii.eqb Bool.eqb is_Date is_number num negb orb andb].
    rewrite Ht, Ha, Hz. cbn [negb andb orb].
    fold (seriesOf rest). rewrite IH. cbn [cashflowsOf map existsb fst snd].
    rewrite <- app_assoc. cbn [app].
    destruct (0 <? a), (a <? 0), hp, hn; reflexivity.
Qed.

(** The series that pass the validation of [calculateXIRR], among those
    given as plain [{date, amount}] objects: at least two cashflows, all
    valid, one positive and one negative. *)
Lemma validatedSeries_seriesOf (flows : list (float * float)) :
  (2 <= List.length flows)%nat ->
  Forall validFlow flows ->
  existsb (fun flow => 0 <? snd flow) flows = true ->
  existsb (fun flow => snd flow <? 0) flows = true ->
  validatedSeries (seriesOf flows) (cashflowsOf flows).
Proof.
  intros Hlen Hall Hpos Hneg. split.
  - unfold seriesOf. now rewrite length_map.
  - rewrite (validateCashflows_seriesOf flows Hall). now rewrite Hpos, Hneg.
Qed.

(** ** calculateXIRR: the bracket check and the bisection *)

Section XirrSearch.

Variable pow_approx : float -> float -> float.

Lemma calculateXIRR_traced_validated (elems : list value) (valid : list cashflow) :
  validatedSeries elems valid ->
  calculateXIRR_traced pow_approx (VArray elems) = solveXIRR pow_approx valid true true.
Proof.
  intros [Hlen Hval]. unfold calculateXIRR_traced.
  replace (List.length elems <? 2)%nat with false by (symmetry; apply Nat.ltb_ge; exact Hlen).
  rewrite Hval. reflexivity.
Qed.

(** The outcome and the trace of the root search, by the bracket check. *)
Lemma findRoot_no_root (f : float -> float) :
  (0 <? f low0 * f high0) = true ->
  findRoot f = ([low0; high0], Throw NoSolutionInRange).
Proof. intros H. unfold findRoot. rewrite H. reflexivity. Qed.

Lemma findRoot_search (f : float -> float) :
  (0 <? f low0 * f high0) = false ->
  fst (findRoot f) = low0 :: high0 :: fst (bisect f maxIterations low0 high0)
  /\ snd (findRoot f) = snd (bisect f maxIterations low0 high0).
Proof.
  intros H. unfold findRoot. rewrite H.
  destruct (bisect f maxIterations low0 high0) as [evaluated outcome].
  split; reflexivity.
Qed.

Lemma solveXIRR_mixed (valid : list cashflow) :
  solveXIRR pow_approx valid true true = findRoot (seriesNpv pow_approx valid).
Proof. reflexivity. Qed.

(** The loop ends in a rate or in the non-convergence error, and evaluates
    the net present value at least once. *)
Lemma bisect_outcome (f : float -> float) (iters : nat) :
  forall low high,
    (exists r, snd (bisect f iters low high) = Ok r)
    \/ snd (bisect f iters low high) = Throw NpvDoesNotConverge.
Proof.
  induction iters as [|n IH]; intros low high; cbn [bisect].
  - cbn [snd]. destruct (1e-4 <? abs (f ((low + high) / 2))); eauto.
  - destruct (abs (f ((low + high) / 2)) <? tolerance); cbn [snd]; eauto.
    destruct (0 <? f ((low + high) / 2)); apply IH.
Qed.

Lemma bisect_trace (f : float -> float) (iters : nat) (low high : float) :
  exists rest, fst (bisect f iters low high) = (low + high) / 2 :: rest.
Proof.
  destruct iters; cbn [bisect]; [eexists; reflexivity|].
  destruct (abs (f ((low + high) / 2)) <? tolerance); cbn [fst]; eexists; reflexivity.
Qed.

Lemma bracketAfter_succ (f : float -> float) (bracket : float * float) (k : nat) :
  bracketAfter f bracket (S k) = bracketAfter f (bracketStep f bracket) k.
Proof. unfold bracketAfter. apply Nat.iter_succ_r. Qed.

(** An iteration that is not within tolerance hands the next bracket to
    the rest of the loop. *)
Lemma bisect_continue (f : float -> float) (iters : nat) (low high : float) :
  (abs (f (midpoint (low, high))) <? tolerance) = false ->
  snd (bisect f (S iters) low high)
  = snd (bisect f iters (fst (bracketStep f (low, high))) (snd (bracketStep f (low, high)))).
Proof.
  unfold midpoint, bracketStep. cbn [bisect fst snd]. intros ->. cbn [snd].
  destruct (0 <? f ((low + high) / 2)); reflexivity.
Qed.

(** An iteration within tolerance returns its midpoint. *)
Lemma bisect_early (f : float -> float) :
  forall (iters k : nat) (low high : float),
    (k < iters)%nat ->
    (forall j, (j < k)%nat ->
       (abs (f (midpoint (bracketAfter f (low, high) j))) <? tolerance) = false) ->
    (abs (f (midpoint (bracketAfter f (low, high) k))) <? tolerance) = true ->
    snd (bisect f iters low high) = Ok (midpoint (bracketAfter f (low, high) k)).
Proof.
  induction iters as [|n IH]; intros k low high Hk Hbefore Hat; [lia|].
  destruct k as [|k].
  - cbn [bisect]. cbn in Hat. rewrite Hat. reflexivity.
  - rewrite (bisect_continue f n low high (Hbefore 0%nat ltac:(lia))).
    rewrite bracketAfter_succ in *.
    destruct (bracketStep f (low, high)) as [low' high'] eqn:Eb. cbn [fst snd].
    apply IH; [lia| |exact Hat].
    intros j Hj. specialize (Hbefore (S j) ltac:(lia)).
    rewrite bracketAfter_succ, Eb in Hbefore. exact Hbefore.
Qed.

(** When no iteration is within tolerance, the outcome is decided by the
    final check at the midpoint of the last bracket. *)
Lemma bisect_exhausted (f : float -> float) :
  forall (iters : nat) (low high : float),
    (forall j, (j < iters)%nat ->
       (abs (f (midpoint (bracketAfter f (low, high) j))) <? tolerance) = false) ->
    snd (bisect f iters low high)
    = if 1e-4 <? abs (f (midpoint (bracketAfter f (low, high) iters)))
      then Throw NpvDoesNotConverge
      else Ok (midpoint (bracketAfter f (low, high) iters)).
Proof.
  induction iters as [|n IH]; intros low high Hall; [reflexivity|].
  rewrite (bisect_continue f n low high (Hall 0%nat ltac:(lia))).
  rewrite bracketAfter_succ.
  destruct (bracketStep f (low, high)) as [low' high'] eqn:Eb. cbn [fst snd].
  apply IH. intros j Hj. specialize (Hall (S j) ltac:(lia)).
  rewrite bracketAfter_succ, Eb in Hall. exact Hall.
Qed.

(** C2: on a validated series, calculateXIRR first evaluates the net
    present value at -0.999 and at 100000, and it fails with the
    no-solution error exactly when the product of the two is positive, in
    which case nothing else has been evaluated; otherwise the bisection
    runs. *)
Theorem xirr_bracket_check :
  forall (elems : list value) (valid : list cashflow),
    validatedSeries elems valid ->
    (exists evaluated,
       fst (calculateXIRR_traced pow_approx (VArray elems)) = low0 :: high0 :: evaluated)
    /\ ((0 <? seriesNpv pow_approx valid low0 * seriesNpv pow_approx valid high0) = true
        <-> calculateXIRR pow_approx (VArray elems) = Throw NoSolutionInRange)
    /\ ((0 <? seriesNpv pow_approx valid low0 * seriesNpv pow_approx valid high0) = true
        -> fst (calculateXIRR_traced pow_approx (VArray elems)) = [low0; high0])
    /\ ((0 <? seriesNpv pow_approx valid low0 * seriesNpv pow_approx valid high0) = false
        -> exists rest,
             fst (calculateXIRR_traced pow_approx (VArray elems))
             = low0 :: high0 :: (low0 + high0) / 2 :: rest)
    /\ has_kind NoSolutionInRange NoRootInBracket = true.
Proof.
  intros elems valid Hval.
  unfold calculateXIRR.
  rewrite (calculateXIRR_traced_validated _ _ Hval), solveXIRR_mixed.
  set (f := seriesNpv pow_approx valid).
  destruct (0 <? f low0 * f high0) eqn:Hguard.
  - rewrite (findRoot_no_root f Hguard).
    repeat split; try discriminate. exists []. reflexivity.
  - destruct (findRoot_search f Hguard) as [Htrace Hout]. rewrite Htrace, Hout.
    destruct (bisect_trace f maxIterations low0 high0) as [rest Hrest]. rewrite Hrest.
    split; [eexists; reflexivity|].
    split; [split; [discriminate|]|].
    { intros Hthrow.
      destruct (bisect_outcome f maxIterations low0 high0) as [[r Hr]|Hr]; congruence. }
    split; [discriminate|].
    split; [intros _; eexists; reflexivity|reflexivity].
Qed.

(** The outcome of the bisection: past the bracket check, an iteration
    whose net present value is within 1e-6 returns its midpoint at once;
    when none of the 100 iterations is, the final midpoint is rejected with
    the non-convergence error exactly when [Math.abs(npv) > 1e-4] holds,
    and returned otherwise: when the absolute value is at most 1e-4, and
    also when the net present value is NaN, which the comparison lets
    through. *)
Theorem xirr_bisection_outcome :
  forall (elems : list value) (valid : list cashflow),
    validatedSeries elems valid ->
    (0 <? seriesNpv pow_approx valid low0 * seriesNpv pow_approx valid high0) = false ->
    (forall k,
       (k < maxIterations)%nat ->
       (forall j, (j < k)%nat ->
          (abs (seriesNpv pow_approx valid (midpointAfter (seriesNpv pow_approx valid) j))
           <? tolerance) = false) ->
       (abs (seriesNpv pow_approx valid (midpointAfter (seriesNpv pow_approx valid) k))
        <? tolerance) = true ->
       calculateXIRR pow_approx (VArray elems)
       = Ok (midpointAfter (seriesNpv pow_approx valid) k))
    /\ ((forall j, (j < maxIterations)%nat ->
           (abs (seriesNpv pow_approx valid (midpointAfter (seriesNpv pow_approx valid) j))
            <? tolerance) = false) ->
        ((1e-4 <? abs (seriesNpv pow_approx valid
                         (midpointAfter (seriesNpv pow_approx valid) maxIterations))) = true
         <-> calculateXIRR pow_approx (VArray elems) = Throw NpvDoesNotConverge)
        /\ ((abs (seriesNpv pow_approx valid
                    (midpointAfter (seriesNpv pow_approx valid) maxIterations)) <=? 1e-4) = true
            \/ is_nan (seriesNpv pow_approx valid
                         (midpointAfter (seriesNpv pow_approx valid) maxIterations)) = true
            <-> calculateXIRR pow_approx (VArray elems)
                = Ok (midpointAfter (seriesNpv pow_approx valid) maxIterations))).
Proof.
  intros elems valid Hval Hguard.
  unfold calculateXIRR.
  rewrite (calculateXIRR_traced_validated _ _ Hval), solveXIRR_mixed.
  set (f := seriesNpv pow_approx valid) in *.
  destruct (findRoot_search f Hguard) as [_ Hout]. rewrite Hout. split.
  - intros k Hk Hbefore Hat. unfold midpointAfter in *. now apply bisect_early.
  - intros Hall. unfold midpointAfter in *.
    rewrite (bisect_exhausted f maxIterations low0 high0 Hall).
    set (finalNpv := f (midpoint (bracketAfter f (low0, high0) maxIterations))).
    destruct (1e-4 <? abs finalNpv) eqn:Hfinal.
    + split; [tauto|]. split; [|discriminate].
      intros [Hle|Hnan].
      * apply leb_true_ltb_false in Hle. congruence.
      * apply ltb_true_not_nan in Hfinal. rewrite abs_is_nan in Hfinal. destruct Hfinal; congruence.
    + split; [split; discriminate|]. split; [reflexivity|]. intros _.
      apply ltb_false_iff in Hfinal. rewrite abs_is_nan in Hfinal.
      destruct Hfinal as [H|[H|H]]; auto. discriminate.
Qed.

End XirrSearch.

(** ** calculateXIRR on concrete series

    Cashflows dated at the reference date or 365.25 days later are
    discounted by the exponents 0 and 1.  [Math.pow(x, 0)] is 1 by the
    standard; [Math.pow(x, 1)] is [x] in every engine, which the lemmas
    below take as their assumption on [pow_approx]. *)

Lemma is_nan_eq (x : float) : is_nan x = true -> x = nan.
Proof.
  intros H. apply Prim2SF_inj. apply is_nan_Prim2SF in H. now rewrite H.
Qed.

Section WithinYear.

Variable pow_approx : float -> float -> float.
Hypothesis pow_approx_one : forall x, pow_approx x 1 = x.

Lemma Math_pow_one (x : float) : Math_pow pow_approx x 1 = x.
Proof.
  unfold Math_pow. change (is_nan 1) with false. change (1 =? 0) with false.
  cbv iota. destruct (is_nan x) eqn:Hx.
  - symmetry. now apply is_nan_eq.
  - apply pow_approx_one.
Qed.

Lemma npv_within_year (r : float) (cashflows : list cashflow) :
  Forall (fun cf => date cf = 0 \/ date cf = oneYear) cashflows ->
  npv pow_approx r cashflows 0 = npvWithinYear r cashflows.
Proof.
  unfold npv, npvWithinYear. generalize 0 at 3 5. intros sum H. revert sum.
  induction H as [|cf rest Hcf _ IH]; intros sum; [reflexivity|].
  cbn [fold_left]. rewrite IH. f_equal. f_equal. f_equal.
  destruct Hcf as [-> | ->].
  - reflexivity.
  - change ((oneYear - 0) / (365.25 * 24 * 60 * 60 * 1000)) with 1.
    change (oneYear =? 0) with false. cbv iota. apply Math_pow_one.
Qed.

Lemma bisect_ext (f g : float -> float) :
  (forall r, f r = g r) ->
  forall iters low high, bisect f iters low high = bisect g iters low high.
Proof.
  intros Hfg. induction iters as [|n IH]; intros low high; cbn [bisect].
  - now rewrite Hfg.
  - rewrite Hfg, !IH. reflexivity.
Qed.

Lemma findRoot_ext (f g : float -> float) :
  (forall r, f r = g r) -> findRoot f = findRoot g.
Proof.
  intros Hfg. unfold findRoot. now rewrite !Hfg, (bisect_ext f g Hfg).
Qed.

Lemma bracketAfter_ext (f g : float -> float) (bracket : float * float) (k : nat) :
  (forall r, f r = g r) -> bracketAfter f bracket k = bracketAfter g bracket k.
Proof.
  intros Hfg. unfold bracketAfter.
  induction k as [|k IH]; [reflexivity|].
  rewrite !Nat.iter_succ, IH. unfold bracketStep. now rewrite Hfg.
Qed.

Lemma midpointAfter_ext (f g : float -> float) (k : nat) :
  (forall r, f r = g r) -> midpointAfter f k = midpointAfter g k.
Proof.
  intros Hfg. unfold midpointAfter. now rewrite (bracketAfter_ext f g _ k Hfg).
Qed.

(** [calculateXIRR] on a validated series whose sorted copies are dated
    within the year: the root search runs on [npvWithinYear]. *)
Lemma calculateXIRR_within_year (elems : list value) (valid sorted : list cashflow) :
  validatedSeries elems valid ->
  sortByDate valid = sorted ->
  referenceDate sorted = 0 ->
  Forall (fun cf => date cf = 0 \/ date cf = oneYear) sorted ->
  (forall r, seriesNpv pow_approx valid r = npvWithinYear r sorted)
  /\ calculateXIRR_traced pow_approx (VArray elems)
     = findRoot (fun r => npvWithinYear r sorted).
Proof.
  intros Hval Hsort Href Hdates.
  assert (Hnpv : forall r, seriesNpv pow_approx valid r = npvWithinYear r sorted).
  { intros r. unfold seriesNpv. cbv zeta. rewrite Hsort, Href.
    now apply npv_within_year. }
  split; [exact Hnpv|].
  rewrite (calculateXIRR_traced_validated _ _ _ Hval), solveXIRR_mixed.
  now apply findRoot_ext.
Qed.

End WithinYear.

Lemma forallb_below (p : nat -> bool) (n : nat) :
  forallb p (seq 0 n) = true -> forall j, (j < n)%nat -> p j = true.
Proof.
  intros H j Hj. rewrite forallb_forall in H. apply H. apply in_seq. lia.
Qed.

Lemma within_year_dates (flows : list (float * float)) :
  forallb (fun flow => Leibniz.eqb (fst flow) 0 || Leibniz.eqb (fst flow) oneYear) flows = true ->
  Forall (fun cf => date cf = 0 \/ date cf = oneYear) (cashflowsOf flows).
Proof.
  intros H. apply Forall_forall. intros cf Hin.
  apply in_map_iff in Hin. destruct Hin as (flow & <- & Hin).
  rewrite forallb_forall in H. specialize (H flow Hin).
  apply orb_true_iff in H. cbn [date].
  destruct H as [H|H]; apply Leibniz.eqb_spec in H; auto.
Qed.

(** The sort puts the earliest cashflow first and keeps the order of
    cashflows of the same date. *)
Example sortByDate_orders :
  sortByDate (cashflowsOf (rev investment)) = cashflowsOf investment.
Proof. reflexivity. Qed.

Example sortByDate_stable :
  sortByDate (cashflowsOf hugeFlows) = cashflowsOf hugeFlows.
Proof. reflexivity. Qed.

(** C3, evaluated on the code: the investment has the rate 0.2, and the
    same series with every amount negated is rejected with the
    non-convergence error: the loop moves the lower bound whenever the net
    present value is positive, which walks away from the root when the net
    present value increases with the rate. *)
Theorem negated_series_does_not_converge :
  forall pow_approx : float -> float -> float,
    (forall x, pow_approx x 1 = x) ->
    (exists r,
       calculateXIRR pow_approx (VArray (seriesOf investment)) = Ok r
       /\ (abs (r - 0.2) <? 1e-9) = true)
    /\ calculateXIRR pow_approx (VArray (seriesOf (negateAmounts investment)))
       = Throw NpvDoesNotConverge
    /\ midpointAfter (seriesNpv pow_approx (cashflowsOf (negateAmounts investment)))
         maxIterations = high0.
Proof.
  intros pw Hpw.
  destruct (calculateXIRR_within_year pw Hpw (seriesOf investment)
              (cashflowsOf investment) (cashflowsOf investment))
    as [_ Hrun].
  { split; [simpl; lia|reflexivity]. }
  { reflexivity. }
  { reflexivity. }
  { apply within_year_dates. reflexivity. }
  destruct (calculateXIRR_within_year pw Hpw (seriesOf (negateAmounts investment))
              (cashflowsOf (negateAmounts investment)) (cashflowsOf (negateAmounts investment)))
    as [Hnpv Hneg].
  { split; [simpl; lia|reflexivity]. }
  { reflexivity. }
  { reflexivity. }
  { apply within_year_dates. reflexivity. }
  unfold calculateXIRR. rewrite Hrun, Hneg.
  rewrite (midpointAfter_ext _ _ maxIterations Hnpv).
  split; [|split].
  - eexists. split; [vm_compute; reflexivity|vm_compute; reflexivity].
  - vm_compute. reflexivity.
  - vm_compute. reflexivity.
Qed.

Lemma negated_series_does_not_converge_witness :
  calculateXIRR (fun x _ => x) (VArray (seriesOf (negateAmounts investment)))
  = Throw NpvDoesNotConverge.
Proof.
  apply (negated_series_does_not_converge (fun x _ => x)).
  intros x. reflexivity.
Defined.

Lemma no_early_return_below (f : float -> float) (n : nat) :
  forallb (fun j => negb (abs (f (midpointAfter f j)) <? tolerance)) (seq 0 n) = true ->
  forall j, (j < n)%nat -> (abs (f (midpointAfter f j)) <? tolerance) = false.
Proof.
  intros H j Hj. apply negb_true_iff.
  exact (forallb_below (fun j => negb (abs (f (midpointAfter f j)) <? tolerance)) n H j Hj).
Qed.

Lemma investment_validated :
  validatedSeries (seriesOf investment) (cashflowsOf investment).
Proof. split; [simpl; lia|reflexivity]. Qed.

Lemma xirr_bracket_check_witness :
  exists evaluated,
    fst (calculateXIRR_traced (fun x _ => x) (VArray (seriesOf investment)))
    = low0 :: high0 :: evaluated.
Proof.
  exact (proj1 (xirr_bracket_check (fun x _ => x) (seriesOf investment)
                  (cashflowsOf investment) investment_validated)).
Defined.

Lemma xirr_bisection_outcome_witness :
  calculateXIRR (fun x _ => x) (VArray (seriesOf investment))
  = Ok (midpointAfter (seriesNpv (fun x _ => x) (cashflowsOf investment)) 44).
Proof.
  refine (proj1 (xirr_bisection_outcome (fun x _ => x) (seriesOf investment)
                   (cashflowsOf investment) investment_validated _) 44%nat _ _ _).
  - vm_compute. reflexivity.
  - unfold maxIterations. lia.
  - apply no_early_return_below. vm_compute. reflexivity.
  - vm_compute. reflexivity.
Defined.

(** C1: the final check of calculateXIRR lets a net present value that is
    NaN through.  On [hugeFlows] the net present value is negative at
    -0.999 and positive at 100000, no iteration is within tolerance, and
    the net present value at the final midpoint is NaN, so that its
    absolute value is not at most 1e-4: the claim has calculateXIRR fail
    with the non-convergence error there, and the code returns the final
    midpoint, since [Math.abs(NaN) > 1e-4] is false. *)
Lemma final_midpoint_returned_with_nan_npv :
  validatedSeries (seriesOf hugeFlows) (cashflowsOf hugeFlows)
  /\ forall pow_approx : float -> float -> float,
       (forall x, pow_approx x 1 = x) ->
       (seriesNpv pow_approx (cashflowsOf hugeFlows) low0 <? 0) = true
       /\ (0 <? seriesNpv pow_approx (cashflowsOf hugeFlows) high0) = true
       /\ (forall j, (j < maxIterations)%nat ->
             (abs (seriesNpv pow_approx (cashflowsOf hugeFlows)
                     (midpointAfter (seriesNpv pow_approx (cashflowsOf hugeFlows)) j))
              <? tolerance) = false)
       /\ (abs (seriesNpv pow_approx (cashflowsOf hugeFlows)
                  (midpointAfter (seriesNpv pow_approx (cashflowsOf hugeFlows)) maxIterations))
           <=? 1e-4) = false
       /\ is_nan (seriesNpv pow_approx (cashflowsOf hugeFlows)
                    (midpointAfter (seriesNpv pow_approx (cashflowsOf hugeFlows)) maxIterations))
          = true
       /\ calculateXIRR pow_approx (VArray (seriesOf hugeFlows))
          = Ok (midpointAfter (seriesNpv pow_approx (cashflowsOf hugeFlows)) maxIterations)
       /\ calculateXIRR pow_approx (VArray (seriesOf hugeFlows)) <> Throw NpvDoesNotConverge.
Proof.
  assert (Hval : validatedSeries (seriesOf hugeFlows) (cashflowsOf hugeFlows))
    by (split; [simpl; lia|reflexivity]).
  split; [exact Hval|]. intros pw Hpw.
  destruct (calculateXIRR_within_year pw Hpw (seriesOf hugeFlows)
              (cashflowsOf hugeFlows) (cashflowsOf hugeFlows) Hval)
    as [Hnpv Hrun].
  { reflexivity. }
  { reflexivity. }
  { apply within_year_dates. reflexivity. }
  set (g := fun r => npvWithinYear r (cashflowsOf hugeFlows)) in *.
  assert (Hmid : forall k, midpointAfter (seriesNpv pw (cashflowsOf hugeFlows)) k
                           = midpointAfter g k)
    by (intros k; now apply midpointAfter_ext).
  assert (Hout : calculateXIRR pw (VArray (seriesOf hugeFlows))
                 = Ok (midpointAfter g maxIterations)).
  { unfold calculateXIRR. rewrite Hrun. vm_compute. reflexivity. }
  rewrite Hout, !Hmid, !Hnpv.
  repeat split; try (vm_compute; reflexivity).
  - intros j Hj. rewrite Hmid, Hnpv. revert j Hj.
    apply (no_early_return_below g). vm_compute. reflexivity.
  - discriminate.
Qed.

(** ** calculateMaxDrawdown *)

Lemma validValue_SFnonneg (v : float) :
  validValue v -> SFnonneg (Prim2SF v) = true.
Proof.
  intros [Hnan Hneg]. apply not_nan_Prim2SF in Hnan.
  rewrite FloatAxioms.ltb_spec, Prim2SF_zero in Hneg. unfold SFltb in Hneg.
  destruct (Prim2SF v) as [s|[|]| |[|] m e]; try reflexivity; try congruence;
    cbn in Hneg; discriminate.
Qed.

Lemma nonneg_validValue (v : float) : (0 <=? v) = true -> validValue v.
Proof.
  intros H. split.
  - now destruct (leb_true_not_nan _ _ H).
  - now apply leb_true_ltb_false.
Qed.

Lemma validateValues_numbers (vs : list float) :
  Forall (fun v => (0 <=? v) = true) vs ->
  forall i, validateValues i (map VNumber vs) = Ok vs.
Proof.
  induction 1 as [|v rest Hv _ IH]; intros i; [reflexivity|].
  destruct (nonneg_validValue v Hv) as [Hnan Hneg].
  cbn [map validateValues is_number num negb orb]. rewrite Hnan, Hneg, IH. reflexivity.
Qed.

(** The drawdown of a valid value that does not exceed a valid peak is NaN
    or lies between -1 and 0; it is NaN or zero when the value equals the
    peak. *)
Lemma drawdown_range (v peak : float) :
  validValue v -> validValue peak -> (peak <? v) = false ->
  (is_nan ((v - peak) / peak) = true
   \/ (-1 <=? (v - peak) / peak) = true /\ ((v - peak) / peak <=? 0) = true)
  /\ ((peak <=? v) = true -> ((v - peak) / peak <? 0) = false).
Proof.
  intros Hv Hp Hlt.
  pose proof (validValue_SFnonneg v Hv) as Hnv.
  pose proof (validValue_SFnonneg peak Hp) as Hnp.
  destruct Hv as [Hvn _], Hp as [Hpn _].
  destruct (SFcompare_cases v peak) as [[[H|H] _]|(_ & _ & c & Hc)]; try congruence.
  assert (Hne : c <> Gt).
  { rewrite FloatAxioms.ltb_spec in Hlt. unfold SFltb in Hlt.
    rewrite (SFcompare_swap (Prim2SF v) (Prim2SF peak)), Hc in Hlt.
    intros ->. discriminate. }
  destruct (SF_drawdown_range (Prim2SF v) (Prim2SF peak) c
              (Prim2SF_valid v) (Prim2SF_valid peak) Hnv Hnp Hc Hne) as [Hrange Heq].
  rewrite <- sub_spec, <- div_spec in Hrange, Heq.
  split.
  - destruct Hrange as [Hnan|[Hlo Hhi]].
    + left. now apply is_nan_Prim2SF.
    + right. rewrite !FloatAxioms.leb_spec, Prim2SF_minus_one, Prim2SF_zero. auto.
  - intros Hle. rewrite FloatAxioms.leb_spec in Hle. unfold SFleb in Hle.
    rewrite (SFcompare_swap (Prim2SF v) (Prim2SF peak)), Hc in Hle.
    assert (Hceq : c = Eq) by (destruct c; cbn in Hle; congruence).
    rewrite FloatAxioms.ltb_spec, Prim2SF_zero. unfold SFltb.
    destruct (Heq Hceq) as [->|[s ->]]; reflexivity.
Qed.

Lemma strictlyIncreasing_neverDeclines (values : list float) :
  forall peak, strictlyIncreasing (peak :: values) = true -> neverDeclines values peak = true.
Proof.
  induction values as [|v rest IH]; intros peak H; [reflexivity|].
  cbn [strictlyIncreasing] in H. apply andb_true_iff in H. destruct H as [Hlt Hrest].
  cbn [neverDeclines]. rewrite Hlt, (ltb_true_leb_true _ _ Hlt). cbn [andb].
  now apply IH.
Qed.

Lemma validateValues_valid (elems : list value) :
  forall (i : nat) (vs : list float),
    validateValues i elems = Ok vs ->
    vs = map num elems /\ Forall validValue vs.
Proof.
  induction elems as [|v rest IH]; intros i vs H; cbn [validateValues] in H.
  - injection H as <-. split; [reflexivity|constructor].
  - destruct (negb (is_number v) || is_nan (num v) || (num v <? 0)) eqn:Hguard; [discriminate|].
    apply orb_false_iff in Hguard. destruct Hguard as [Hguard Hneg].
    apply orb_false_iff in Hguard. destruct Hguard as [_ Hnan].
    destruct (validateValues (S i) rest) as [rest'|e] eqn:Hrest; [|discriminate].
    cbn [bind] in H. injection H as <-.
    destruct (IH _ _ Hrest) as [-> Hall].
    split; [reflexivity|]. constructor; [split; assumption|exact Hall].
Qed.

(** The scan keeps the worst drawdown between -1 and 0. *)
Lemma drawdownScan_range (values : list float) :
  Forall validValue values ->
  forall peak worst,
    validValue peak -> (-1 <=? worst) = true -> (worst <=? 0) = true ->
    (-1 <=? drawdownScan values peak worst) = true
    /\ (drawdownScan values peak worst <=? 0) = true.
Proof.
  induction 1 as [|v rest Hv _ IH]; intros peak worst Hp Hlo Hhi; cbn [drawdownScan].
  - auto.
  - destruct (peak <? v) eqn:Hlt; [now apply IH|].
    destruct ((v - peak) / peak <? worst) eqn:Hd; [|now apply IH].
    destruct (drawdown_range v peak Hv Hp Hlt) as [[Hnan|[Hlo' Hhi']] _].
    + apply ltb_true_not_nan in Hd. destruct Hd; congruence.
    + now apply IH.
Qed.

(** The scan returns 0 when no value is below the running peak. *)
Lemma drawdownScan_never_declines (values : list float) :
  Forall validValue values ->
  forall peak,
    validValue peak -> neverDeclines values peak = true ->
    drawdownScan values peak 0 = 0.
Proof.
  induction 1 as [|v rest Hv _ IH]; intros peak Hp Hnd; cbn [drawdownScan]; [reflexivity|].
  cbn [neverDeclines] in Hnd. apply andb_true_iff in Hnd. destruct Hnd as [Hle Hrest].
  destruct (peak <? v) eqn:Hlt; [now apply IH|].
  destruct (drawdown_range v peak Hv Hp Hlt) as [_ Hzero].
  rewrite (Hzero Hle). now apply IH.
Qed.

Lemma calculateMaxDrawdown_validated (elems : list value) (vs : list float) :
  (2 <= List.length elems)%nat ->
  validateValues 0 elems = Ok vs ->
  exists v0 rest,
    vs = v0 :: rest /\ Forall validValue vs
    /\ calculateMaxDrawdown (VArray elems) = Ok (drawdownScan rest v0 0).
Proof.
  intros Hlen Hval. destruct (validateValues_valid _ _ _ Hval) as [Hmap Hall].
  unfold calculateMaxDrawdown.
  replace (List.length elems <? 2)%nat with false by (symmetry; apply Nat.ltb_ge; exact Hlen).
  rewrite Hval. cbn [bind].
  destruct vs as [|v0 rest].
  - destruct elems; [cbn in Hlen; lia|discriminate].
  - exists v0, rest. auto.
Qed.

(** C7, as the code has it: on a valid series (at least two numbers, none
    NaN, none negative) calculateMaxDrawdown returns a value from -1 to 0,
    both included, and exactly 0 when the series never declines below a
    prior running peak, in particular when it is strictly increasing. *)
Theorem maxDrawdown_range :
  forall values : list float,
    (2 <= List.length values)%nat ->
    Forall (fun v => (0 <=? v) = true) values ->
    exists r,
      calculateMaxDrawdown (VArray (map VNumber values)) = Ok r
      /\ (-1 <=? r) = true /\ (r <=? 0) = true
      /\ (forall v0 rest, values = v0 :: rest -> neverDeclines rest v0 = true -> r = 0)
      /\ (strictlyIncreasing values = true -> r = 0).
Proof.
  intros values Hlen Hvalid.
  destruct (calculateMaxDrawdown_validated (map VNumber values) values)
    as (v0 & rest & -> & Hall & Hrun).
  { now rewrite length_map. }
  { now apply validateValues_numbers. }
  inversion Hall as [|? ? Hv0 Hrest]; subst.
  exists (drawdownScan rest v0 0). split; [exact Hrun|].
  destruct (drawdownScan_range rest Hrest v0 0 Hv0 eq_refl eq_refl) as [Hlo Hhi].
  repeat split; auto.
  - intros v0' rest' Heq Hnd. injection Heq as <- <-.
    now apply drawdownScan_never_declines.
  - intros Hinc. apply drawdownScan_never_declines; auto.
    now apply strictlyIncreasing_neverDeclines.
Qed.

Lemma maxDrawdown_range_witness :
  exists r,
    calculateMaxDrawdown (VArray (map VNumber [1000; 1100; 1200; 1300])) = Ok r
    /\ (-1 <=? r) = true /\ (r <=? 0) = true
    /\ (forall v0 rest,
          [1000; 1100; 1200; 1300] = v0 :: rest -> neverDeclines rest v0 = true -> r = 0)
    /\ (strictlyIncreasing [1000; 1100; 1200; 1300] = true -> r = 0).
Proof.
  apply (maxDrawdown_range [1000; 1100; 1200; 1300]).
  - simpl. lia.
  - repeat constructor.
Defined.

(** The series of the test suite that only rises has no drawdown. *)
Example maxDrawdown_test_increasing :
  calculateMaxDrawdown (VArray [VNumber 1000; VNumber 1100; VNumber 1200; VNumber 1300]) = Ok 0.
Proof. reflexivity. Qed.

(** The drawdown of the test suite: from the peak 1200 to 900. *)
Example maxDrawdown_test_recovery :
  calculateMaxDrawdown
    (VArray [VNumber 1000; VNumber 1100; VNumber 950; VNumber 1200; VNumber 900; VNumber 1100])
  = Ok (-0.25).
Proof. reflexivity. Qed.

(** The claim of C7 that the result is strictly above -1 fails: a series
    that falls to 0 has the drawdown -1. *)
Lemma maxDrawdown_total_loss :
  calculateMaxDrawdown (VArray [VNumber 100; VNumber 0]) = Ok (-1)
  /\ (-1 <? -1) = false.
Proof. split; reflexivity. Qed.

(** Rounding reaches -1 on positive values too: [1 - 1e20] is [-1e20]. *)
Example maxDrawdown_rounded_total_loss :
  calculateMaxDrawdown (VArray [VNumber 1e20; VNumber 1]) = Ok (-1).
Proof. reflexivity. Qed.

Lemma between_minus_one_and_zero_finite (r : float) :
  (-1 <=? r) = true -> (r <=? 0) = true -> is_nan r = false /\ is_finite r = true.
Proof.
  intros Hlo Hhi. destruct (leb_true_not_nan _ _ Hhi) as [Hnan _].
  split; [exact Hnan|]. unfold is_finite, is_infinity. rewrite Hnan. cbn [orb].
  rewrite FloatAxioms.leb_spec, Prim2SF_minus_one in Hlo.
  rewrite FloatAxioms.leb_spec, Prim2SF_zero in Hhi.
  rewrite FloatAxioms.eqb_spec, abs_spec.
  change (Prim2SF infinity) with (S754_infinity false).
  destruct (Prim2SF r) as [s|[|]| |s m e]; try reflexivity; discriminate.
Qed.

(** On a zero peak the drawdown of the next value is NaN, unless the value
    is a new peak. *)
Lemma drawdown_zero_peak (v peak : float) :
  validValue v -> (peak =? 0) = true -> (peak <? v) = false ->
  is_nan ((v - peak) / peak) = true.
Proof.
  intros Hv Hp Hlt. pose proof (validValue_SFnonneg v Hv) as Hnv.
  apply is_nan_Prim2SF. rewrite div_spec, sub_spec.
  rewrite FloatAxioms.eqb_spec, Prim2SF_zero in Hp.
  rewrite FloatAxioms.ltb_spec in Hlt.
  destruct (Prim2SF peak) as [sp|sp| |sp mp ep]; try discriminate Hp;
    try (destruct sp; discriminate Hp).
  destruct (Prim2SF v) as [sv|[|]| |[|] mv ev]; try discriminate Hnv; try discriminate Hlt.
  destruct sv, sp; reflexivity.
Qed.

(** C10: on a validated series calculateMaxDrawdown returns a finite number,
    never NaN.  When the running peak is zero the drawdown is NaN, the test
    [drawdown < maxDrawdown] is false and the result so far is kept;
    [[0, 0]] gives exactly 0. *)
Theorem maxDrawdown_never_nan :
  forall (elems : list value) (vs : list float),
    (2 <= List.length elems)%nat ->
    validateValues 0 elems = Ok vs ->
    (exists r,
       calculateMaxDrawdown (VArray elems) = Ok r
       /\ is_nan r = false /\ is_finite r = true)
    /\ (forall v peak worst rest,
          validValue v -> (peak =? 0) = true -> (peak <? v) = false ->
          is_nan ((v - peak) / peak) = true
          /\ drawdownScan (v :: rest) peak worst = drawdownScan rest peak worst)
    /\ calculateMaxDrawdown (VArray [VNumber 0; VNumber 0]) = Ok 0.
Proof.
  intros elems vs Hlen Hval. split; [|split; [|reflexivity]].
  - destruct (calculateMaxDrawdown_validated elems vs Hlen Hval)
      as (v0 & rest & -> & Hall & Hrun).
    inversion Hall as [|? ? Hv0 Hrest]; subst.
    exists (drawdownScan rest v0 0). split; [exact Hrun|].
    destruct (drawdownScan_range rest Hrest v0 0 Hv0 eq_refl eq_refl) as [Hlo Hhi].
    now apply between_minus_one_and_zero_finite.
  - intros v peak worst rest Hv Hp Hlt.
    pose proof (drawdown_zero_peak v peak Hv Hp Hlt) as Hnan.
    split; [exact Hnan|]. cbn [drawdownScan]. rewrite Hlt.
    destruct ((v - peak) / peak <? worst) eqn:Hd; [|reflexivity].
    apply ltb_true_not_nan in Hd. destruct Hd; congruence.
Qed.

Lemma maxDrawdown_never_nan_witness :
  exists r,
    calculateMaxDrawdown (VArray [VNumber 0; VNumber 0]) = Ok r
    /\ is_nan r = false /\ is_finite r = true.
Proof.
  refine (proj1 (maxDrawdown_never_nan [VNumber 0; VNumber 0] [0; 0] _ _)).
  - simpl. lia.
  - reflexivity.
Defined.

(** * Further binary64 facts

    The order is transitive; a rounded result has the sign of the exact
    one and lies on the same side of every representable bound.  The
    bounds are compared on the values of the numbers in units of
    [2^-1075], which are integers. *)

(** ** The order of binary64 numbers *)

(** Closes a case of the lemma below in which the three comparisons are
    decided. *)
Ltac settle_order :=
  solve [ congruence
        | eexists; repeat split;
          first [reflexivity | congruence | intros [?|?]; congruence] ].
(** The order of binary64 numbers is transitive. *)
Lemma SFcompare_trans (x y z : spec_float) (c1 c2 : comparison) :
  SFcompare x y = Some c1 -> SFcompare y z = Some c2 ->
  c1 <> Gt -> c2 <> Gt ->
  exists c3, SFcompare x z = Some c3 /\ c3 <> Gt /\ (c1 = Lt \/ c2 = Lt -> c3 = Lt).
Proof.
  destruct x as [sx|sx| |sx mx ex], y as [sy|sy| |sy my ey], z as [sz|sz| |sz mz ez];
    cbn [SFcompare]; intros H1 H2 Hc1 Hc2; try discriminate;
    injection H1 as <-; injection H2 as <-;
    try (repeat match goal with s : bool |- _ => destruct s end; settle_order).
  change (Pos.compare_cont Eq mx my) with (Pos.compare mx my) in *.
  change (Pos.compare_cont Eq my mz) with (Pos.compare my mz) in *.
  change (Pos.compare_cont Eq mx mz) with (Pos.compare mx mz) in *.
  destruct sx, sy, sz; try settle_order;
    destruct (Z.compare_spec ex ey), (Z.compare_spec ey ez), (Z.compare_spec ex ez);
    try lia; try subst; try settle_order;
    destruct (Pos.compare_spec mx my), (Pos.compare_spec my mz), (Pos.compare_spec mx mz);
    cbn [CompOpp] in *; try lia; settle_order.
Qed.

Lemma float_order_trans (x y z : float) (strict1 strict2 : bool) :
  (if strict1 then x <? y else x <=? y) = true ->
  (if strict2 then y <? z else y <=? z) = true ->
  (x <=? z) = true /\ (strict1 || strict2 = true -> (x <? z) = true).
Proof.
  rewrite !FloatAxioms.ltb_spec, !FloatAxioms.leb_spec. unfold SFltb, SFleb.
  intros H1 H2.
  destruct (SFcompare (Prim2SF x) (Prim2SF y)) as [c1|] eqn:E1;
    [|destruct strict1; discriminate].
  destruct (SFcompare (Prim2SF y) (Prim2SF z)) as [c2|] eqn:E2;
    [|destruct strict2; discriminate].
  destruct (SFcompare_trans _ _ _ _ _ E1 E2) as (c3 & -> & Hc3 & Hlt).
  - destruct strict1, c1; congruence.
  - destruct strict2, c2; congruence.
  - split; [destruct c3; congruence|].
    intros Hs. rewrite Hlt; [reflexivity|].
    destruct strict1, strict2, c1, c2; try discriminate; auto.
Qed.

Lemma ltb_trans (x y z : float) : (x <? y) = true -> (y <? z) = true -> (x <? z) = true.
Proof. intros H1 H2. now apply (float_order_trans x y z true true). Qed.

Lemma leb_trans (x y z : float) : (x <=? y) = true -> (y <=? z) = true -> (x <=? z) = true.
Proof. intros H1 H2. now apply (float_order_trans x y z false false). Qed.

Lemma ltb_leb_trans (x y z : float) : (x <? y) = true -> (y <=? z) = true -> (x <? z) = true.
Proof. intros H1 H2. now apply (float_order_trans x y z true false). Qed.

Lemma leb_ltb_trans (x y z : float) : (x <=? y) = true -> (y <? z) = true -> (x <? z) = true.
Proof. intros H1 H2. now apply (float_order_trans x y z false true). Qed.

Lemma leb_refl (x : float) : is_nan x = false -> (x <=? x) = true.
Proof.
  intros H. rewrite FloatAxioms.leb_spec. unfold SFleb.
  rewrite SFcompare_refl; [reflexivity|]. now apply not_nan_Prim2SF.
Qed.

Lemma ltb_total (x y : float) :
  is_nan x = false -> is_nan y = false -> (x =? y) = false ->
  (x <? y) = true \/ (y <? x) = true.
Proof.
  intros Hx Hy. on_compare x y.
  destruct (SFcompare_cases x y) as [[[H|H] _]|(_ & _ & c & ->)]; try congruence.
  destruct c; cbn; auto; discriminate.
Qed.

Lemma leb_false_ltb_true (x y : float) :
  is_nan x = false -> is_nan y = false -> (x <=? y) = false -> (y <? x) = true.
Proof.
  intros Hx Hy. on_compare x y.
  destruct (SFcompare_cases x y) as [[[H|H] _]|(_ & _ & c & Hc)]; try congruence.
  rewrite Hc. destruct c; simpl; congruence.
Qed.

Lemma is_finite_not_nan (x : float) : is_finite x = true -> is_nan x = false.
Proof.
  unfold is_finite. intros H. apply negb_true_iff, orb_false_iff in H. tauto.
Qed.

Lemma is_finite_Prim2SF (x : float) :
  is_finite x = true ->
  (exists s, Prim2SF x = S754_zero s) \/ exists s m e, Prim2SF x = S754_finite s m e.
Proof.
  unfold is_finite. intros H. apply negb_true_iff, orb_false_iff in H. destruct H as [Hn Hi].
  apply not_nan_Prim2SF in Hn.
  unfold is_infinity in Hi. rewrite FloatAxioms.eqb_spec, abs_spec in Hi.
  destruct (Prim2SF x) as [s|s| |s m e]; eauto; try congruence.
  destruct s; discriminate.
Qed.

(** ** Signs and values of rounded numbers *)

Section Values.

Local Open Scope Z_scope.
Local Notation fexp64 := (SpecFloat.fexp prec emax).

Lemma pow2_pos (n : Z) : 0 <= n -> 0 < 2 ^ n.
Proof. intros H. apply Z.pow_pos_nonneg; lia. Qed.

(** *** The sign of a rounded number *)

(** A rounded number has the sign it was given, whatever its size. *)
Lemma binary_round_aux_sign (s : bool) (mx ex : Z) (lx : location) :
  binary_round_aux prec emax s mx ex lx = S754_nan
  \/ binary_round_aux prec emax s mx ex lx = S754_zero s
  \/ binary_round_aux prec emax s mx ex lx = S754_infinity s
  \/ exists m e, binary_round_aux prec emax s mx ex lx = S754_finite s m e.
Proof.
  unfold binary_round_aux.
  destruct (shr_fexp prec emax mx ex lx) as [r1 e1].
  destruct (shr_fexp prec emax _ e1 loc_Exact) as [r3 e3].
  destruct (shr_m r3) as [|m|m]; auto.
  destruct (e3 <=? emax - prec); [do 3 right; eauto|auto].
Qed.

Lemma binary_round_aux_nonneg (s : bool) (mx ex : Z) (lx : location) :
  0 <= mx ->
  binary_round_aux prec emax s mx ex lx = S754_zero s
  \/ binary_round_aux prec emax s mx ex lx = S754_infinity s
  \/ exists m e, binary_round_aux prec emax s mx ex lx = S754_finite s m e.
Proof.
  intros Hmx. unfold binary_round_aux.
  destruct (shr_fexp_spec mx ex lx Hmx) as (r1 & e1 & E1 & He1 & Hm1 & _). rewrite E1.
  set (m2 := round_nearest_even (shr_m r1) (loc_of_shr_record r1)).
  assert (Hr1 : 0 <= shr_m r1).
  { rewrite Hm1. apply Z.div_pos; [lia|]. apply pow2_pos. lia. }
  assert (Hm2 : 0 <= m2).
  { unfold m2. destruct (round_nearest_even_spec r1) as [->|[-> _]]; lia. }
  destruct (shr_fexp_spec m2 e1 loc_Exact Hm2) as (r3 & e3 & E3 & He3 & Hm3 & _). rewrite E3.
  assert (Hr3 : 0 <= shr_m r3).
  { rewrite Hm3. apply Z.div_pos; [lia|]. apply pow2_pos. lia. }
  destruct (shr_m r3); try lia; auto.
  destruct (e3 <=? emax - prec); eauto.
Qed.

(** Rounding a positive mantissa whose exponent is a binary64 exponent
    does not give zero. *)
Lemma binary_round_aux_nonzero (s : bool) (mx ex : Z) (lx : location) :
  0 < mx -> -1074 <= ex ->
  binary_round_aux prec emax s mx ex lx = S754_infinity s
  \/ exists m e, binary_round_aux prec emax s mx ex lx = S754_finite s m e.
Proof.
  intros Hmx Hex.
  destruct (shr_fexp_spec mx ex lx ltac:(lia)) as (r1 & e1 & E1 & He1 & Hm1 & _).
  set (k := Z.max 0 (fexp64 (Zdigits2 mx + ex) - ex)) in *.
  assert (Hshift : forall m e, 0 < m -> -1074 <= e ->
            0 < m / 2 ^ Z.max 0 (fexp64 (Zdigits2 m + e) - e)).
  { intros m e Hm He. rewrite fexp64_eq.
    destruct (Zdigits2_bounds m Hm) as [Hlo _].
    pose proof (Zdigits2_pos m Hm) as Hd.
    destruct (Z_le_gt_dec (Z.max (Zdigits2 m + e - 53) (-1074) - e) 0) as [Hk|Hk].
    - replace (Z.max 0 _) with 0 by lia. rewrite Z.pow_0_r, Z.div_1_r. exact Hm.
    - replace (Z.max 0 (Z.max (Zdigits2 m + e - 53) (-1074) - e)) with (Zdigits2 m - 53) by lia.
      apply Z.div_str_pos. split; [apply Z.pow_pos_nonneg; lia|].
      eapply Z.le_trans; [|exact Hlo]. apply Z.pow_le_mono_r; lia. }
  assert (H1 : 0 < shr_m r1) by (rewrite Hm1; apply Hshift; assumption).
  set (m2 := round_nearest_even (shr_m r1) (loc_of_shr_record r1)).
  assert (H2 : 0 < m2).
  { unfold m2. destruct (round_nearest_even_spec r1) as [->|[-> _]]; lia. }
  destruct (shr_fexp_spec m2 e1 loc_Exact ltac:(lia)) as (r3 & e3 & E3 & He3 & Hm3 & _).
  assert (H3 : 0 < shr_m r3) by (rewrite Hm3; apply Hshift; lia).
  unfold binary_round_aux. rewrite E1. fold m2. rewrite E3.
  destruct (shr_m r3) as [|m3|m3]; try lia.
  destruct (e3 <=? emax - prec); eauto.
Qed.

Lemma binary_round_nonzero (s : bool) (m : positive) (e : Z) :
  -1074 <= e ->
  binary_round prec emax s m e = S754_infinity s
  \/ exists m' e', binary_round prec emax s m e = S754_finite s m' e'.
Proof.
  intros He. unfold binary_round.
  destruct (shl_align_spec m e (fexp64 (Zpos (digits2_pos m) + e))) as [He' _].
  destruct (shl_align m e (fexp64 (Zpos (digits2_pos m) + e))) as [mz ez].
  cbn [snd] in He'.
  apply binary_round_aux_nonzero; [lia|]. rewrite fexp64_eq in He'. lia.
Qed.

(** The order test on two finite numbers, on their signed mantissas
    aligned to the smaller exponent. *)
Lemma SFcompare_aligned (sx sy : bool) (mx my : positive) (ex ey : Z) :
  canonical_mantissa prec emax mx ex = true ->
  canonical_mantissa prec emax my ey = true ->
  SFcompare (S754_finite sx mx ex) (S754_finite sy my ey)
  = Some (cond_Zopp sx (Zpos mx * 2 ^ (ex - Z.min ex ey))
          ?= cond_Zopp sy (Zpos my * 2 ^ (ey - Z.min ex ey))).
Proof.
  intros Hx Hy. cbn [SFcompare]. f_equal.
  assert (Hpx : 0 < Zpos mx * 2 ^ (ex - Z.min ex ey))
    by (apply Z.mul_pos_pos; [lia|apply Z.pow_pos_nonneg; lia]).
  assert (Hpy : 0 < Zpos my * 2 ^ (ey - Z.min ex ey))
    by (apply Z.mul_pos_pos; [lia|apply Z.pow_pos_nonneg; lia]).
  assert (Hcmp : (match ex ?= ey with
                  | Eq => Pos.compare_cont Eq mx my
                  | Lt => Lt
                  | Gt => Gt
                  end)
                 = (Zpos mx * 2 ^ (ex - Z.min ex ey) ?= Zpos my * 2 ^ (ey - Z.min ex ey))).
  { destruct (Z.compare_spec ex ey) as [->|Hlt|Hgt].
    - rewrite Z.min_id, Z.sub_diag, Z.pow_0_r, !Z.mul_1_r. reflexivity.
    - replace (Z.min ex ey) with ex in * by lia.
      rewrite Z.sub_diag, Z.pow_0_r, Z.mul_1_r in *.
      pose proof (canonical_lt _ _ _ _ Hx Hy Hlt). symmetry. apply Z.compare_lt_iff. lia.
    - replace (Z.min ex ey) with ey in * by lia.
      rewrite Z.sub_diag, Z.pow_0_r, Z.mul_1_r in *.
      pose proof (canonical_lt _ _ _ _ Hy Hx ltac:(lia)). symmetry. apply Z.compare_gt_iff. lia. }
  destruct sx, sy; cbn [cond_Zopp].
  - rewrite Z.compare_opp, (Z.compare_antisym (Zpos mx * _) (Zpos my * _)), <- Hcmp.
    destruct (ex ?= ey); reflexivity.
  - symmetry. apply Z.compare_lt_iff. lia.
  - symmetry. apply Z.compare_gt_iff. lia.
  - exact Hcmp.
Qed.

(** *** Rounding above and below a representable bound *)

(** A mantissa with a larger value has at least as many digits, counted
    from the same unit. *)
Lemma Zdigits2_value_mono (m : Z) (mB : positive) (e eB : Z) :
  0 <= m -> -1075 <= e -> -1075 <= eB ->
  Zpos mB * 2 ^ (eB + 1075) <= m * 2 ^ (e + 1075) ->
  Zdigits2 (Zpos mB) + eB <= Zdigits2 m + e.
Proof.
  intros Hm He HeB Hle.
  pose proof (pow2_pos (eB + 1075) ltac:(lia)) as HpB.
  pose proof (pow2_pos (e + 1075) ltac:(lia)) as Hp.
  assert (Hm0 : 0 < m) by nia.
  destruct (Zdigits2_bounds (Zpos mB) ltac:(lia)) as [HloB _].
  destruct (Zdigits2_bounds m Hm0) as [_ Hhi].
  pose proof (Zdigits2_pos (Zpos mB) ltac:(lia)) as HdB.
  pose proof (Zdigits2_pos m Hm0) as Hd.
  assert (H : 2 ^ (Zdigits2 (Zpos mB) - 1 + (eB + 1075)) < 2 ^ (Zdigits2 m + (e + 1075))).
  { rewrite (Z.pow_add_r 2 (Zdigits2 (Zpos mB) - 1) (eB + 1075)) by lia.
    rewrite (Z.pow_add_r 2 (Zdigits2 m) (e + 1075)) by lia.
    apply Z.le_lt_trans with (Zpos mB * 2 ^ (eB + 1075));
      [apply Z.mul_le_mono_nonneg_r; lia|].
    apply Z.le_lt_trans with (m * 2 ^ (e + 1075)); [exact Hle|].
    apply Z.mul_lt_mono_pos_r; lia. }
  apply Z.pow_lt_mono_r_iff in H; lia.
Qed.

(** One right shift to the exponent of the format keeps a mantissa above a
    representable bound. *)
Lemma shr_fexp_ge (m e : Z) (l : location) (mB : positive) (eB : Z) :
  0 <= m -> -1075 <= e ->
  canonical_mantissa prec emax mB eB = true ->
  Zpos mB * 2 ^ (eB + 1075) <= m * 2 ^ (e + 1075) ->
  exists r e',
    shr_fexp prec emax m e l = (r, e')
    /\ e <= e' /\ 0 <= shr_m r
    /\ Zpos mB * 2 ^ (eB + 1075) <= shr_m r * 2 ^ (e' + 1075).
Proof.
  intros Hm He Hcan Hle.
  destruct (canonical_digits _ _ Hcan) as (HeB & HdB & _).
  apply canonical_mantissa_eq in Hcan.
  destruct (shr_fexp_spec m e l Hm) as (r & e' & E & He' & Hr & _).
  exists r, e'. split; [exact E|].
  pose proof (Zdigits2_value_mono m mB e eB Hm He ltac:(lia) Hle) as Hdig.
  pose proof (fexp64_mono _ _ Hdig) as Hfexp. rewrite Hcan in Hfexp.
  pose proof (pow2_pos (eB + 1075) ltac:(lia)) as HpB.
  pose proof (pow2_pos (e + 1075) ltac:(lia)) as Hp.
  assert (Hm0 : 0 < m) by nia.
  destruct (Z_le_gt_dec (fexp64 (Zdigits2 m + e) - e) 0) as [Hk|Hk].
  - replace (Z.max 0 (fexp64 (Zdigits2 m + e) - e)) with 0 in * by lia.
    rewrite Z.pow_0_r, Z.div_1_r in Hr. rewrite Hr.
    replace e' with e by lia. repeat split; lia.
  - replace (Z.max 0 (fexp64 (Zdigits2 m + e) - e)) with (fexp64 (Zdigits2 m + e) - e)
      in * by lia.
    set (k := fexp64 (Zdigits2 m + e) - e) in *.
    assert (He'k : e' = e + k) by lia.
    pose proof (pow2_pos k ltac:(lia)) as Hpk.
    assert (Hr0 : 0 <= shr_m r) by (rewrite Hr; apply Z.div_pos; lia).
    split; [lia|]. split; [exact Hr0|].
    assert (Hsplit : 2 ^ (e' + 1075) = 2 ^ k * 2 ^ (e + 1075)).
    { rewrite <- Z.pow_add_r by lia. f_equal. lia. }
    destruct (Z.eq_dec e' eB) as [Heq|Hne].
    + rewrite Heq in *.
      assert (Zpos mB * 2 ^ k <= m).
      { rewrite Hsplit in Hle. nia. }
      assert (Zpos mB <= shr_m r) by (rewrite Hr; apply Z.div_le_lower_bound; lia).
      nia.
    + assert (Hgt : eB < e') by lia.
      assert (Hk53 : k = Zdigits2 m - 53).
      { pose proof (fexp64_eq (Zdigits2 m + e)) as Hf. unfold k in *. lia. }
      destruct (Zdigits2_bounds m Hm0) as [Hlo _].
      assert (H52 : 2 ^ 52 <= shr_m r).
      { rewrite Hr. apply Z.div_le_lower_bound; [lia|].
        rewrite <- Z.pow_add_r by lia. replace (k + 52) with (Zdigits2 m - 1) by lia.
        exact Hlo. }
      destruct (Zdigits2_bounds (Zpos mB) ltac:(lia)) as [_ HhiB].
      assert (HmB : Zpos mB < 2 ^ 53).
      { eapply Z.lt_le_trans; [exact HhiB|]. apply Z.pow_le_mono_r; lia. }
      assert (Hpow : 2 ^ (e' + 1075) = 2 ^ (e' - eB) * 2 ^ (eB + 1075)).
      { rewrite <- Z.pow_add_r by lia. f_equal. lia. }
      assert (H2 : 2 ^ 1 <= 2 ^ (e' - eB)) by (apply Z.pow_le_mono_r; lia).
      change (2 ^ 1) with 2 in H2. change (2 ^ 52) with 4503599627370496 in H52.
      change (2 ^ 53) with 9007199254740992 in HmB.
      rewrite Hpow. nia.
Qed.

(** Rounding stays above a representable bound. *)
Lemma binary_round_aux_ge (s : bool) (mx ex : Z) (lx : location) (mB : positive) (eB : Z) :
  0 <= mx -> -1075 <= ex ->
  canonical_mantissa prec emax mB eB = true ->
  Zpos mB * 2 ^ (eB + 1075) <= mx * 2 ^ (ex + 1075) ->
  binary_round_aux prec emax s mx ex lx = S754_infinity s
  \/ exists m e,
       binary_round_aux prec emax s mx ex lx = S754_finite s m e
       /\ Zpos mB * 2 ^ (eB + 1075) <= Zpos m * 2 ^ (e + 1075).
Proof.
  intros Hmx Hex Hcan Hle.
  destruct (shr_fexp_ge mx ex lx mB eB Hmx Hex Hcan Hle) as (r1 & e1 & E1 & He1 & Hr1 & Hle1).
  set (m2 := round_nearest_even (shr_m r1) (loc_of_shr_record r1)).
  assert (Hm2 : shr_m r1 <= m2).
  { unfold m2. destruct (round_nearest_even_spec r1) as [->|[-> _]]; lia. }
  pose proof (pow2_pos (e1 + 1075) ltac:(lia)) as Hp1.
  destruct (shr_fexp_ge m2 e1 loc_Exact mB eB ltac:(lia) ltac:(lia) Hcan ltac:(nia))
    as (r3 & e3 & E3 & He3 & Hr3 & Hle3).
  unfold binary_round_aux. rewrite E1. fold m2. rewrite E3.
  pose proof (pow2_pos (e3 + 1075) ltac:(lia)) as Hp3.
  destruct (canonical_digits _ _ Hcan) as (HeB & _).
  pose proof (pow2_pos (eB + 1075) ltac:(lia)) as HpB.
  destruct (shr_m r3) as [|m3|m3]; try lia.
  destruct (e3 <=? emax - prec); [right; exists m3, e3; auto|now left].
Qed.

(** The exponent of a rounded number is at least the exponent it was
    given. *)
Lemma binary_round_aux_exponent (s : bool) (mx ex : Z) (lx : location)
    (s' : bool) (m : positive) (e : Z) :
  0 <= mx ->
  binary_round_aux prec emax s mx ex lx = S754_finite s' m e -> ex <= e.
Proof.
  intros Hmx. unfold binary_round_aux.
  destruct (shr_fexp_spec mx ex lx Hmx) as (r1 & e1 & E1 & He1 & Hm1 & _). rewrite E1.
  set (m2 := round_nearest_even (shr_m r1) (loc_of_shr_record r1)).
  assert (Hr1 : 0 <= shr_m r1).
  { rewrite Hm1. apply Z.div_pos; [lia|]. apply pow2_pos. lia. }
  assert (Hm2 : 0 <= m2).
  { unfold m2. destruct (round_nearest_even_spec r1) as [->|[-> _]]; lia. }
  destruct (shr_fexp_spec m2 e1 loc_Exact Hm2) as (r3 & e3 & E3 & He3 & _). rewrite E3.
  destruct (shr_m r3); try discriminate.
  destruct (e3 <=? emax - prec); [|discriminate]. intros [= _ _ <-]. lia.
Qed.

(** Rounding stays below a representable bound, on the values. *)
Lemma binary_round_aux_le_value (s : bool) (mx ex : Z) (lx : location)
    (mB : positive) (eB : Z) :
  0 <= mx -> -1075 <= ex -> ex <= eB ->
  canonical_mantissa prec emax mB eB = true ->
  eB <= emax - prec ->
  mx * 2 ^ (ex + 1075) <= Zpos mB * 2 ^ (eB + 1075) ->
  (lx <> loc_Exact -> mx * 2 ^ (ex + 1075) < Zpos mB * 2 ^ (eB + 1075)) ->
  binary_round_aux prec emax s mx ex lx = S754_zero s
  \/ exists m e,
       binary_round_aux prec emax s mx ex lx = S754_finite s m e
       /\ Zpos m * 2 ^ (e + 1075) <= Zpos mB * 2 ^ (eB + 1075).
Proof.
  intros Hmx Hex HexB Hcan Hbound Hle Hlt.
  pose proof (pow2_pos (ex + 1075) ltac:(lia)) as Hp.
  assert (Hsplit : 2 ^ (eB + 1075) = 2 ^ (eB - ex) * 2 ^ (ex + 1075)).
  { rewrite <- Z.pow_add_r by lia. f_equal. lia. }
  rewrite Hsplit in Hle, Hlt.
  destruct (binary_round_aux_le s mx ex lx mB eB Hmx HexB Hcan Hbound)
    as [Hz|(m & e & E & He & Hm)].
  - nia.
  - intros Hl. specialize (Hlt Hl). nia.
  - now left.
  - right. exists m, e. split; [exact E|].
    pose proof (binary_round_aux_exponent _ _ _ _ _ _ _ Hmx E) as Hee.
    pose proof (pow2_pos (e + 1075) ltac:(lia)) as Hpe.
    assert (Hsplit' : 2 ^ (eB + 1075) = 2 ^ (eB - e) * 2 ^ (e + 1075)).
    { rewrite <- Z.pow_add_r by lia. f_equal. lia. }
    rewrite Hsplit'. nia.
Qed.

(** [binary_round] rounds the magnitude it is given. *)
Lemma binary_round_rounds (s : bool) (m : positive) (e : Z) :
  -1074 <= e ->
  roundsMagnitude s (Zpos m * 2 ^ (e + 1075)) (binary_round prec emax s m e).
Proof.
  intros He. unfold binary_round.
  destruct (shl_align_spec m e (fexp64 (Zpos (digits2_pos m) + e))) as [He' Hmz].
  destruct (shl_align m e (fexp64 (Zpos (digits2_pos m) + e))) as [mz ez].
  cbn [fst snd] in He', Hmz.
  assert (Hez : -1074 <= ez) by (rewrite fexp64_eq in He'; lia).
  assert (Hval : Zpos mz * 2 ^ (ez + 1075) = Zpos m * 2 ^ (e + 1075)).
  { rewrite Hmz, <- He', <- Z.mul_assoc, <- Z.pow_add_r by lia. do 2 f_equal. lia. }
  rewrite <- Hval. split; [|split].
  - destruct (binary_round_aux_nonzero s (Zpos mz) ez loc_Exact) as [->|(m' & e' & ->)];
      try lia; eauto.
  - intros mB eB Hcan Hbound Hle.
    destruct (canonical_digits _ _ Hcan) as (HeB & _).
    assert (HezB : ez <= eB).
    { pose proof (Zdigits2_value_mono (Zpos mB) m eB e ltac:(lia) ltac:(lia) ltac:(lia)
                    ltac:(rewrite <- Hval; exact Hle)) as Hd.
      pose proof (fexp64_mono _ _ Hd) as Hf.
      rewrite (canonical_mantissa_eq _ _ Hcan) in Hf. cbn [Zdigits2] in Hf. lia. }
    apply binary_round_aux_le_value; try lia; try assumption. congruence.
  - intros mB eB Hcan Hle.
    apply binary_round_aux_ge; try lia; assumption.
Qed.

(** *** Sums, halves and midpoints between two bounds *)

Lemma valid_finite_exponent (s : bool) (m : positive) (e : Z) :
  valid_binary (S754_finite s m e) = true ->
  canonical_mantissa prec emax m e = true /\ -1074 <= e <= emax - prec
  /\ 0 < Zpos m * 2 ^ (e + 1075).
Proof.
  intros H. destruct (valid_binary_finite _ _ _ H) as [Hcan Hb].
  destruct (canonical_digits _ _ Hcan) as (He & _).
  repeat split; auto. apply Z.mul_pos_pos; [lia|apply pow2_pos; lia].
Qed.

(** A rounding of a signed magnitude between two representable bounds
    lies between them. *)
Lemma signed_between (s : bool) (V : Z) (R B1 B2 : spec_float) :
  0 < V -> roundsMagnitude s V R ->
  valid_binary B1 = true -> valid_binary B2 = true ->
  SFfinite B1 = true -> SFfinite B2 = true ->
  SFval B1 <= cond_Zopp s V <= SFval B2 ->
  SFfinite R = true /\ SFval B1 <= SFval R <= SFval B2.
Proof.
  intros HV (Hsign & Hle & Hge) V1 V2 F1 F2 [H1 H2].
  destruct s; cbn [cond_Zopp] in *.
  - (* a negative number *)
    destruct B1 as [s1|s1| |s1 m1 e1]; try discriminate F1; cbn [SFval] in H1; try lia.
    destruct (valid_finite_exponent _ _ _ V1) as (Hc1 & He1 & Hp1).
    destruct s1; cbn [cond_Zopp] in H1; try lia.
    assert (HR : R = S754_zero true
                 \/ exists m e, R = S754_finite true m e
                       /\ Zpos m * 2 ^ (e + 1075) <= Zpos m1 * 2 ^ (e1 + 1075))
      by (apply Hle; [assumption|lia|lia]).
    destruct B2 as [s2|s2| |s2 m2 e2]; try discriminate F2; cbn [SFval] in *.
    + destruct HR as [->|(m & e & -> & Hm)]; cbn [SFfinite SFval cond_Zopp];
        repeat split; lia.
    + destruct (valid_finite_exponent _ _ _ V2) as (Hc2 & He2 & Hp2).
      destruct s2; cbn [cond_Zopp] in *.
      * destruct (Hge m2 e2 Hc2 ltac:(lia)) as [Hinf|(m' & e' & E' & Hm')];
          destruct HR as [->|(m & e & -> & Hm)]; try discriminate.
        injection E' as <- <-. cbn [SFfinite SFval cond_Zopp]. repeat split; lia.
      * destruct HR as [->|(m & e & -> & Hm)]; cbn [SFfinite SFval cond_Zopp];
          repeat split; lia.
  - (* a positive number *)
    destruct B2 as [s2|s2| |s2 m2 e2]; try discriminate F2; cbn [SFval] in H2; try lia.
    destruct (valid_finite_exponent _ _ _ V2) as (Hc2 & He2 & Hp2).
    destruct s2; cbn [cond_Zopp] in H2; try lia.
    assert (HR : R = S754_zero false
                 \/ exists m e, R = S754_finite false m e
                       /\ Zpos m * 2 ^ (e + 1075) <= Zpos m2 * 2 ^ (e2 + 1075))
      by (apply Hle; [assumption|lia|lia]).
    destruct B1 as [s1|s1| |s1 m1 e1]; try discriminate F1; cbn [SFval] in *.
    + destruct HR as [->|(m & e & -> & Hm)]; cbn [SFfinite SFval cond_Zopp];
        repeat split; lia.
    + destruct (valid_finite_exponent _ _ _ V1) as (Hc1 & He1 & Hp1).
      destruct s1; cbn [cond_Zopp] in *.
      * destruct HR as [->|(m & e & -> & Hm)]; cbn [SFfinite SFval cond_Zopp];
          repeat split; lia.
      * destruct (Hge m1 e1 Hc1 ltac:(lia)) as [Hinf|(m' & e' & E' & Hm')];
          destruct HR as [->|(m & e & -> & Hm)]; try discriminate.
        injection E' as <- <-. cbn [SFfinite SFval cond_Zopp]. repeat split; lia.
Qed.

(** The value of a finite number on its mantissa aligned to a smaller
    exponent. *)
Lemma SFval_aligned (s : bool) (m : positive) (e ez : Z) :
  -1075 <= ez -> ez <= e ->
  SFval (S754_finite s m e) = cond_Zopp s (Zpos m * 2 ^ (e - ez)) * 2 ^ (ez + 1075).
Proof.
  intros Hz He. cbn [SFval].
  assert (H : Zpos m * 2 ^ (e + 1075) = Zpos m * 2 ^ (e - ez) * 2 ^ (ez + 1075)).
  { rewrite <- Z.mul_assoc, <- Z.pow_add_r by lia. do 2 f_equal. lia. }
  destruct s; cbn [cond_Zopp]; lia.
Qed.

(** The order of two finite numbers is the order of their values. *)
Lemma SFcompare_value (x y : spec_float) :
  valid_binary x = true -> valid_binary y = true ->
  SFfinite x = true -> SFfinite y = true ->
  SFcompare x y = Some (SFval x ?= SFval y).
Proof.
  intros Vx Vy Fx Fy.
  destruct x as [sx|sx| |sx mx ex], y as [sy|sy| |sy my ey];
    try discriminate Fx; try discriminate Fy.
  - reflexivity.
  - destruct (valid_finite_exponent _ _ _ Vy) as (_ & _ & Hp).
    cbn [SFcompare SFval]. f_equal. symmetry.
    destruct sy; cbn [cond_Zopp]; [apply Z.compare_gt_iff|apply Z.compare_lt_iff]; lia.
  - destruct (valid_finite_exponent _ _ _ Vx) as (_ & _ & Hp).
    cbn [SFcompare SFval]. f_equal. symmetry.
    destruct sx; cbn [cond_Zopp]; [apply Z.compare_lt_iff|apply Z.compare_gt_iff]; lia.
  - destruct (valid_finite_exponent _ _ _ Vx) as (Hcx & Hex & _).
    destruct (valid_finite_exponent _ _ _ Vy) as (Hcy & Hey & _).
    rewrite (SFcompare_aligned sx sy mx my ex ey Hcx Hcy).
    rewrite (SFval_aligned sx mx ex (Z.min ex ey)), (SFval_aligned sy my ey (Z.min ex ey))
      by lia.
    f_equal. apply Zmult_compare_compat_r. apply Z.lt_gt, pow2_pos. lia.
Qed.

(** A sum between two representable bounds is rounded between them. *)
Lemma SFadd_between (x y B1 B2 : spec_float) :
  valid_binary x = true -> valid_binary y = true ->
  valid_binary B1 = true -> valid_binary B2 = true ->
  SFfinite x = true -> SFfinite y = true ->
  SFfinite B1 = true -> SFfinite B2 = true ->
  SFval B1 <= SFval x + SFval y <= SFval B2 ->
  SFfinite (SF64add x y) = true
  /\ SFval B1 <= SFval (SF64add x y) <= SFval B2.
Proof.
  intros Vx Vy V1 V2 Fx Fy F1 F2 Hb.
  destruct x as [sx|sx| |sx mx ex], y as [sy|sy| |sy my ey];
    try discriminate Fx; try discriminate Fy.
  - assert (E : SFval (SF64add (S754_zero sx) (S754_zero sy)) = 0)
      by (destruct sx, sy; reflexivity).
    rewrite E. split; [destruct sx, sy; reflexivity|exact Hb].
  - change (SF64add (S754_zero sx) (S754_finite sy my ey)) with (S754_finite sy my ey).
    cbn [SFval] in *. split; [reflexivity|lia].
  - change (SF64add (S754_finite sx mx ex) (S754_zero sy)) with (S754_finite sx mx ex).
    cbn [SFval] in *. split; [reflexivity|lia].
  - destruct (valid_finite_exponent _ _ _ Vx) as (Hcx & Hex & _).
    destruct (valid_finite_exponent _ _ _ Vy) as (Hcy & Hey & _).
    rewrite (SFval_aligned sx mx ex (Z.min ex ey)), (SFval_aligned sy my ey (Z.min ex ey))
      in Hb by lia.
    unfold SF64add, SFadd.
    set (ez := Z.min ex ey) in *.
    destruct (shl_align_spec mx ex ez) as [_ HX].
    destruct (shl_align_spec my ey ez) as [_ HY].
    replace (Z.min ex ez) with ez in HX by lia.
    replace (Z.min ey ez) with ez in HY by lia.
    rewrite HX, HY.
    set (X := cond_Zopp sx (Zpos mx * 2 ^ (ex - ez))) in *.
    set (Y := cond_Zopp sy (Zpos my * 2 ^ (ey - ez))) in *.
    rewrite <- Z.mul_add_distr_r in Hb.
    pose proof (pow2_pos (ez + 1075) ltac:(lia)) as Hp.
    destruct (X + Y) as [|d|d] eqn:Hd; cbn [binary_normalize].
    + cbn [SFfinite SFval]. split; [reflexivity|lia].
    + apply (signed_between false (Zpos d * 2 ^ (ez + 1075))); try assumption; try lia.
      apply binary_round_rounds. lia.
    + apply (signed_between true (Zpos d * 2 ^ (ez + 1075))); try assumption; try lia.
      * apply binary_round_rounds. lia.
      * cbn [cond_Zopp]. lia.
Qed.

(** Halving a finite number rounds half its magnitude. *)
Lemma SFdiv_two_rounds (s : bool) (m : positive) (e : Z) :
  valid_binary (S754_finite s m e) = true ->
  roundsMagnitude s (Zpos m * 2 ^ (e + 1074)) (SF64div (S754_finite s m e) SFtwo).
Proof.
  intros Hvalid.
  destruct (valid_finite_exponent _ _ _ Hvalid) as (Hcan & He & _).
  destruct (canonical_digits _ _ Hcan) as (_ & Hd53 & Hdnorm).
  pose proof (Zdigits2_pos (Zpos m) ltac:(lia)) as Hdpos.
  unfold SF64div, SFdiv, SFtwo, SFdiv_core_binary. rewrite xorb_false_r.
  change (Zdigits2 4503599627370496) with 53.
  replace (Zdigits2 (Zpos m) + e - (53 + -51)) with (Zdigits2 (Zpos m) + e - 2) by lia.
  replace (e - -51) with (e + 51) by lia.
  set (e' := Z.min (fexp64 (Zdigits2 (Zpos m) + e - 2)) (e + 51)).
  assert (He' : -1074 <= e' <= e + 51) by (unfold e'; rewrite fexp64_eq; lia).
  set (M := match e + 51 - e' with
            | 0 => Zpos m
            | Zpos _ => Z.shiftl (Zpos m) (e + 51 - e')
            | Zneg _ => 0
            end).
  assert (HM : M = Zpos m * 2 ^ (e + 51 - e')).
  { unfold M. destruct (e + 51 - e') as [|p|p] eqn:Es; try lia.
    apply Z.shiftl_mul_pow2. lia. }
  clearbody M.
  pose proof (Z_div_mod M 4503599627370496 ltac:(lia)) as Hdiv.
  destruct (Z.div_eucl M 4503599627370496) as [q r]. destruct Hdiv as [Hqr Hr].
  pose proof (pow2_pos (e' + 1075) ltac:(lia)) as HU.
  pose proof (pow2_pos (e + 51 - e') ltac:(lia)) as HS.
  set (U := 2 ^ (e' + 1075)) in *.
  set (V := Zpos m * 2 ^ (e + 1074)).
  assert (HMV : M * U = 4503599627370496 * V).
  { rewrite HM. unfold U, V. rewrite <- Z.mul_assoc, <- Z.pow_add_r by lia.
    replace (e + 51 - e' + (e' + 1075)) with (52 + (e + 1074)) by lia.
    rewrite Z.pow_add_r by lia. change (2 ^ 52) with 4503599627370496. lia. }
  assert (Hq0 : 0 <= q) by nia.
  assert (HqV : q * U <= V) by nia.
  assert (HVq : V < (q + 1) * U) by nia.
  split; [|split].
  - apply binary_round_aux_nonneg. exact Hq0.
  - intros mB eB HcanB Hbound Hle.
    destruct (canonical_digits _ _ HcanB) as (HeB & _).
    assert (He'B : e' <= eB).
    { pose proof (Zdigits2_value_mono (Zpos mB) m eB (e - 1) ltac:(lia) ltac:(lia) ltac:(lia)
                    ltac:(replace (e - 1 + 1075) with (e + 1074) by lia; exact Hle)) as Hdig.
      pose proof (fexp64_mono (Zdigits2 (Zpos m) + e - 2) (Zdigits2 (Zpos mB) + eB)
                    ltac:(lia)) as Hf.
      rewrite (canonical_mantissa_eq _ _ HcanB) in Hf. unfold e'. lia. }
    fold V in Hle.
    apply binary_round_aux_le_value; try lia; try assumption.
    intros Hloc. apply new_location_inexact in Hloc. fold U. nia.
  - intros mB eB HcanB Hle.
    destruct (canonical_digits _ _ HcanB) as (HeB & _).
    fold V in Hle.
    apply binary_round_aux_ge; try lia; try assumption. fold U.
    destruct (Z_le_gt_dec e' eB) as [Hle'|Hgt].
    + assert (Hsplit : 2 ^ (eB + 1075) = 2 ^ (eB - e') * U).
      { unfold U. rewrite <- Z.pow_add_r by lia. f_equal. lia. }
      rewrite Hsplit in *. rewrite Z.mul_assoc in *.
      assert (H2 : Zpos mB * 2 ^ (eB - e') < q + 1)
        by (apply (Z.mul_lt_mono_pos_r U); lia).
      apply Z.mul_le_mono_nonneg_r; lia.
    + assert (Hfexp : fexp64 (Zdigits2 (Zpos m) + e - 2) = e - 2).
      { unfold e' in Hgt. rewrite fexp64_eq in *.
        assert (-1074 < e) by lia. specialize (Hdnorm ltac:(lia)). lia. }
      assert (Es : e + 51 - e' = 53) by (unfold e'; lia).
      rewrite Es in HM. change (2 ^ 53) with 9007199254740992 in HM.
      assert (r = 0) by lia. nia.
Qed.

(** A half between two representable bounds is rounded between them. *)
Lemma SFhalf_between (x B1 B2 : spec_float) :
  valid_binary x = true -> valid_binary B1 = true -> valid_binary B2 = true ->
  SFfinite x = true -> SFfinite B1 = true -> SFfinite B2 = true ->
  2 * SFval B1 <= SFval x <= 2 * SFval B2 ->
  SFfinite (SF64div x SFtwo) = true
  /\ SFval B1 <= SFval (SF64div x SFtwo) <= SFval B2.
Proof.
  intros Vx V1 V2 Fx F1 F2 Hb.
  destruct x as [sx|sx| |sx mx ex]; try discriminate Fx.
  - change (SF64div (S754_zero sx) SFtwo) with (S754_zero (xorb sx false)).
    cbn [SFfinite SFval] in *. split; [reflexivity|lia].
  - destruct (valid_finite_exponent _ _ _ Vx) as (Hcx & Hex & _).
    assert (Hval : SFval (S754_finite sx mx ex)
                   = 2 * cond_Zopp sx (Zpos mx * 2 ^ (ex + 1074))).
    { cbn [SFval]. replace (ex + 1075) with (Z.succ (ex + 1074)) by lia.
      rewrite Z.pow_succ_r by lia. destruct sx; cbn [cond_Zopp]; lia. }
    rewrite Hval in Hb.
    apply (signed_between sx (Zpos mx * 2 ^ (ex + 1074))); try assumption; try lia.
    now apply SFdiv_two_rounds.
Qed.

Lemma SFdouble_spec (x : spec_float) :
  valid_binary x = true -> SFfinite x = true ->
  (forall s m e, x = S754_finite s m e -> e < emax - prec) ->
  valid_binary (SFdouble x) = true /\ SFfinite (SFdouble x) = true
  /\ SFval (SFdouble x) = 2 * SFval x.
Proof.
  intros Vx Fx Hexp.
  destruct x as [s|s| |s m e]; try discriminate Fx.
  - repeat split.
  - specialize (Hexp s m e eq_refl).
    destruct (valid_finite_exponent _ _ _ Vx) as (Hcan & He & _).
    destruct (canonical_digits _ _ Hcan) as (_ & Hd53 & Hdnorm).
    pose proof (Zdigits2_pos (Zpos m) ltac:(lia)) as Hdpos.
    cbn [SFdouble]. destruct (Z.eqb_spec (Zdigits2 (Zpos m)) 53) as [Hd|Hd].
    + repeat split.
      * cbn [valid_binary]. unfold bounded, canonical_mantissa.
        cbn [Zdigits2] in Hd. rewrite Hd, fexp64_eq.
        apply andb_true_iff. split; [apply Z.eqb_eq|apply Z.leb_le]; lia.
      * cbn [SFval]. replace (e + 1 + 1075) with (Z.succ (e + 1075)) by lia.
        rewrite Z.pow_succ_r by lia. destruct s; cbn [cond_Zopp]; lia.
    + assert (He' : e = -1074) by (destruct (Z.eq_dec e (-1074)); [assumption|lia]).
      repeat split.
      * cbn [valid_binary]. unfold bounded, canonical_mantissa.
        cbn [digits2_pos]. rewrite Pos2Z.inj_succ, fexp64_eq.
        cbn [Zdigits2] in Hd, Hd53.
        apply andb_true_iff. split; [apply Z.eqb_eq|apply Z.leb_le]; lia.
      * cbn [SFval]. rewrite Pos2Z.inj_xO. destruct s; cbn [cond_Zopp]; lia.
Qed.

(** The midpoint of two finite numbers in order lies between them. *)
Lemma SFmidpoint_between (lo hi sum : spec_float) :
  valid_binary lo = true -> valid_binary hi = true -> valid_binary sum = true ->
  SFfinite lo = true -> SFfinite hi = true ->
  (forall s m e, lo = S754_finite s m e -> e < emax - prec) ->
  (forall s m e, hi = S754_finite s m e -> e < emax - prec) ->
  SFval lo <= SFval hi ->
  sum = SF64add lo hi ->
  SFfinite (SF64div sum SFtwo) = true
  /\ SFval lo <= SFval (SF64div sum SFtwo) <= SFval hi.
Proof.
  intros Vlo Vhi Vsum Flo Fhi Elo Ehi Hle Hsum.
  destruct (SFdouble_spec lo Vlo Flo Elo) as (V1 & F1 & H1).
  destruct (SFdouble_spec hi Vhi Fhi Ehi) as (V2 & F2 & H2).
  destruct (SFadd_between lo hi (SFdouble lo) (SFdouble hi)) as [Fsum Hb];
    try assumption; [lia|].
  rewrite <- Hsum in *.
  apply SFhalf_between; try assumption. lia.
Qed.

(** *** The difference and the quotient of a decline *)

Lemma Zdigits2_pow2 (n : Z) : 0 <= n -> Zdigits2 (2 ^ n) = n + 1.
Proof.
  intros Hn. pose proof (pow2_pos n Hn) as Hp.
  destruct (Zdigits2_bounds (2 ^ n) Hp) as [Hlo Hhi].
  pose proof (Zdigits2_pos (2 ^ n) Hp) as Hd.
  apply Z.pow_le_mono_r_iff in Hlo; try lia.
  apply Z.pow_lt_mono_r_iff in Hhi; lia.
Qed.

Lemma SFpow2_canonical (k : Z) :
  -1074 <= k ->
  exists m e,
    SFpow2 k = S754_finite false m e
    /\ canonical_mantissa prec emax m e = true
    /\ Zpos m * 2 ^ (e + 1075) = 2 ^ (k + 1075).
Proof.
  intros Hk. unfold SFpow2. destruct (Z.leb_spec (-1022) k) as [Hn|Hs].
  - exists 4503599627370496%positive, (k - 52). split; [reflexivity|]. split.
    + unfold canonical_mantissa. apply Z.eqb_eq.
      change (Zpos (digits2_pos 4503599627370496)) with 53. rewrite fexp64_eq. lia.
    + change (Zpos 4503599627370496) with (2 ^ 52). rewrite <- Z.pow_add_r by lia.
      f_equal. lia.
  - pose proof (pow2_pos (k + 1074) ltac:(lia)) as Hp.
    exists (Z.to_pos (2 ^ (k + 1074))), (-1074). split; [reflexivity|].
    assert (Hpos : Zpos (Z.to_pos (2 ^ (k + 1074))) = 2 ^ (k + 1074))
      by (apply Z2Pos.id; exact Hp).
    split.
    + unfold canonical_mantissa. apply Z.eqb_eq.
      change (Zpos (digits2_pos ?p)) with (Zdigits2 (Zpos p)).
      rewrite Hpos, Zdigits2_pow2, fexp64_eq by lia. lia.
    + rewrite Hpos, <- Z.pow_add_r by lia. f_equal. lia.
Qed.

(** [v - p] for [0 <= v < p]: a negative number, at least half the last
    binary place of [p] in absolute value. *)
Lemma SFsub_decline (v : spec_float) (mp : positive) (ep : Z) :
  valid_binary v = true -> valid_binary (S754_finite false mp ep) = true ->
  SFnonneg v = true -> SFfinite v = true ->
  SFcompare v (S754_finite false mp ep) = Some Lt ->
  SF64sub v (S754_finite false mp ep) = S754_infinity true
  \/ exists mq eq,
       SF64sub v (S754_finite false mp ep) = S754_finite true mq eq
       /\ 2 ^ (ep + 1074) <= Zpos mq * 2 ^ (eq + 1075).
Proof.
  intros Vv Vp Nv Fv Hlt.
  destruct (valid_finite_exponent _ _ _ Vp) as (Hcp & Hep & _).
  destruct v as [sv|sv| |[|] mv ev]; try discriminate Nv; try discriminate Fv.
  - right. exists mp, ep. split; [destruct sv; reflexivity|].
    replace (ep + 1075) with (Z.succ (ep + 1074)) by lia.
    rewrite Z.pow_succ_r by lia. pose proof (pow2_pos (ep + 1074) ltac:(lia)). nia.
  - destruct (valid_finite_exponent _ _ _ Vv) as (Hcv & Hev & _).
    pose proof (SFcompare_aligned false false mv mp ev ep Hcv Hcp) as Hal.
    rewrite Hlt in Hal. cbn [cond_Zopp] in Hal. clear Hlt.
    assert (Hlt : Zpos mv * 2 ^ (ev - Z.min ev ep) < Zpos mp * 2 ^ (ep - Z.min ev ep))
      by (apply Z.compare_lt_iff; congruence).
    clear Hal.
    unfold SF64sub, SFsub. cbn [cond_Zopp].
    set (ez := Z.min ev ep) in *.
    destruct (shl_align_spec mv ev ez) as [_ HV].
    destruct (shl_align_spec mp ep ez) as [_ HP].
    replace (Z.min ev ez) with ez in HV by lia.
    replace (Z.min ep ez) with ez in HP by lia.
    rewrite HV, HP.
    set (V := Zpos mv * 2 ^ (ev - ez)) in *. set (P := Zpos mp * 2 ^ (ep - ez)) in *.
    destruct (V - P) as [|d|d] eqn:Hd; try lia. cbn [binary_normalize].
    destruct (binary_round_rounds true d ez ltac:(lia)) as (_ & _ & Hge).
    destruct (SFpow2_canonical (Z.max (ep - 1) (-1074)) ltac:(lia)) as (mB & eB & _ & HcB & HvB).
    pose proof (pow2_pos (ez + 1075) ltac:(lia)) as Hpz.
    assert (Hbound : 2 ^ (Z.max (ep - 1) (-1074) + 1075) <= Zpos d * 2 ^ (ez + 1075)).
    { destruct (Z_le_gt_dec ep ev) as [Hle|Hgt].
      - assert (Hez : ez = ep) by (unfold ez; lia). rewrite Hez.
        apply Z.le_trans with (1 * 2 ^ (ep + 1075)); [|apply Z.mul_le_mono_nonneg_r; lia].
        rewrite Z.mul_1_l. apply Z.pow_le_mono_r; lia.
      - assert (Hez : ez = ev) by (unfold ez; lia).
        destruct (canonical_digits _ _ Hcp) as (_ & _ & Hdp). specialize (Hdp ltac:(lia)).
        destruct (canonical_digits _ _ Hcv) as (_ & Hdv & _).
        destruct (Zdigits2_bounds (Zpos mp) ltac:(lia)) as [Hlo _].
        destruct (Zdigits2_bounds (Zpos mv) ltac:(lia)) as [_ Hhi].
        rewrite Hdp in Hlo. change (2 ^ (53 - 1)) with 4503599627370496 in Hlo.
        assert (Hmv : Zpos mv < 9007199254740992).
        { eapply Z.lt_le_trans; [exact Hhi|]. change 9007199254740992 with (2 ^ 53).
          apply Z.pow_le_mono_r; lia. }
        replace (Z.max (ep - 1) (-1074)) with (ep - 1) by lia.
        unfold V, P in Hd. rewrite Hez in Hd |- *.
        rewrite Z.sub_diag, Z.pow_0_r, Z.mul_1_r in Hd.
        pose proof (pow2_pos (ep - ev - 1) ltac:(lia)) as HT.
        assert (Hk : 2 ^ (ep - ev) = 2 * 2 ^ (ep - ev - 1)).
        { rewrite <- Z.pow_succ_r by lia. f_equal. lia. }
        assert (HdT : 2 ^ (ep - ev - 1) <= Zpos d) by nia.
        apply Z.le_trans with (2 ^ (ep - ev - 1) * 2 ^ (ev + 1075));
          [|apply Z.mul_le_mono_nonneg_r; lia].
        rewrite <- Z.pow_add_r by lia. apply Z.pow_le_mono_r; lia. }
    destruct (Hge mB eB HcB ltac:(rewrite HvB; exact Hbound)) as [->|(mq & eq & -> & Hq)].
    + now left.
    + right. exists mq, eq. split; [reflexivity|].
      eapply Z.le_trans; [|exact Hq]. rewrite HvB. apply Z.pow_le_mono_r; lia.
Qed.

(** A negative number at least half the last place of [p] in absolute
    value, divided by [p], does not round to zero. *)
Lemma SFdiv_decline (mq mp : positive) (eq ep : Z) :
  valid_binary (S754_finite true mq eq) = true ->
  valid_binary (S754_finite false mp ep) = true ->
  2 ^ (ep + 1074) <= Zpos mq * 2 ^ (eq + 1075) ->
  SFcompare (SF64div (S754_finite true mq eq) (S754_finite false mp ep)) (S754_zero false)
  = Some Lt.
Proof.
  intros Vq Vp Hle.
  destruct (valid_finite_exponent _ _ _ Vq) as (Hcq & Heq & _).
  destruct (valid_finite_exponent _ _ _ Vp) as (Hcp & Hep & _).
  destruct (canonical_digits _ _ Hcq) as (_ & Hdq & _).
  destruct (canonical_digits _ _ Hcp) as (_ & Hdp & _).
  pose proof (Zdigits2_pos (Zpos mq) ltac:(lia)) as Hdq0.
  pose proof (Zdigits2_pos (Zpos mp) ltac:(lia)) as Hdp0.
  destruct (Zdigits2_bounds (Zpos mq) ltac:(lia)) as [Hqlo Hqhi].
  destruct (Zdigits2_bounds (Zpos mp) ltac:(lia)) as [_ Hphi].
  assert (Hmag : ep <= Zdigits2 (Zpos mq) + eq).
  { assert (H : 2 ^ (ep + 1074) < 2 ^ (Zdigits2 (Zpos mq) + (eq + 1075))).
    { eapply Z.le_lt_trans; [exact Hle|].
      rewrite (Z.pow_add_r 2 (Zdigits2 (Zpos mq)) (eq + 1075)) by lia.
      apply Z.mul_lt_mono_pos_r; [apply pow2_pos; lia|exact Hqhi]. }
    apply Z.pow_lt_mono_r_iff in H; lia. }
  unfold SF64div, SFdiv, SFdiv_core_binary. cbn [xorb].
  set (F := fexp64 (Zdigits2 (Zpos mq) + eq - (Zdigits2 (Zpos mp) + ep))).
  assert (HF : F = Zdigits2 (Zpos mq) + eq - (Zdigits2 (Zpos mp) + ep) - 53)
    by (unfold F; rewrite fexp64_eq; lia).
  set (e' := Z.min F (eq - ep)).
  assert (He' : -1074 <= e') by (unfold e'; lia).
  assert (Hs : 53 + Zdigits2 (Zpos mp) - Zdigits2 (Zpos mq) <= eq - ep - e')
    by (unfold e'; lia).
  set (M := match eq - ep - e' with
            | 0 => Zpos mq
            | Zpos _ => Z.shiftl (Zpos mq) (eq - ep - e')
            | Zneg _ => 0
            end).
  assert (HM : M = Zpos mq * 2 ^ (eq - ep - e')).
  { unfold M. destruct (eq - ep - e') as [|p|p] eqn:Es; try lia.
    apply Z.shiftl_mul_pow2. lia. }
  clearbody M.
  assert (HMp : Zpos mp <= M).
  { rewrite HM.
    apply Z.le_trans with (2 ^ (Zdigits2 (Zpos mq) - 1)
                           * 2 ^ (53 + Zdigits2 (Zpos mp) - Zdigits2 (Zpos mq))).
    - rewrite <- Z.pow_add_r by lia.
      apply Z.le_trans with (2 ^ Zdigits2 (Zpos mp)); [lia|]. apply Z.pow_le_mono_r; lia.
    - apply Z.mul_le_mono_nonneg;
        [apply Z.lt_le_incl, pow2_pos; lia | exact Hqlo
        |apply Z.lt_le_incl, pow2_pos; lia | apply Z.pow_le_mono_r; lia]. }
  pose proof (Z_div_mod M (Zpos mp) ltac:(lia)) as Hdiv.
  destruct (Z.div_eucl M (Zpos mp)) as [q r]. destruct Hdiv as [Hqr Hr].
  assert (Hq : 0 < q) by nia.
  destruct (binary_round_aux_nonzero true q e' (new_location (Zpos mp) r) Hq He')
    as [->|(m & e & ->)]; reflexivity.
Qed.

End Values.

(** ** Signs of differences, products and quotients *)

(** The sign of a difference is the order of its operands, unless the
    difference is NaN. *)
Lemma SFsub_compare (x y : spec_float) :
  valid_binary x = true -> valid_binary y = true ->
  SF64sub x y = S754_nan
  \/ SFcompare (SF64sub x y) (S754_zero false) = SFcompare x y.
Proof.
  intros Hx Hy.
  destruct x as [sx|sx| |sx mx ex], y as [sy|sy| |sy my ey];
    try (left; reflexivity);
    try (right; destruct sx; try destruct sy; reflexivity);
    try (destruct sx, sy; (left; reflexivity) || (right; reflexivity)).
  right.
  destruct (valid_binary_finite _ _ _ Hx) as [Hcx _].
    destruct (valid_binary_finite _ _ _ Hy) as [Hcy _].
    rewrite (SFcompare_aligned sx sy mx my ex ey Hcx Hcy).
    unfold SF64sub, SFsub.
    set (ez := Z.min ex ey).
    destruct (shl_align_spec mx ex ez) as [_ HX].
    destruct (shl_align_spec my ey ez) as [_ HY].
    replace (Z.min ex ez) with ez in HX by lia.
    replace (Z.min ey ez) with ez in HY by lia.
    rewrite HX, HY.
    set (X := cond_Zopp sx (Zpos mx * 2 ^ (ex - ez))%Z).
    set (Y := cond_Zopp sy (Zpos my * 2 ^ (ey - ez))%Z).
    rewrite (Z.compare_sub X Y).
    destruct (canonical_digits _ _ Hcx) as (Hex & _).
    destruct (canonical_digits _ _ Hcy) as (Hey & _).
    destruct (X - Y)%Z as [|d|d]; cbn [binary_normalize].
    + reflexivity.
    + destruct (binary_round_nonzero false d ez ltac:(lia)) as [->|(m & e & ->)]; reflexivity.
    + destruct (binary_round_nonzero true d ez ltac:(lia)) as [->|(m & e & ->)]; reflexivity.
Qed.

Lemma sub_compare (x y : float) :
  is_nan (x - y) = true
  \/ SFcompare (Prim2SF (x - y)) (Prim2SF 0) = SFcompare (Prim2SF x) (Prim2SF y).
Proof.
  destruct (SFsub_compare (Prim2SF x) (Prim2SF y) (Prim2SF_valid x) (Prim2SF_valid y))
    as [H|H].
  - left. apply is_nan_Prim2SF. rewrite sub_spec. exact H.
  - right. rewrite sub_spec. exact H.
Qed.

(** A positive difference: the first operand is the larger one. *)
Lemma sub_pos_ltb (x y : float) : (0 <? x - y) = true -> (y <? x) = true.
Proof.
  intros H. destruct (sub_compare x y) as [Hn|Hc].
  - apply ltb_true_not_nan in H. destruct H; congruence.
  - revert H. rewrite !FloatAxioms.ltb_spec. unfold SFltb.
    rewrite (SFcompare_swap (Prim2SF (x - y)) (Prim2SF 0)), Hc,
      (SFcompare_swap (Prim2SF x) (Prim2SF y)). trivial.
Qed.

Lemma sub_neg_ltb (x y : float) : (x - y <? 0) = true -> (x <? y) = true.
Proof.
  intros H. destruct (sub_compare x y) as [Hn|Hc].
  - apply ltb_true_not_nan in H. destruct H; congruence.
  - revert H. rewrite !FloatAxioms.ltb_spec. unfold SFltb. rewrite Hc. trivial.
Qed.

(** The difference of two finite numbers is positive exactly when the
    first is the larger one: it is never rounded to zero. *)
Lemma sub_pos_finite (x y : float) :
  is_finite x = true -> is_finite y = true -> (0 <? x - y) = (y <? x).
Proof.
  intros Hx Hy.
  assert (Hc : SFcompare (Prim2SF (x - y)) (Prim2SF 0) = SFcompare (Prim2SF x) (Prim2SF y)).
  { rewrite sub_spec.
    destruct (SFsub_compare (Prim2SF x) (Prim2SF y) (Prim2SF_valid x) (Prim2SF_valid y))
      as [H|H]; [|exact H].
    exfalso.
    destruct (is_finite_Prim2SF x Hx) as [[sx Ex]|(sx & mx & ex & Ex)],
             (is_finite_Prim2SF y Hy) as [[sy Ey]|(sy & my & ey & Ey)];
      rewrite Ex, Ey in H.
    - destruct sx, sy; discriminate.
    - discriminate.
    - discriminate.
    - pose proof (Prim2SF_valid x) as Vx. pose proof (Prim2SF_valid y) as Vy.
      rewrite Ex in Vx. rewrite Ey in Vy.
      destruct (valid_binary_finite _ _ _ Vx) as [Hcx _].
      destruct (valid_binary_finite _ _ _ Vy) as [Hcy _].
      destruct (canonical_digits _ _ Hcx) as (Hex & _).
      destruct (canonical_digits _ _ Hcy) as (Hey & _).
      unfold SF64sub, SFsub in H.
      destruct (_ - _)%Z as [|d|d]; cbn [binary_normalize] in H; try discriminate.
      + destruct (binary_round_nonzero false d (Z.min ex ey) ltac:(lia)) as [E|(m & e & E)];
          rewrite E in H; discriminate.
      + destruct (binary_round_nonzero true d (Z.min ex ey) ltac:(lia)) as [E|(m & e & E)];
          rewrite E in H; discriminate. }
  rewrite !FloatAxioms.ltb_spec. unfold SFltb.
  rewrite (SFcompare_swap (Prim2SF (x - y)) (Prim2SF 0)), Hc,
    (SFcompare_swap (Prim2SF x) (Prim2SF y)). reflexivity.
Qed.

Lemma sub_self (t : float) : is_finite t = true -> t - t = 0.
Proof.
  intros H. apply Prim2SF_inj. rewrite sub_spec.
  destruct (is_finite_Prim2SF t H) as [[s E]|(s & m & e & E)]; rewrite E.
  - destruct s; reflexivity.
  - unfold SF64sub, SFsub. rewrite Z.sub_diag. reflexivity.
Qed.

(** The square of a number that is not within the tolerance of zero is
    positive: it is not rounded to zero. *)
Lemma mul_self_pos (c : float) :
  is_nan c = false -> (abs c <? tolerance) = false -> (0 <? c * c) = true.
Proof.
  rewrite !FloatAxioms.ltb_spec, mul_spec, abs_spec. intros Hn Ht.
  assert (Etol : Prim2SF tolerance = S754_finite false 4722366482869645 (-72))
    by (vm_compute; reflexivity).
  rewrite Etol in Ht. clear Etol.
  apply not_nan_Prim2SF in Hn.
  destruct (Prim2SF c) as [s|s| |s m e]; try congruence.
  - discriminate Ht.
  - destruct s; reflexivity.
  - assert (He : (-72 <= e)%Z).
    { destruct (Z_le_gt_dec (-72) e) as [Hle|Hgt]; [exact Hle|]. exfalso.
      revert Ht. unfold SFltb. cbn [SFabs SFcompare].
      replace (e ?= -72)%Z with Lt by (symmetry; apply Z.compare_lt_iff; lia).
      discriminate. }
    unfold SF64mul, SFmul. rewrite xorb_nilpotent.
    destruct (binary_round_aux_nonzero false (Zpos (m * m)) (e + e) loc_Exact)
      as [->|(m' & e' & ->)]; try lia; reflexivity.
Qed.

(** A positive product has two factors of the same sign, neither of them
    zero. *)
Lemma mul_pos_same_sign (a b : float) :
  (0 <? a * b) = true ->
  (0 <? a) = true /\ (0 <? b) = true \/ (a <? 0) = true /\ (b <? 0) = true.
Proof.
  rewrite !FloatAxioms.ltb_spec, mul_spec. unfold SFltb.
  change (Prim2SF 0) with (S754_zero false).
  destruct (Prim2SF a) as [sa|sa| |sa ma ea], (Prim2SF b) as [sb|sb| |sb mb eb];
    try (cbn; discriminate);
    try solve [destruct sa, sb; cbn; first [discriminate|auto]].
  unfold SF64mul, SFmul.
  destruct (binary_round_aux_sign (xorb sa sb) (Zpos (ma * mb)) (ea + eb) loc_Exact)
    as [E|[E|[E|(m & e & E)]]]; rewrite E; destruct sa, sb; cbn; first [discriminate|auto].
Qed.

(** The sign of a quotient whose divisor is at least 1e-10 is the sign of
    its numerator. *)
Lemma SFdiv_sign (a v : spec_float) (c : comparison) :
  SFltb v (Prim2SF 1e-10) = false ->
  SFcompare (SF64div a v) (S754_zero false) = Some c ->
  c <> Eq ->
  SFcompare a (S754_zero false) = Some c.
Proof.
  intros Hv Hc Hne.
  destruct v as [sv|[|]| |[|] mv ev]; try discriminate Hv.
  - destruct a as [sa|sa| |sa ma ea]; cbn in Hc; try discriminate Hc;
      injection Hc as <-; congruence.
  - destruct a as [sa|sa| |sa ma ea]; cbn in Hc; try discriminate Hc;
      try (injection Hc as <-; congruence).
  - destruct a as [sa|sa| |sa ma ea]; try (cbn in Hc; discriminate Hc);
      try (cbn in Hc; injection Hc as <-; congruence).
    + rewrite <- Hc. destruct sa; reflexivity.
    + unfold SF64div, SFdiv in Hc.
      destruct (SFdiv_core_binary prec emax (Zpos ma) ea (Zpos mv) ev) as [[mz ez] lz].
      rewrite xorb_false_r in Hc.
      destruct (binary_round_aux_sign sa mz ez lz) as [E|[E|[E|(m & e & E)]]];
        rewrite E in Hc; cbn in Hc; try discriminate Hc.
      * injection Hc as <-. congruence.
      * rewrite <- Hc. reflexivity.
      * rewrite <- Hc. reflexivity.
Qed.

Lemma div_pos_numerator (a v : float) :
  (v <? 1e-10) = false -> (0 <? a / v) = true -> (0 <? a) = true.
Proof.
  rewrite !FloatAxioms.ltb_spec, div_spec. unfold SFltb at 2 3.
  rewrite (SFcompare_swap (SF64div _ _)), (SFcompare_swap (Prim2SF a)).
  change (Prim2SF 0) with (S754_zero false).
  intros Hv H.
  destruct (SFcompare (SF64div (Prim2SF a) (Prim2SF v)) (S754_zero false)) as [c|] eqn:Hc;
    [|discriminate H].
  rewrite (SFdiv_sign _ _ c Hv Hc); [exact H|]. intros ->. discriminate H.
Qed.

Lemma div_neg_numerator (a v : float) :
  (v <? 1e-10) = false -> (a / v <? 0) = true -> (a <? 0) = true.
Proof.
  rewrite !FloatAxioms.ltb_spec, div_spec. unfold SFltb at 2 3.
  change (Prim2SF 0) with (S754_zero false).
  intros Hv H.
  destruct (SFcompare (SF64div (Prim2SF a) (Prim2SF v)) (S754_zero false)) as [c|] eqn:Hc;
    [|discriminate H].
  rewrite (SFdiv_sign _ _ c Hv Hc); [exact H|]. intros ->. discriminate H.
Qed.

(** ** Finite numbers and their values *)

Lemma SFfinite_is_finite (x : float) :
  is_finite x = true <-> SFfinite (Prim2SF x) = true.
Proof.
  split.
  - intros H. destruct (is_finite_Prim2SF x H) as [[s ->]|(s & m & e & ->)]; reflexivity.
  - intros H. unfold is_finite, is_nan, is_infinity.
    rewrite !FloatAxioms.eqb_spec, abs_spec.
    destruct (Prim2SF x) as [s|s| |s m e]; try discriminate H.
    + destruct s; reflexivity.
    + unfold SFeqb. rewrite SFcompare_refl by discriminate. reflexivity.
Qed.

Lemma leb_value (x y : float) :
  is_finite x = true -> is_finite y = true ->
  (x <=? y) = (SFval (Prim2SF x) <=? SFval (Prim2SF y))%Z.
Proof.
  intros Hx Hy. rewrite FloatAxioms.leb_spec. unfold SFleb.
  rewrite (SFcompare_value _ _ (Prim2SF_valid x) (Prim2SF_valid y))
    by now apply SFfinite_is_finite.
  unfold Z.leb. destruct (_ ?= _)%Z; reflexivity.
Qed.

Lemma ltb_value (x y : float) :
  is_finite x = true -> is_finite y = true ->
  (x <? y) = (SFval (Prim2SF x) <? SFval (Prim2SF y))%Z.
Proof.
  intros Hx Hy. rewrite FloatAxioms.ltb_spec. unfold SFltb.
  rewrite (SFcompare_value _ _ (Prim2SF_valid x) (Prim2SF_valid y))
    by now apply SFfinite_is_finite.
  unfold Z.ltb. destruct (_ ?= _)%Z; reflexivity.
Qed.

(** A number between two finite numbers is finite. *)
Lemma between_finite (a x b : float) :
  is_finite a = true -> is_finite b = true ->
  (a <=? x) = true -> (x <=? b) = true -> is_finite x = true.
Proof.
  intros Ha Hb. rewrite !SFfinite_is_finite in *.
  rewrite !FloatAxioms.leb_spec. unfold SFleb.
  destruct (Prim2SF a) as [sa|sa| |sa ma ea]; try discriminate Ha;
    destruct (Prim2SF b) as [sb|sb| |sb mb eb]; try discriminate Hb;
    destruct (Prim2SF x) as [s|[|]| |s m e]; cbn; congruence.
Qed.

(** ** The drawdown of a value below the peak *)

(** The drawdown of a value below the running peak is negative. *)
Lemma drawdown_negative (v peak : float) :
  is_finite v = true -> is_finite peak = true ->
  (0 <=? v) = true -> (v <? peak) = true ->
  ((v - peak) / peak <? 0) = true.
Proof.
  intros Fv Fp Hv Hlt.
  pose proof (validValue_SFnonneg v (nonneg_validValue v Hv)) as Nv.
  pose proof (Prim2SF_valid v) as Vv. pose proof (Prim2SF_valid peak) as Vp.
  pose proof (Prim2SF_valid (v - peak)) as Vq.
  apply SFfinite_is_finite in Fv, Fp.
  rewrite FloatAxioms.ltb_spec in Hlt. unfold SFltb in Hlt.
  rewrite FloatAxioms.ltb_spec, div_spec. unfold SFltb.
  rewrite sub_spec in *. change (Prim2SF 0) with (S754_zero false).
  destruct (Prim2SF peak) as [sp|sp| |sp mp ep]; try discriminate Fp.
  { destruct (Prim2SF v) as [sv|sv| |[|] mv ev]; discriminate. }
  destruct sp.
  { destruct (Prim2SF v) as [sv|sv| |[|] mv ev]; discriminate. }
  assert (Hc : SFcompare (Prim2SF v) (S754_finite false mp ep) = Some Lt).
  { destruct (SFcompare (Prim2SF v) (S754_finite false mp ep)) as [[]|]; congruence. }
  destruct (SFsub_decline (Prim2SF v) mp ep Vv Vp Nv Fv Hc) as [E|(mq & eq & E & Hq)];
    rewrite E in *.
  - reflexivity.
  - now rewrite (SFdiv_decline mq mp eq ep Vq Vp Hq).
Qed.

(** * Further properties of the program

    What the validations accept and which error they raise, how the search
    of [calculateXIRR] behaves on every input, and what the scans of the
    other metrics compute. *)

(** ** calculateCAGR and calculateYears *)

(** X1: the outcomes of calculateCAGR, by its argument checks in their
    order: initial value, final value, start date, end date, the order of
    the two dates, and the expense ratio when one is given.  Each error
    means that the checks before it passed, and a result that all of them
    did; equal dates are rejected, and so is an expense ratio of 1 or
    [null]. *)
Theorem cagr_outcomes :
  forall (pow_approx : float -> float -> float)
         (initialValue finalValue startDate endDate expenseRatio : value),
    match calculateCAGR pow_approx initialValue finalValue startDate endDate expenseRatio with
    | Throw (MustBePositiveNumber label) =>
        label = "Initial value" /\ positiveNumber initialValue = false
    | Throw (MustBeNonNegativeNumber label) =>
        label = "Final value"
        /\ positiveNumber initialValue = true /\ nonNegativeNumber finalValue = false
    | Throw (MustBeValidDate label) =>
        positiveNumber initialValue = true /\ nonNegativeNumber finalValue = true
        /\ (label = "Start date" /\ validDateObject startDate = false
            \/ label = "End date" /\ validDateObject startDate = true
               /\ validDateObject endDate = false)
    | Throw StartNotBeforeEnd =>
        positiveNumber initialValue = true /\ nonNegativeNumber finalValue = true
        /\ validDateObject startDate = true /\ validDateObject endDate = true
        /\ (num endDate <=? num startDate) = true
    | Throw ExpenseRatioOutOfRange =>
        positiveNumber initialValue = true /\ nonNegativeNumber finalValue = true
        /\ validDateObject startDate = true /\ validDateObject endDate = true
        /\ (num startDate <? num endDate) = true
        /\ expenseRatio <> VUndefined /\ expenseRatioInRange expenseRatio = false
    | Ok _ =>
        positiveNumber initialValue = true /\ nonNegativeNumber finalValue = true
        /\ validDateObject startDate = true /\ validDateObject endDate = true
        /\ (num startDate <? num endDate) = true
        /\ (expenseRatio = VUndefined \/ expenseRatioInRange expenseRatio = true)
    | Throw _ => False
    end.
Proof.
  intros pw iv fv sd ed er. unfold calculateCAGR.
  unfold validatePositiveNumber, positiveNumber.
  destruct (is_number iv); cbn [negb orb andb bind]; [|auto].
  destruct (num iv <=? 0); cbn [negb bind]; [auto|].
  unfold validateNonNegativeNumber, nonNegativeNumber.
  destruct (is_number fv); cbn [negb orb andb bind]; [|auto].
  destruct (num fv <? 0); cbn [negb bind]; [auto|].
  unfold validateDate, validDateObject.
  destruct (is_Date sd); cbn [negb orb andb bind]; [|auto].
  destruct (is_nan (num sd)) eqn:Hsd; cbn [negb bind]; [auto|].
  destruct (is_Date ed); cbn [negb orb andb bind]; [|auto 10].
  destruct (is_nan (num ed)) eqn:Hed; cbn [negb bind]; [auto 10|].
  destruct (num ed <=? num sd) eqn:Hord; [auto 10|].
  assert (Hlt : (num sd <? num ed) = true).
  { destruct (num sd <? num ed) eqn:E; [reflexivity|].
    apply ltb_false_leb_true in E; congruence. }
  assert (Her : match er with VUndefined => Ok tt | _ => validateExpenseRatio er end
                = if match er with VUndefined => true | _ => expenseRatioInRange er end
                  then Ok tt else Throw ExpenseRatioOutOfRange).
  { unfold validateExpenseRatio, expenseRatioInRange.
    destruct er; try reflexivity.
    cbn [is_number num negb orb andb]. destruct (x <? 0), (1 <=? x); reflexivity. }
  rewrite Her.
  destruct er; cbn [bind];
    try (destruct (num fv =? 0); repeat split; auto; fail);
    try (repeat split; auto; discriminate).
  destruct (expenseRatioInRange (VNumber x)) eqn:Hrange; cbn [bind].
  - destruct (num fv =? 0); repeat split; auto.
  - repeat split; auto. discriminate.
Qed.

(** X2: the sign of calculateYears is the order of its dates: a positive
    number of years means that the start date is before the end date, a
    negative one that it is after it; and for a start date before the end
    date the result is never negative. *)
Theorem calculateYears_sign :
  forall startDate endDate : float,
    ((0 <? calculateYears startDate endDate) = true -> (startDate <? endDate) = true)
    /\ ((calculateYears startDate endDate <? 0) = true -> (endDate <? startDate) = true)
    /\ ((startDate <? endDate) = true -> (calculateYears startDate endDate <? 0) = false).
Proof.
  intros s e. unfold calculateYears.
  assert (Hk : (msPerYear <? 1e-10) = false) by reflexivity.
  assert (Hpos : (0 <? (e - s) / msPerYear) = true -> (s <? e) = true).
  { intros H. apply sub_pos_ltb. now apply (div_pos_numerator _ msPerYear). }
  assert (Hneg : ((e - s) / msPerYear <? 0) = true -> (e <? s) = true).
  { intros H. apply sub_neg_ltb. now apply (div_neg_numerator _ msPerYear). }
  repeat split; auto.
  intros Hlt. destruct ((e - s) / msPerYear <? 0) eqn:E; [|reflexivity].
  specialize (Hneg eq_refl). apply ltb_true_ltb_false in Hlt. congruence.
Qed.

Lemma calculateYears_sign_witness : (0 <? oneYear) = true.
Proof.
  apply (proj1 (calculateYears_sign 0 oneYear)). reflexivity.
Defined.

(** ** calculateXIRR: what the validation loop accepts *)

Lemma wellFormedCashflow_guards (cf : value) :
  wellFormedCashflow cf
  <-> (negb (truthy cf) || negb (is_object cf)
       || negb (truthy (get cf "date")) || negb (truthy (get cf "amount"))) = false
      /\ (negb (is_Date (get cf "date")) || is_nan (num (get cf "date"))) = false
      /\ (negb (is_number (get cf "amount")) || is_nan (num (get cf "amount"))) = false.
Proof.
  split.
  - intros (props & t & a & -> & Hd & Ha & Ht & Hn & Hz).
    cbn [get truthy is_object]. rewrite Hd, Ha. cbn. rewrite Ht, Hn, Hz. auto.
  - intros (H1 & H2 & H3).
    repeat (apply orb_false_iff in H1; destruct H1 as [H1 ?]).
    apply orb_false_iff in H2, H3. destruct H2 as [Hd Ht], H3 as [Ha Hn].
    destruct cf as [| | | | | |props|]; try discriminate.
    cbn [get] in *.
    destruct (lookup "date" props) as [| | | | |t| |] eqn:Ed; try discriminate.
    destruct (lookup "amount" props) as [| | |a| | | |] eqn:Ea; try discriminate.
    exists props, t, a. cbn [num truthy] in *.
    repeat split; auto.
    destruct (a =? 0); [discriminate|reflexivity].
Qed.

(** One iteration of the validation loop on an entry it accepts. *)
Lemma validateCashflows_accept (cf : value) (rest : list value) (i : nat)
    (valid : list cashflow) (hasPositive hasNegative : bool) :
  wellFormedCashflow cf ->
  validateCashflows i (cf :: rest) valid hasPositive hasNegative
  = validateCashflows (S i) rest (valid ++ [copyOf cf])
      (hasPositive || (0 <? amount (copyOf cf)))
      (hasNegative || (amount (copyOf cf) <? 0)).
Proof.
  intros H. apply wellFormedCashflow_guards in H. destruct H as (H1 & H2 & H3).
  cbn [validateCashflows]. rewrite H1, H2, H3. unfold copyOf. cbn [amount].
  f_equal.
  - destruct (0 <? _), hasPositive; reflexivity.
  - destruct (_ <? 0), hasNegative; reflexivity.
Qed.

(** One iteration on an entry it rejects. *)
Lemma validateCashflows_reject (cf : value) (rest : list value) (i : nat)
    (valid : list cashflow) (hasPositive hasNegative : bool) :
  ~ wellFormedCashflow cf ->
  exists e,
    validateCashflows i (cf :: rest) valid hasPositive hasNegative = Throw e
    /\ (e = CashflowMissingProperties i
        \/ e = CashflowInvalidDate i
        \/ e = CashflowInvalidAmount i /\ is_number (get cf "amount") = false).
Proof.
  intros H. rewrite wellFormedCashflow_guards in H. cbn [validateCashflows].
  destruct (negb (truthy cf) || negb (is_object cf)
            || negb (truthy (get cf "date")) || negb (truthy (get cf "amount"))) eqn:H1;
    [eauto|].
  destruct (negb (is_Date (get cf "date")) || is_nan (num (get cf "date"))) eqn:H2;
    [eauto|].
  destruct (negb (is_number (get cf "amount")) || is_nan (num (get cf "amount"))) eqn:H3;
    [|tauto].
  eexists. split; [reflexivity|]. right. right. split; [reflexivity|].
  apply orb_false_iff in H1. destruct H1 as [_ Ht].
  destruct (get cf "amount") as [| | |a| | | |]; try reflexivity.
  cbn [truthy num is_number negb orb] in *. rewrite H3 in Ht.
  rewrite andb_false_r in Ht. discriminate.
Qed.

Lemma wellFormedCashflow_dec (cf : value) :
  wellFormedCashflow cf \/ ~ wellFormedCashflow cf.
Proof.
  rewrite wellFormedCashflow_guards.
  destruct (_ || _ || _ || _); [right; intros (H & _); discriminate|].
  destruct (_ || _); [right; intros (_ & H & _); discriminate|].
  destruct (_ || _); [right; intros (_ & _ & H); discriminate|].
  now left.
Qed.

(** The whole loop on an array of accepted entries. *)
Lemma validateCashflows_wellFormed (elems : list value) :
  Forall wellFormedCashflow elems ->
  forall i valid hasPositive hasNegative,
    validateCashflows i elems valid hasPositive hasNegative
    = Ok (valid ++ map copyOf elems,
          hasPositive || existsb (fun cf => 0 <? amount cf) (map copyOf elems),
          hasNegative || existsb (fun cf => amount cf <? 0) (map copyOf elems)).
Proof.
  induction 1 as [|cf rest Hcf Hrest IH]; intros i valid hp hn.
  - cbn. now rewrite app_nil_r, !orb_false_r.
  - rewrite validateCashflows_accept by assumption. rewrite IH.
    cbn [map existsb]. rewrite <- app_assoc, !orb_assoc. reflexivity.
Qed.

(** The loop stops at the first entry that is not accepted. *)
Lemma validateCashflows_outcome (elems : list value) :
  forall i valid hasPositive hasNegative,
    Forall wellFormedCashflow elems
    \/ exists j cf e,
         nth_error elems j = Some cf
         /\ Forall wellFormedCashflow (firstn j elems)
         /\ ~ wellFormedCashflow cf
         /\ validateCashflows i elems valid hasPositive hasNegative = Throw e
         /\ (e = CashflowMissingProperties (i + j)
             \/ e = CashflowInvalidDate (i + j)
             \/ e = CashflowInvalidAmount (i + j) /\ is_number (get cf "amount") = false).
Proof.
  induction elems as [|cf rest IH]; intros i valid hp hn; [left; constructor|].
  destruct (wellFormedCashflow_dec cf) as [Hcf|Hcf].
  - destruct (IH (S i) (valid ++ [copyOf cf]) (hp || (0 <? amount (copyOf cf)))
                (hn || (amount (copyOf cf) <? 0)))
      as [Hall|(j & cf' & e & Hnth & Hpre & Hbad & Hthrow & He)].
    + left. now constructor.
    + right. exists (S j), cf', e. cbn [nth_error firstn].
      rewrite validateCashflows_accept by assumption.
      replace (i + S j)%nat with (S i + j)%nat by lia.
      repeat split; auto.
  - right. exists 0%nat, cf.
    destruct (validateCashflows_reject cf rest i valid hp hn Hcf) as (e & Hthrow & He).
    exists e. cbn [nth_error firstn]. rewrite Nat.add_0_r. repeat split; auto.
Qed.

(** [calculateXIRR] on an array of accepted entries. *)
Lemma calculateXIRR_traced_wellFormed (pow_approx : float -> float -> float)
    (elems : list value) :
  Forall wellFormedCashflow elems ->
  calculateXIRR_traced pow_approx (VArray elems)
  = if (List.length elems <? 2)%nat then ([], Throw CashflowsTooShort)
    else solveXIRR pow_approx (map copyOf elems)
           (existsb (fun cf => 0 <? amount cf) (map copyOf elems))
           (existsb (fun cf => amount cf <? 0) (map copyOf elems)).
Proof.
  intros Hall. unfold calculateXIRR_traced.
  now rewrite (validateCashflows_wellFormed elems Hall).
Qed.

(** X3: the validation loop of calculateXIRR accepts an array exactly when
    every entry is a plain object whose date is a valid Date and whose
    amount is a number other than NaN and zero; it then holds a copy of
    every entry, in the order of the array, and has seen a positive and a
    negative amount exactly when the array has one. *)
Theorem validation_accepts_wellFormed :
  forall (elems : list value) (valid : list cashflow) (hasPositive hasNegative : bool),
    validateCashflows 0 elems [] false false = Ok (valid, hasPositive, hasNegative)
    <-> Forall wellFormedCashflow elems
        /\ valid = map copyOf elems
        /\ hasPositive = existsb (fun cf => 0 <? amount cf) valid
        /\ hasNegative = existsb (fun cf => amount cf <? 0) valid.
Proof.
  intros elems valid hp hn. split.
  - intros H.
    destruct (validateCashflows_outcome elems 0 [] false false)
      as [Hall|(j & cf & e & _ & _ & _ & Hthrow & _)]; [|congruence].
    rewrite (validateCashflows_wellFormed elems Hall) in H. cbn in H.
    injection H as <- <- <-. auto.
  - intros (Hall & -> & -> & ->).
    now rewrite (validateCashflows_wellFormed elems Hall).
Qed.

(** X4: when an entry of the array is not accepted, calculateXIRR fails
    before any net present value is evaluated, and the error names the
    index of the first such entry.  An amount that is NaN or zero is
    reported as missing properties: the invalid-amount error is raised
    only for an amount that is not a number. *)
Theorem xirr_first_rejected_entry :
  forall (pow_approx : float -> float -> float) (elems : list value),
    (2 <= List.length elems)%nat ->
    ~ Forall wellFormedCashflow elems ->
    exists j cf e,
      nth_error elems j = Some cf
      /\ Forall wellFormedCashflow (firstn j elems)
      /\ ~ wellFormedCashflow cf
      /\ calculateXIRR_traced pow_approx (VArray elems) = ([], Throw e)
      /\ (e = CashflowMissingProperties j
          \/ e = CashflowInvalidDate j
          \/ e = CashflowInvalidAmount j /\ is_number (get cf "amount") = false).
Proof.
  intros pw elems Hlen Hbad.
  destruct (validateCashflows_outcome elems 0 [] false false)
    as [Hall|(j & cf & e & Hnth & Hpre & Hcf & Hthrow & He)]; [contradiction|].
  exists j, cf, e. cbn [Nat.add] in He. repeat split; auto.
  cbn [calculateXIRR_traced].
  replace (List.length elems <? 2)%nat with false by (symmetry; apply Nat.ltb_ge; lia).
  now rewrite Hthrow.
Qed.

Lemma xirr_first_rejected_entry_witness :
  exists j cf e,
    nth_error [cashflowObject 0 (-1000); cashflowObject oneYear nan] j = Some cf
    /\ Forall wellFormedCashflow (firstn j [cashflowObject 0 (-1000); cashflowObject oneYear nan])
    /\ ~ wellFormedCashflow cf
    /\ calculateXIRR_traced (fun x _ => x)
         (VArray [cashflowObject 0 (-1000); cashflowObject oneYear nan]) = ([], Throw e)
    /\ (e = CashflowMissingProperties j
        \/ e = CashflowInvalidDate j
        \/ e = CashflowInvalidAmount j /\ is_number (get cf "amount") = false).
Proof.
  apply (xirr_first_rejected_entry (fun x _ => x)
           [cashflowObject 0 (-1000); cashflowObject oneYear nan]).
  - simpl. lia.
  - intros H. inversion H as [|? ? _ H']; subst. inversion H' as [|? ? Hcf _]; subst.
    apply wellFormedCashflow_guards in Hcf. destruct Hcf as (Hcf & _).
    vm_compute in Hcf. discriminate.
Defined.



(** ** calculateXIRR: the order of the input array *)

(** The comparator of the sort on two cashflows with finite dates. *)
Lemma compareDates_finite (x y : cashflow) :
  is_finite (date x) = true -> is_finite (date y) = true ->
  (0 <? compareDates x y) = (date y <? date x).
Proof. intros Hx Hy. unfold compareDates. now apply sub_pos_finite. Qed.

Lemma insertByDate_Permutation (x : cashflow) (sorted : list cashflow) :
  Permutation (insertByDate x sorted) (x :: sorted).
Proof.
  induction sorted as [|y rest IH]; cbn [insertByDate]; [reflexivity|].
  destruct (0 <? compareDates x y); [|reflexivity].
  rewrite IH. apply perm_swap.
Qed.

Lemma sortByDate_Permutation (cashflows : list cashflow) :
  Permutation (sortByDate cashflows) cashflows.
Proof.
  induction cashflows as [|x rest IH]; [reflexivity|].
  change (sortByDate (x :: rest)) with (insertByDate x (sortByDate rest)).
  rewrite insertByDate_Permutation. now constructor.
Qed.

(** Two insertions commute when the dates of the two cashflows differ. *)
Lemma insertByDate_comm (x y : cashflow) (sorted : list cashflow) :
  is_finite (date x) = true -> is_finite (date y) = true ->
  finiteDates sorted ->
  (date x <? date y) = true ->
  insertByDate x (insertByDate y sorted) = insertByDate y (insertByDate x sorted).
Proof.
  intros Hx Hy Hs Hxy.
  pose proof (ltb_true_ltb_false _ _ Hxy) as Hyx.
  induction Hs as [|z rest Hz Hrest IH]; cbn [insertByDate].
  - rewrite !compareDates_finite, Hxy, Hyx by assumption. reflexivity.
  - rewrite (compareDates_finite x z), (compareDates_finite y z) by assumption.
    destruct (date z <? date x) eqn:Hzx.
    + rewrite (ltb_trans _ _ _ Hzx Hxy). cbn [insertByDate].
      rewrite (compareDates_finite x z), (compareDates_finite y z), Hzx,
        (ltb_trans _ _ _ Hzx Hxy) by assumption.
      now rewrite IH.
    + destruct (date z <? date y) eqn:Hzy; cbn [insertByDate];
        rewrite ?(compareDates_finite x z), ?(compareDates_finite y z),
          ?(compareDates_finite x y), ?(compareDates_finite y x), ?Hzx, ?Hzy, ?Hxy, ?Hyx
          by assumption; reflexivity.
Qed.

(** The sorted array does not depend on the order of the input when no
    two different cashflows share a date. *)
Lemma sortByDate_Permutation_eq (cashflows cashflows' : list cashflow) :
  Permutation cashflows cashflows' ->
  finiteDates cashflows -> datesIdentify cashflows ->
  sortByDate cashflows = sortByDate cashflows'.
Proof.
  induction 1 as [|x l l' Hp IH|x y l|l l' l'' Hp1 IH1 Hp2 IH2]; intros Hfin Hid.
  - reflexivity.
  - change (insertByDate x (sortByDate l) = insertByDate x (sortByDate l')).
    rewrite IH; [reflexivity|now inversion Hfin|].
    intros a b Ha Hb. apply Hid; now right.
  - change (insertByDate y (insertByDate x (sortByDate l))
            = insertByDate x (insertByDate y (sortByDate l))).
    inversion Hfin as [|? ? Hy Hfin']; subst. inversion Hfin' as [|? ? Hx Hl]; subst.
    assert (Hsorted : finiteDates (sortByDate l)).
    { unfold finiteDates. eapply Permutation_Forall; [|exact Hl].
      symmetry. apply sortByDate_Permutation. }
    destruct (Hid x y) as [->|Hne]; [right; now left|now left|reflexivity|].
    destruct (ltb_total (date x) (date y)) as [Hlt|Hlt];
      auto using is_finite_not_nan.
    + symmetry. now apply insertByDate_comm.
    + now apply insertByDate_comm.
  - rewrite IH1 by assumption. apply IH2.
    + unfold finiteDates. eapply Permutation_Forall; eassumption.
    + intros a b Ha Hb. apply Hid; eapply Permutation_in; try eassumption;
        now symmetry.
Qed.

Lemma existsb_Permutation {A : Type} (p : A -> bool) (l l' : list A) :
  Permutation l l' -> existsb p l = existsb p l'.
Proof.
  induction 1 as [|x l l' _ IH|x y l|l l' l'' _ IH1 _ IH2]; cbn [existsb].
  - reflexivity.
  - now rewrite IH.
  - now rewrite !orb_assoc, (orb_comm (p y)).
  - congruence.
Qed.

(** X6: calculateXIRR does not depend on the order of the cashflow array
    when no two different cashflows share a date: the outcome and the
    rates at which the net present value is evaluated are the same for
    every permutation of an accepted array.  (The time value of a valid
    Date is finite.) *)
Theorem xirr_input_order :
  forall (pow_approx : float -> float -> float) (elems elems' : list value),
    Permutation elems elems' ->
    Forall wellFormedCashflow elems ->
    finiteDates (map copyOf elems) ->
    datesIdentify (map copyOf elems) ->
    calculateXIRR_traced pow_approx (VArray elems)
    = calculateXIRR_traced pow_approx (VArray elems')
    /\ calculateXIRR pow_approx (VArray elems) = calculateXIRR pow_approx (VArray elems').
Proof.
  intros pw elems elems' Hperm Hall Hfin Hid.
  assert (Hall' : Forall wellFormedCashflow elems')
    by (eapply Permutation_Forall; eassumption).
  assert (Hmap : Permutation (map copyOf elems) (map copyOf elems'))
    by now apply Permutation_map.
  assert (Heq : calculateXIRR_traced pw (VArray elems) = calculateXIRR_traced pw (VArray elems')).
  { rewrite !calculateXIRR_traced_wellFormed by assumption.
    rewrite <- (Permutation_length Hperm).
    rewrite <- !(existsb_Permutation _ _ _ Hmap).
    unfold solveXIRR, seriesNpv.
    now rewrite <- (sortByDate_Permutation_eq _ _ Hmap Hfin Hid). }
  split; [exact Heq|]. unfold calculateXIRR. now rewrite Heq.
Qed.

Lemma xirr_input_order_witness :
  calculateXIRR (fun x _ => x) (VArray (seriesOf investment))
  = calculateXIRR (fun x _ => x) (VArray (seriesOf (rev investment))).
Proof.
  apply (xirr_input_order (fun x _ => x) (seriesOf investment) (seriesOf (rev investment))).
  - apply perm_swap.
  - repeat constructor; apply wellFormedCashflow_guards; vm_compute; auto.
  - repeat constructor.
  - intros x y [<-|[<-|[]]] [<-|[<-|[]]];
      first [left; reflexivity|right; vm_compute; reflexivity].
Defined.

(** ** calculateXIRR: what the search evaluates and returns *)

Lemma bisect_length (f : float -> float) (iters : nat) :
  forall low high, (List.length (fst (bisect f iters low high)) <= S iters)%nat.
Proof.
  induction iters as [|iters IH]; intros low high; cbn [bisect].
  - cbn. lia.
  - destruct (abs (f ((low + high) / 2)) <? tolerance); [cbn; lia|].
    destruct (0 <? f ((low + high) / 2)); cbn [fst List.length].
    + specialize (IH ((low + high) / 2) high). lia.
    + specialize (IH low ((low + high) / 2)). lia.
Qed.

Lemma within_tolerance_converged (x : float) :
  (x <? tolerance) = true -> (1e-4 <? x) = false.
Proof.
  intros H. destruct (1e-4 <? x) eqn:E; [|reflexivity].
  pose proof (ltb_trans _ _ _ E H) as Habs. vm_compute in Habs. discriminate.
Qed.

(** A rate the bisection returns is one of its midpoints, the net present
    value was evaluated there, and it does not exceed 1e-4. *)
Lemma bisect_returned (f : float -> float) (iters : nat) :
  forall low high r,
    snd (bisect f iters low high) = Ok r ->
    In r (fst (bisect f iters low high))
    /\ (1e-4 <? abs (f r)) = false
    /\ exists k, (k <= iters)%nat /\ r = midpoint (bracketAfter f (low, high) k).
Proof.
  induction iters as [|iters IH]; intros low high r; cbn [bisect].
  - cbn [fst snd]. destruct (1e-4 <? abs (f ((low + high) / 2))) eqn:E; [discriminate|].
    intros [= <-]. repeat split; [now left|exact E|]. exists 0%nat. split; [lia|reflexivity].
  - destruct (abs (f ((low + high) / 2)) <? tolerance) eqn:E.
    + cbn [fst snd]. intros [= <-]. repeat split; [now left| |].
      * now apply within_tolerance_converged.
      * exists 0%nat. split; [lia|reflexivity].
    + cbn [fst snd]. intros H.
      assert (Hstep : bracketStep f (low, high)
                      = if 0 <? f ((low + high) / 2) then ((low + high) / 2, high)
                        else (low, (low + high) / 2)) by reflexivity.
      destruct (0 <? f ((low + high) / 2)).
      * destruct (IH _ _ _ H) as (Hin & Hconv & k & Hk & Hr).
        repeat split; [now right|exact Hconv|].
        exists (S k). split; [lia|]. now rewrite bracketAfter_succ, Hstep.
      * destruct (IH _ _ _ H) as (Hin & Hconv & k & Hk & Hr).
        repeat split; [now right|exact Hconv|].
        exists (S k). split; [lia|]. now rewrite bracketAfter_succ, Hstep.
Qed.

Lemma findRoot_length (f : float -> float) :
  (List.length (fst (findRoot f)) <= maxIterations + 3)%nat.
Proof.
  destruct (0 <? f low0 * f high0) eqn:Hg.
  - rewrite findRoot_no_root by assumption. cbn [fst List.length]. lia.
  - destruct (findRoot_search f Hg) as [-> _].
    pose proof (bisect_length f maxIterations low0 high0) as Hb. revert Hb.
    generalize (fst (bisect f maxIterations low0 high0)), maxIterations.
    intros trace n Hb. cbn [List.length]. lia.
Qed.

(** X7: calculateXIRR evaluates the net present value at most 103 times,
    whatever its argument: twice for the bracket check, once in each of
    the 100 iterations and once for the final check. *)
Theorem xirr_evaluations_bounded :
  forall (pow_approx : float -> float -> float) (cashflows : value),
    (List.length (fst (calculateXIRR_traced pow_approx cashflows)) <= 103)%nat.
Proof.
  intros pw cashflows.
  destruct cashflows as [| | | | | | |elems]; try (cbn; lia).
  cbn [calculateXIRR_traced].
  destruct (List.length elems <? 2)%nat; [cbn; lia|].
  destruct (validateCashflows 0 elems [] false false) as [[[valid hp] hn]|e]; [|cbn; lia].
  unfold solveXIRR. destruct (negb hp || negb hn); [cbn; lia|].
  exact (findRoot_length (seriesNpv pw valid)).
Qed.

(** What a returned rate says about the run. *)
Lemma calculateXIRR_Ok (pow_approx : float -> float -> float) (cashflows : value)
    (r : float) :
  calculateXIRR pow_approx cashflows = Ok r ->
  exists elems valid,
    cashflows = VArray elems
    /\ validatedSeries elems valid
    /\ valid = map copyOf elems
    /\ (0 <? seriesNpv pow_approx valid low0 * seriesNpv pow_approx valid high0) = false
    /\ fst (calculateXIRR_traced pow_approx cashflows)
       = low0 :: high0 :: fst (bisect (seriesNpv pow_approx valid) maxIterations low0 high0)
    /\ snd (bisect (seriesNpv pow_approx valid) maxIterations low0 high0) = Ok r.
Proof.
  intros H.
  assert (Hex : exists elems valid, cashflows = VArray elems /\ validatedSeries elems valid).
  { unfold calculateXIRR in H.
    destruct cashflows as [| | | | | | |elems]; try discriminate H.
    unfold calculateXIRR_traced in H.
    destruct (List.length elems <? 2)%nat eqn:Hlen; [discriminate H|].
    apply Nat.ltb_ge in Hlen.
    destruct (validateCashflows 0 elems [] false false) as [[[valid hp] hn]|e] eqn:Hv;
      [|discriminate H].
    destruct hp, hn; try discriminate H.
    exists elems, valid. split; [reflexivity|]. split; assumption. }
  destruct Hex as (elems & valid & -> & Hval).
  exists elems, valid.
  assert (Hvalid : valid = map copyOf elems).
  { destruct Hval as [_ Hv].
    destruct (validateCashflows_outcome elems 0 [] false false)
      as [Hall|(j & cf & e & _ & _ & _ & Hthrow & _)]; [|congruence].
    rewrite (validateCashflows_wellFormed elems Hall) in Hv. now injection Hv as <- _ _. }
  unfold calculateXIRR in H.
  rewrite (calculateXIRR_traced_validated pow_approx elems valid Hval), solveXIRR_mixed in *.
  set (f := seriesNpv pow_approx valid) in *.
  destruct (0 <? f low0 * f high0) eqn:Hg.
  { rewrite (findRoot_no_root f Hg) in H. discriminate H. }
  destruct (findRoot_search f Hg) as [Htrace Hres]. rewrite Hres in H.
  split; [reflexivity|]. split; [exact Hval|]. split; [exact Hvalid|].
  split; [reflexivity|]. split; [exact Htrace|exact H].
Qed.

(** X8: a rate that calculateXIRR returns is one of the midpoints of the
    bisection, the net present value of the validated cashflows was
    evaluated there, and its absolute value there does not exceed 1e-4;
    the bracket check passed on those cashflows. *)
Theorem xirr_returned_rate :
  forall (pow_approx : float -> float -> float) (cashflows : value) (r : float),
    calculateXIRR pow_approx cashflows = Ok r ->
    exists elems valid,
      cashflows = VArray elems
      /\ validatedSeries elems valid
      /\ valid = map copyOf elems
      /\ (0 <? seriesNpv pow_approx valid low0 * seriesNpv pow_approx valid high0) = false
      /\ In r (fst (calculateXIRR_traced pow_approx cashflows))
      /\ (1e-4 <? abs (seriesNpv pow_approx valid r)) = false
      /\ exists k, (k <= maxIterations)%nat /\ r = midpointAfter (seriesNpv pow_approx valid) k.
Proof.
  intros pw cashflows r H.
  destruct (calculateXIRR_Ok pw cashflows r H)
    as (elems & valid & Hc & Hval & Hvalid & Hg & Htrace & Hres).
  exists elems, valid.
  destruct (bisect_returned _ maxIterations low0 high0 r Hres) as (Hin & Hconv & k & Hk & Hr).
  split; [exact Hc|]. split; [exact Hval|]. split; [exact Hvalid|].
  split; [exact Hg|]. split; [rewrite Htrace; apply in_cons, in_cons, Hin|].
  split; [exact Hconv|]. exists k. split; [exact Hk|exact Hr].
Qed.

Lemma xirr_returned_rate_witness :
  exists elems valid,
    VArray (seriesOf investment) = VArray elems
    /\ validatedSeries elems valid
    /\ valid = map copyOf elems
    /\ (0 <? seriesNpv (fun x _ => x) valid low0 * seriesNpv (fun x _ => x) valid high0) = false
    /\ In (midpointAfter (seriesNpv (fun x _ => x) (cashflowsOf investment)) 44)
         (fst (calculateXIRR_traced (fun x _ => x) (VArray (seriesOf investment))))
    /\ (1e-4 <? abs (seriesNpv (fun x _ => x) valid
                       (midpointAfter (seriesNpv (fun x _ => x) (cashflowsOf investment)) 44)))
       = false
    /\ exists k,
         (k <= maxIterations)%nat
         /\ midpointAfter (seriesNpv (fun x _ => x) (cashflowsOf investment)) 44
            = midpointAfter (seriesNpv (fun x _ => x) valid) k.
Proof.
  apply (xirr_returned_rate (fun x _ => x) (VArray (seriesOf investment))
           (midpointAfter (seriesNpv (fun x _ => x) (cashflowsOf investment)) 44)).
  vm_compute. reflexivity.
Defined.

(** What the no-solution error says about the run. *)
Lemma calculateXIRR_no_solution (pow_approx : float -> float -> float) (cashflows : value) :
  calculateXIRR pow_approx cashflows = Throw NoSolutionInRange ->
  exists elems,
    cashflows = VArray elems
    /\ validatedSeries elems (map copyOf elems)
    /\ (0 <? seriesNpv pow_approx (map copyOf elems) low0
             * seriesNpv pow_approx (map copyOf elems) high0) = true.
Proof.
  intros H.
  assert (Hex : exists elems valid, cashflows = VArray elems /\ validatedSeries elems valid).
  { unfold calculateXIRR in H.
    destruct cashflows as [| | | | | | |elems]; try discriminate H.
    unfold calculateXIRR_traced in H.
    destruct (List.length elems <? 2)%nat eqn:Hlen; [discriminate H|].
    apply Nat.ltb_ge in Hlen.
    destruct (validateCashflows_outcome elems 0 [] false false)
      as [Hall|(j & cf & e & _ & _ & _ & Hthrow & He)].
    - rewrite (validateCashflows_wellFormed elems Hall) in H. cbn [app orb] in H.
      destruct (existsb (fun cf => 0 <? amount cf) (map copyOf elems)) eqn:Hp;
        destruct (existsb (fun cf => amount cf <? 0) (map copyOf elems)) eqn:Hn;
        try discriminate H.
      exists elems, (map copyOf elems). split; [reflexivity|].
      split; [exact Hlen|].
      rewrite (validateCashflows_wellFormed elems Hall). cbn [app orb].
      now rewrite Hp, Hn.
    - rewrite Hthrow in H. cbn [snd] in H.
      destruct He as [->|[->|[-> _]]]; discriminate H. }
  destruct Hex as (elems & valid & -> & Hval).
  assert (Hvalid : valid = map copyOf elems).
  { destruct Hval as [_ Hv].
    destruct (validateCashflows_outcome elems 0 [] false false)
      as [Hall|(j & cf & e & _ & _ & _ & Hthrow & _)]; [|congruence].
    rewrite (validateCashflows_wellFormed elems Hall) in Hv. now injection Hv as <- _ _. }
  subst valid. exists elems. split; [reflexivity|]. split; [exact Hval|].
  unfold calculateXIRR in H.
  rewrite (calculateXIRR_traced_validated pow_approx elems _ Hval), solveXIRR_mixed in H.
  set (f := seriesNpv pow_approx (map copyOf elems)) in *.
  destruct (0 <? f low0 * f high0) eqn:Hg; [reflexivity|].
  destruct (findRoot_search f Hg) as [_ Hres]. rewrite Hres in H.
  destruct (bisect_outcome f maxIterations low0 high0) as [[r Hr]|Hr]; congruence.
Qed.

(** X9: calculateXIRR reports that there is no solution in the range
    only when the net present values at the two ends of the bracket
    really have the same sign: both are positive or both are negative,
    and neither is zero or NaN. *)
Theorem xirr_no_solution_same_sign :
  forall (pow_approx : float -> float -> float) (cashflows : value),
    calculateXIRR pow_approx cashflows = Throw NoSolutionInRange ->
    exists elems,
      cashflows = VArray elems
      /\ ((0 <? seriesNpv pow_approx (map copyOf elems) low0) = true
          /\ (0 <? seriesNpv pow_approx (map copyOf elems) high0) = true
          \/ (seriesNpv pow_approx (map copyOf elems) low0 <? 0) = true
             /\ (seriesNpv pow_approx (map copyOf elems) high0 <? 0) = true).
Proof.
  intros pw cashflows H.
  destruct (calculateXIRR_no_solution pw cashflows H) as (elems & -> & _ & Hg).
  exists elems. split; [reflexivity|]. now apply mul_pos_same_sign.
Qed.

Lemma xirr_no_solution_same_sign_witness :
  exists elems,
    VArray [cashflowObject 0 (-1000); cashflowObject 0 1200] = VArray elems
    /\ ((0 <? seriesNpv (fun x _ => x) (map copyOf elems) low0) = true
        /\ (0 <? seriesNpv (fun x _ => x) (map copyOf elems) high0) = true
        \/ (seriesNpv (fun x _ => x) (map copyOf elems) low0 <? 0) = true
           /\ (seriesNpv (fun x _ => x) (map copyOf elems) high0 <? 0) = true).
Proof.
  apply (xirr_no_solution_same_sign (fun x _ => x)
           (VArray [cashflowObject 0 (-1000); cashflowObject 0 1200])).
  vm_compute. reflexivity.
Defined.

(** ** calculateXIRR: the rates stay in the bracket *)

Lemma low0_value : SFval (Prim2SF low0) = (- (8998192055486251 * 2 ^ 1022))%Z.
Proof. vm_compute. reflexivity. Qed.

Lemma high0_value : SFval (Prim2SF high0) = (6871947673600000 * (131072 * 2 ^ 1022))%Z.
Proof. vm_compute. reflexivity. Qed.

Lemma one_value : SFval (Prim2SF 1) = (9007199254740992 * 2 ^ 1022)%Z.
Proof. vm_compute. reflexivity. Qed.

Lemma inBracket_finite (r : float) : inBracket r -> is_finite r = true.
Proof. intros [H1 H2]. now apply (between_finite low0 r high0). Qed.

Lemma inBracket_value (r : float) :
  inBracket r ->
  (- (8998192055486251 * 2 ^ 1022) <= SFval (Prim2SF r)
   <= 6871947673600000 * (131072 * 2 ^ 1022))%Z.
Proof.
  intros Hr. pose proof (inBracket_finite r Hr) as Hfin. destruct Hr as [H1 H2].
  rewrite leb_value in H1, H2 by (assumption || reflexivity).
  rewrite low0_value in H1. rewrite high0_value in H2.
  apply Z.leb_le in H1, H2. split; assumption.
Qed.

Lemma inBracket_exponent (r : float) (s : bool) (m : positive) (e : Z) :
  inBracket r -> Prim2SF r = S754_finite s m e -> (e < emax - prec)%Z.
Proof.
  intros Hr E. pose proof (inBracket_value r Hr) as Hv. rewrite E in Hv. cbn [SFval] in Hv.
  pose proof (Prim2SF_valid r) as Vr. rewrite E in Vr.
  destruct (valid_finite_exponent _ _ _ Vr) as (_ & He & _).
  destruct (Z_lt_ge_dec e 17) as [Hlt|Hge]; [unfold emax, prec; lia|exfalso].
  assert (Hpow : (2 ^ 70 * 2 ^ 1022 <= 2 ^ (e + 1075))%Z).
  { rewrite <- Z.pow_add_r by lia. apply Z.pow_le_mono_r; lia. }
  change (2 ^ 70)%Z with 1180591620717411303424%Z in Hpow.
  pose proof (pow2_pos 1022 ltac:(lia)) as HP.
  set (P := (2 ^ 1022)%Z) in *. set (X := (2 ^ (e + 1075))%Z) in *.
  assert (HX : (X <= Zpos m * X)%Z) by nia.
  destruct s; cbn [cond_Zopp] in Hv; lia.
Qed.

(** The midpoint of a bracket inside the initial one lies in it. *)
Lemma midpoint_in_bracket (low high : float) :
  inBracket low -> inBracket high -> (low <=? high) = true ->
  (low <=? (low + high) / 2) = true /\ ((low + high) / 2 <=? high) = true.
Proof.
  intros Hlo Hhi Hle.
  pose proof (inBracket_finite low Hlo) as Flo.
  pose proof (inBracket_finite high Hhi) as Fhi.
  rewrite leb_value in Hle by assumption. apply Z.leb_le in Hle.
  destruct (SFmidpoint_between (Prim2SF low) (Prim2SF high) (Prim2SF (low + high))
              (Prim2SF_valid low) (Prim2SF_valid high) (Prim2SF_valid (low + high))
              (proj1 (SFfinite_is_finite low) Flo) (proj1 (SFfinite_is_finite high) Fhi)
              (fun s m e E => inBracket_exponent low s m e Hlo E)
              (fun s m e E => inBracket_exponent high s m e Hhi E)
              Hle (add_spec low high))
    as [Fmid Hmid].
  change SFtwo with (Prim2SF 2) in Fmid, Hmid. rewrite <- div_spec in Fmid, Hmid.
  apply SFfinite_is_finite in Fmid.
  rewrite !leb_value by assumption. split; apply Z.leb_le; lia.
Qed.

Lemma inBracket_between (low high r : float) :
  inBracket low -> inBracket high ->
  (low <=? r) = true -> (r <=? high) = true -> inBracket r.
Proof.
  intros [Hlo _] [_ Hhi] H1 H2. split.
  - now apply (leb_trans _ low).
  - now apply (leb_trans _ high).
Qed.

(** Every rate at which the bisection evaluates the net present value
    lies in the bracket it started from. *)
Lemma bisect_in_bracket (f : float -> float) (iters : nat) :
  forall low high,
    inBracket low -> inBracket high -> (low <=? high) = true ->
    Forall inBracket (fst (bisect f iters low high)).
Proof.
  induction iters as [|iters IH]; intros low high Hlo Hhi Hle;
    destruct (midpoint_in_bracket low high Hlo Hhi Hle) as [H1 H2];
    pose proof (inBracket_between low high _ Hlo Hhi H1 H2) as Hmid;
    cbn [bisect].
  - cbn [fst]. constructor; [exact Hmid|constructor].
  - destruct (abs (f ((low + high) / 2)) <? tolerance);
      [constructor; [exact Hmid|constructor]|].
    destruct (0 <? f ((low + high) / 2)); cbn [fst]; constructor; auto.
Qed.

Lemma low0_inBracket : inBracket low0.
Proof. split; reflexivity. Qed.

Lemma high0_inBracket : inBracket high0.
Proof. split; reflexivity. Qed.

Lemma findRoot_in_bracket (f : float -> float) : Forall inBracket (fst (findRoot f)).
Proof.
  destruct (0 <? f low0 * f high0) eqn:Hg.
  - rewrite findRoot_no_root by assumption.
    constructor; [exact low0_inBracket|]. constructor; [exact high0_inBracket|constructor].
  - destruct (findRoot_search f Hg) as [-> _].
    constructor; [exact low0_inBracket|]. constructor; [exact high0_inBracket|].
    apply bisect_in_bracket; [exact low0_inBracket|exact high0_inBracket|reflexivity].
Qed.

Lemma calculateXIRR_traced_in_bracket (pow_approx : float -> float -> float)
    (cashflows : value) :
  Forall inBracket (fst (calculateXIRR_traced pow_approx cashflows)).
Proof.
  destruct cashflows as [| | | | | | |elems]; try (cbn; constructor).
  cbn [calculateXIRR_traced].
  destruct (List.length elems <? 2)%nat; [constructor|].
  destruct (validateCashflows 0 elems [] false false) as [[[valid hp] hn]|e]; [|constructor].
  unfold solveXIRR. destruct (negb hp || negb hn); [constructor|].
  apply findRoot_in_bracket.
Qed.

(** X10: the search of calculateXIRR never leaves its bracket: every rate
    at which the net present value is evaluated, and so every rate that is
    returned, lies between -0.999 and 100000, whatever the cashflows and
    the net present values are.  (Each midpoint [(low + high) / 2] is
    rounded twice; it still lies between [low] and [high].) *)
Theorem xirr_rates_in_bracket :
  forall (pow_approx : float -> float -> float) (cashflows : value),
    Forall (fun r => (-0.999 <=? r) = true /\ (r <=? 100000) = true)
      (fst (calculateXIRR_traced pow_approx cashflows))
    /\ forall r,
         calculateXIRR pow_approx cashflows = Ok r ->
         (-0.999 <=? r) = true /\ (r <=? 100000) = true.
Proof.
  intros pw cashflows.
  pose proof (calculateXIRR_traced_in_bracket pw cashflows) as Hall.
  split; [exact Hall|].
  intros r Hr.
  destruct (calculateXIRR_Ok pw cashflows r Hr) as (elems & valid & _ & _ & _ & _ & Htrace & Hres).
  destruct (bisect_returned _ maxIterations low0 high0 r Hres) as (Hin & _).
  rewrite Forall_forall in Hall. apply Hall.
  rewrite Htrace. apply in_cons, in_cons, Hin.
Qed.

Lemma xirr_rates_in_bracket_witness :
  (-0.999 <=? midpointAfter (seriesNpv (fun x _ => x) (cashflowsOf investment)) 44) = true
  /\ (midpointAfter (seriesNpv (fun x _ => x) (cashflowsOf investment)) 44 <=? 100000) = true.
Proof.
  apply (proj2 (xirr_rates_in_bracket (fun x _ => x) (VArray (seriesOf investment)))).
  vm_compute. reflexivity.
Defined.

(** [1 + r] for a rate of the bracket lies between [2^-10] and [2^17]. *)
Lemma discount_base_range (r : float) :
  inBracket r ->
  (0.0009765625 <=? 1 + r) = true /\ (1 + r <=? 131072) = true.
Proof.
  intros Hr.
  pose proof (inBracket_value r Hr) as Hv.
  pose proof (inBracket_finite r Hr) as Hfin.
  assert (E1 : SFval (Prim2SF 0.0009765625) = (8796093022208 * 2 ^ 1022)%Z)
    by (vm_compute; reflexivity).
  assert (E2 : SFval (Prim2SF 131072) = (1180591620717411303424 * 2 ^ 1022)%Z)
    by (vm_compute; reflexivity).
  pose proof (pow2_pos 1022 ltac:(lia)) as HP.
  destruct (SFadd_between (Prim2SF 1) (Prim2SF r) (Prim2SF 0.0009765625) (Prim2SF 131072))
    as [Fsum Hsum];
    try apply Prim2SF_valid; try reflexivity; try (now apply SFfinite_is_finite).
  { rewrite E1, E2, one_value. set (P := (2 ^ 1022)%Z) in *. lia. }
  rewrite <- add_spec in Fsum, Hsum. apply SFfinite_is_finite in Fsum.
  rewrite !leb_value by (assumption || reflexivity).
  split; apply Z.leb_le; lia.
Qed.

(** X11: the base [1 + r] that npv hands to [Math.pow] is positive and
    finite at every rate at which calculateXIRR evaluates the net present
    value: it lies between 2^-10 and 2^17. *)
Theorem xirr_discount_base_positive :
  forall (pow_approx : float -> float -> float) (cashflows : value),
    Forall (fun r => (0.0009765625 <=? 1 + r) = true /\ (1 + r <=? 131072) = true)
      (fst (calculateXIRR_traced pow_approx cashflows)).
Proof.
  intros pw cashflows.
  eapply Forall_impl; [|apply calculateXIRR_traced_in_bracket].
  intros r Hr. now apply discount_base_range.
Qed.

(** The bracket after [k] iterations is ordered and inside the initial
    one. *)
Lemma bracketAfter_in_bracket (f : float -> float) (k : nat) :
  inBracket (fst (bracketAfter f (low0, high0) k))
  /\ inBracket (snd (bracketAfter f (low0, high0) k))
  /\ (fst (bracketAfter f (low0, high0) k) <=? snd (bracketAfter f (low0, high0) k)) = true.
Proof.
  induction k as [|k (Hlo & Hhi & Hle)].
  - repeat split; reflexivity.
  - unfold bracketAfter in *. rewrite Nat.iter_succ.
    destruct (Nat.iter k (bracketStep f) (low0, high0)) as [low high]. cbn [fst snd] in *.
    destruct (midpoint_in_bracket low high Hlo Hhi Hle) as [H1 H2].
    pose proof (inBracket_between low high _ Hlo Hhi H1 H2) as Hmid.
    unfold bracketStep. cbn [fst snd].
    destruct (0 <? f ((low + high) / 2)); cbn [fst snd]; auto.
Qed.

(** X12: an iteration of the bisection never widens the bracket: the
    lower bound does not decrease, the upper bound does not increase,
    and the lower bound stays at most the upper bound. *)
Theorem xirr_bracket_narrows :
  forall (f : float -> float) (k : nat),
    (fst (bracketAfter f (low0, high0) k) <=? fst (bracketAfter f (low0, high0) (S k))) = true
    /\ (snd (bracketAfter f (low0, high0) (S k)) <=? snd (bracketAfter f (low0, high0) k)) = true
    /\ (fst (bracketAfter f (low0, high0) (S k)) <=? snd (bracketAfter f (low0, high0) (S k)))
       = true.
Proof.
  intros f k.
  destruct (bracketAfter_in_bracket f k) as (Hlo & Hhi & Hle).
  destruct (bracketAfter_in_bracket f (S k)) as (_ & _ & Hle').
  split; [|split; [|exact Hle']].
  - unfold bracketAfter in *. rewrite Nat.iter_succ.
    destruct (Nat.iter k (bracketStep f) (low0, high0)) as [low high]. cbn [fst snd] in *.
    destruct (midpoint_in_bracket low high Hlo Hhi Hle) as [H1 H2].
    unfold bracketStep. cbn [fst snd].
    destruct (0 <? f ((low + high) / 2)); cbn [fst snd]; [exact H1|].
    apply leb_refl. now apply leb_true_not_nan in Hle.
  - unfold bracketAfter in *. rewrite Nat.iter_succ.
    destruct (Nat.iter k (bracketStep f) (low0, high0)) as [low high]. cbn [fst snd] in *.
    destruct (midpoint_in_bracket low high Hlo Hhi Hle) as [H1 H2].
    unfold bracketStep. cbn [fst snd].
    destruct (0 <? f ((low + high) / 2)); cbn [fst snd]; [|exact H2].
    apply leb_refl. now apply leb_true_not_nan in Hle.
Qed.

(** When the net present value is positive at the lower end of the initial
    bracket and not at the upper end, the same holds for every later
    bracket. *)
Lemma bracketAfter_sign_change (f : float -> float) (k : nat) :
  (0 <? f low0) = true -> (0 <? f high0) = false ->
  (0 <? f (fst (bracketAfter f (low0, high0) k))) = true
  /\ (0 <? f (snd (bracketAfter f (low0, high0) k))) = false.
Proof.
  intros Hlow Hhigh. induction k as [|k [Hlo Hhi]].
  - split; assumption.
  - unfold bracketAfter in *. rewrite Nat.iter_succ.
    destruct (Nat.iter k (bracketStep f) (low0, high0)) as [low high]. cbn [fst snd] in *.
    unfold bracketStep. cbn [fst snd].
    destruct (0 <? f ((low + high) / 2)) eqn:Hmid; cbn [fst snd]; auto.
Qed.

(** X13: a rate that calculateXIRR returns is the midpoint of the bracket
    of the iteration that returned it, and lies in that bracket; when the
    net present value is positive at -0.999 and not positive at 100000,
    it is still positive at the lower end of that bracket and not positive
    at its upper end: the search never loses the change of sign. *)
Theorem xirr_root_bracketed :
  forall (pow_approx : float -> float -> float) (cashflows : value) (r : float),
    calculateXIRR pow_approx cashflows = Ok r ->
    exists elems k,
      cashflows = VArray elems
      /\ (k <= maxIterations)%nat
      /\ r = midpoint (bracketAfter (seriesNpv pow_approx (map copyOf elems)) (low0, high0) k)
      /\ (fst (bracketAfter (seriesNpv pow_approx (map copyOf elems)) (low0, high0) k) <=? r)
         = true
      /\ (r <=? snd (bracketAfter (seriesNpv pow_approx (map copyOf elems)) (low0, high0) k))
         = true
      /\ ((0 <? seriesNpv pow_approx (map copyOf elems) low0) = true ->
          (0 <? seriesNpv pow_approx (map copyOf elems) high0) = false ->
          (0 <? seriesNpv pow_approx (map copyOf elems)
                  (fst (bracketAfter (seriesNpv pow_approx (map copyOf elems)) (low0, high0) k)))
          = true
          /\ (0 <? seriesNpv pow_approx (map copyOf elems)
                     (snd (bracketAfter (seriesNpv pow_approx (map copyOf elems))
                             (low0, high0) k)))
             = false).
Proof.
  intros pw cashflows r H.
  destruct (calculateXIRR_Ok pw cashflows r H)
    as (elems & valid & -> & _ & -> & _ & _ & Hres).
  destruct (bisect_returned _ maxIterations low0 high0 r Hres) as (_ & _ & k & Hk & Hr).
  exists elems, k.
  set (f := seriesNpv pw (map copyOf elems)) in *.
  destruct (bracketAfter_in_bracket f k) as (Hlo & Hhi & Hle).
  destruct (midpoint_in_bracket _ _ Hlo Hhi Hle) as [H1 H2].
  split; [reflexivity|]. split; [exact Hk|]. split; [exact Hr|].
  rewrite Hr. unfold midpoint.
  split; [exact H1|]. split; [exact H2|].
  intros Hlow Hhigh. now apply bracketAfter_sign_change.
Qed.

Lemma xirr_root_bracketed_witness :
  exists elems k,
    VArray (seriesOf investment) = VArray elems
    /\ (k <= maxIterations)%nat
    /\ midpointAfter (seriesNpv (fun x _ => x) (cashflowsOf investment)) 44
       = midpoint (bracketAfter (seriesNpv (fun x _ => x) (map copyOf elems)) (low0, high0) k)
    /\ (fst (bracketAfter (seriesNpv (fun x _ => x) (map copyOf elems)) (low0, high0) k)
        <=? midpointAfter (seriesNpv (fun x _ => x) (cashflowsOf investment)) 44) = true
    /\ (midpointAfter (seriesNpv (fun x _ => x) (cashflowsOf investment)) 44
        <=? snd (bracketAfter (seriesNpv (fun x _ => x) (map copyOf elems)) (low0, high0) k))
       = true
    /\ ((0 <? seriesNpv (fun x _ => x) (map copyOf elems) low0) = true ->
        (0 <? seriesNpv (fun x _ => x) (map copyOf elems) high0) = false ->
        (0 <? seriesNpv (fun x _ => x) (map copyOf elems)
                (fst (bracketAfter (seriesNpv (fun x _ => x) (map copyOf elems))
                        (low0, high0) k)))
        = true
        /\ (0 <? seriesNpv (fun x _ => x) (map copyOf elems)
                   (snd (bracketAfter (seriesNpv (fun x _ => x) (map copyOf elems))
                           (low0, high0) k)))
           = false).
Proof.
  apply (xirr_root_bracketed (fun x _ => x) (VArray (seriesOf investment))
           (midpointAfter (seriesNpv (fun x _ => x) (cashflowsOf investment)) 44)).
  vm_compute. reflexivity.
Defined.

(** ** calculateXIRR: cashflows that share one date *)

Lemma sortByDate_same_date (cashflows : list cashflow) (t : float) :
  is_finite t = true ->
  Forall (fun cf => date cf = t) cashflows ->
  sortByDate cashflows = cashflows.
Proof.
  intros Ht. induction 1 as [|x rest Hx Hrest IH]; [reflexivity|].
  change (sortByDate (x :: rest)) with (insertByDate x (sortByDate rest)). rewrite IH.
  destruct Hrest as [|y rest' Hy _]; [reflexivity|].
  cbn [insertByDate]. unfold compareDates. rewrite Hx, Hy, sub_self by assumption.
  reflexivity.
Qed.

Lemma npv_same_date (pow_approx : float -> float -> float) (r t : float)
    (cashflows : list cashflow) :
  is_finite t = true ->
  Forall (fun cf => date cf = t) cashflows ->
  npv pow_approx r cashflows t = undiscounted cashflows.
Proof.
  intros Ht Hall. unfold npv, undiscounted. generalize 0.
  induction Hall as [|cf rest Hcf _ IH]; intros sum; [reflexivity|].
  cbn [fold_left]. rewrite IH. do 2 f_equal.
  rewrite Hcf, sub_self by assumption. reflexivity.
Qed.

Lemma seriesNpv_same_date (pow_approx : float -> float -> float) (t : float)
    (cashflows : list cashflow) :
  is_finite t = true ->
  Forall (fun cf => date cf = t) cashflows ->
  forall r, seriesNpv pow_approx cashflows r = undiscounted cashflows.
Proof.
  intros Ht Hall r. unfold seriesNpv.
  rewrite (sortByDate_same_date cashflows t Ht Hall).
  destruct Hall as [|cf rest Hcf Hrest]; [reflexivity|].
  cbn [referenceDate]. rewrite Hcf. apply npv_same_date; [exact Ht|].
  constructor; assumption.
Qed.

(** The root search on a function that is constant. *)
Lemma findRoot_constant (c : float) :
  snd (findRoot (fun _ => c)) = Throw NoSolutionInRange /\ (0 <? c * c) = true
  \/ snd (findRoot (fun _ => c)) = Ok 49999.500500000002
     /\ (0 <? c * c) = false /\ (abs c <? tolerance) = true
  \/ snd (findRoot (fun _ => c)) = Ok (-0.99899999999999989) /\ is_nan c = true.
Proof.
  destruct (0 <? c * c) eqn:Hg.
  { left. split; [|reflexivity]. now rewrite findRoot_no_root. }
  destruct (findRoot_search (fun _ => c) Hg) as [_ ->].
  destruct (is_nan c) eqn:Hn.
  - right. right. apply is_nan_eq in Hn. subst c. split; [|reflexivity].
    vm_compute. reflexivity.
  - destruct (abs c <? tolerance) eqn:Ht.
    + right. left. split; [|split; reflexivity].
      rewrite (bisect_early (fun _ => c) maxIterations 0 low0 high0);
        [reflexivity|unfold maxIterations; lia|intros j Hj; lia|exact Ht].
    + rewrite mul_self_pos in Hg by assumption. discriminate.
Qed.

(** X14: when the cashflows of an array of at least two well-formed
    entries all have the same date, the net present value is at every rate
    the undiscounted sum [s] of the amounts, and calculateXIRR never
    reports non-convergence.  It fails with the mixed-sign error; or with
    the no-solution error, and then [s * s > 0]; or it returns one of two
    rates that do not depend on the amounts: the first midpoint
    49999.5005, and then [s * s > 0] is false and [s] is within 1e-6 of
    zero ([s] is zero, or so small that its square underflows), or
    -0.99899999999999989, and then [s] is NaN.  So when the amounts have
    both signs, a sum within 1e-6 of zero whose square is positive gives
    the no-solution error, not a rate. *)
Theorem xirr_same_date :
  forall (pow_approx : float -> float -> float) (elems : list value) (t : float),
    (2 <= List.length elems)%nat ->
    Forall wellFormedCashflow elems ->
    is_finite t = true ->
    Forall (fun cf => date cf = t) (map copyOf elems) ->
    (forall r, seriesNpv pow_approx (map copyOf elems) r = undiscounted (map copyOf elems))
    /\ (calculateXIRR pow_approx (VArray elems) = Throw CashflowsNotMixedSign
        \/ calculateXIRR pow_approx (VArray elems) = Throw NoSolutionInRange
           /\ (0 <? undiscounted (map copyOf elems) * undiscounted (map copyOf elems)) = true
        \/ calculateXIRR pow_approx (VArray elems) = Ok 49999.500500000002
           /\ (0 <? undiscounted (map copyOf elems) * undiscounted (map copyOf elems)) = false
           /\ (abs (undiscounted (map copyOf elems)) <? tolerance) = true
        \/ calculateXIRR pow_approx (VArray elems) = Ok (-0.99899999999999989)
           /\ is_nan (undiscounted (map copyOf elems)) = true).
Proof.
  intros pw elems t Hlen Hall Ht Hdates.
  pose proof (seriesNpv_same_date pw t (map copyOf elems) Ht Hdates) as Hnpv.
  split; [exact Hnpv|].
  unfold calculateXIRR. rewrite (calculateXIRR_traced_wellFormed pw elems Hall).
  replace (List.length elems <? 2)%nat with false by (symmetry; apply Nat.ltb_ge; lia).
  unfold solveXIRR.
  destruct (negb _ || negb _); [now left|]. right.
  rewrite (findRoot_ext _ (fun _ => undiscounted (map copyOf elems)) Hnpv).
  apply findRoot_constant.
Qed.

Lemma xirr_same_date_witness :
  (forall r,
     seriesNpv (fun x _ => x)
       (map copyOf [cashflowObject 0 (-1000); cashflowObject 0 1000]) r
     = undiscounted (map copyOf [cashflowObject 0 (-1000); cashflowObject 0 1000]))
  /\ (calculateXIRR (fun x _ => x)
        (VArray [cashflowObject 0 (-1000); cashflowObject 0 1000])
      = Throw CashflowsNotMixedSign
      \/ calculateXIRR (fun x _ => x)
           (VArray [cashflowObject 0 (-1000); cashflowObject 0 1000])
         = Throw NoSolutionInRange
         /\ (0 <? undiscounted (map copyOf [cashflowObject 0 (-1000); cashflowObject 0 1000])
                  * undiscounted (map copyOf [cashflowObject 0 (-1000); cashflowObject 0 1000]))
            = true
      \/ calculateXIRR (fun x _ => x)
           (VArray [cashflowObject 0 (-1000); cashflowObject 0 1000])
         = Ok 49999.500500000002
         /\ (0 <? undiscounted (map copyOf [cashflowObject 0 (-1000); cashflowObject 0 1000])
                  * undiscounted (map copyOf [cashflowObject 0 (-1000); cashflowObject 0 1000]))
            = false
         /\ (abs (undiscounted (map copyOf [cashflowObject 0 (-1000); cashflowObject 0 1000]))
             <? tolerance) = true
      \/ calculateXIRR (fun x _ => x)
           (VArray [cashflowObject 0 (-1000); cashflowObject 0 1000])
         = Ok (-0.99899999999999989)
         /\ is_nan (undiscounted (map copyOf [cashflowObject 0 (-1000); cashflowObject 0 1000]))
            = true).
Proof.
  apply (xirr_same_date (fun x _ => x)
           [cashflowObject 0 (-1000); cashflowObject 0 1000] 0).
  - simpl. lia.
  - repeat constructor; apply wellFormedCashflow_guards; vm_compute; auto.
  - reflexivity.
  - repeat constructor.
Defined.

(** ** calculateSharpeRatio and stdDev *)

Lemma validateReturns_outcome (elems : list value) :
  forall i,
    forallb validReturn elems = true /\ validateReturns i elems = Ok (map num elems)
    \/ exists j,
         firstRejected validReturn elems j
         /\ validateReturns i elems = Throw (ReturnInvalidNumber (i + j)).
Proof.
  induction elems as [|v rest IH]; intros i; [left; split; reflexivity|].
  cbn [validateReturns forallb]. unfold validReturn at 1.
  destruct (is_number v) eqn:Hnum; cbn [negb orb andb].
  - destruct (is_nan (num v)) eqn:Hnan; cbn [negb].
    + right. exists 0%nat. rewrite Nat.add_0_r. split; [|reflexivity].
      exists v. unfold validReturn. rewrite Hnum, Hnan. repeat split.
    + destruct (IH (S i)) as [[Hall ->]|(j & (w & Hnth & Hw & Hpre) & ->)].
      * left. split; [exact Hall|reflexivity].
      * right. exists (S j). replace (i + S j)%nat with (S i + j)%nat by lia.
        split; [|reflexivity]. exists w. cbn [nth_error firstn forallb].
        unfold validReturn at 2. rewrite Hnum, Hnan. repeat split; assumption.
  - right. exists 0%nat. rewrite Nat.add_0_r. split; [|reflexivity].
    exists v. unfold validReturn. rewrite Hnum. repeat split.
Qed.

(** X15: the outcomes of calculateSharpeRatio, by its argument checks in
    their order.  It returns exactly when [returns] is an array of at
    least two numbers none of which is NaN and the risk-free rate is a
    number other than NaN; an invalid return is reported with the index
    of the first one, whatever the risk-free rate is; the risk-free rate
    is checked only after every return. *)
Theorem sharpe_outcomes :
  forall (pow_approx : float -> float -> float) (returns riskFreeRate : value),
    let longEnough :=
      exists elems, returns = VArray elems /\ (2 <= List.length elems)%nat in
    let allValid :=
      exists elems, returns = VArray elems /\ (2 <= List.length elems)%nat
                    /\ forallb validReturn elems = true in
    match calculateSharpeRatio pow_approx returns riskFreeRate with
    | Ok _ => allValid /\ validReturn riskFreeRate = true
    | Throw ReturnsTooShort => ~ longEnough
    | Throw (ReturnInvalidNumber j) =>
        exists elems, returns = VArray elems /\ (2 <= List.length elems)%nat
                      /\ firstRejected validReturn elems j
    | Throw RiskFreeRateInvalid => allValid /\ validReturn riskFreeRate = false
    | Throw _ => False
    end.
Proof.
  intros pw returns rfv longEnough allValid.
  destruct returns as [| | | | | | |elems];
    try (cbn; intros (elems & H & _); discriminate H).
  cbn [calculateSharpeRatio].
  destruct (List.length elems <? 2)%nat eqn:Hlen.
  { apply Nat.ltb_lt in Hlen. intros (elems' & [= <-] & H). lia. }
  apply Nat.ltb_ge in Hlen.
  destruct (validateReturns_outcome elems 0) as [[Hall ->]|(j & Hj & ->)]; cbn [bind Nat.add].
  - assert (Hvalid : allValid) by (exists elems; auto).
    assert (Hrf : validReturn rfv = negb (negb (is_number rfv) || is_nan (num rfv))).
    { unfold validReturn. now destruct (is_number rfv), (is_nan (num rfv)). }
    destruct (negb (is_number rfv) || is_nan (num rfv)); cbn [negb] in Hrf; [split; auto|].
    destruct (stdDev pw (map num elems) <? 1e-10); split; auto.
  - exists elems. auto.
Qed.

Lemma validateReturns_Ok (elems : list value) (rs : list float) :
  validateReturns 0 elems = Ok rs -> rs = map num elems.
Proof.
  destruct (validateReturns_outcome elems 0) as [[_ ->]|(j & _ & ->)]; congruence.
Qed.

(** X16: the sign of the Sharpe ratio is the sign of the excess return: a
    positive result means that the mean return exceeds the risk-free
    rate, a negative result that it is below it, whatever [Math.pow]
    computes for the deviations. *)
Theorem sharpe_sign :
  forall (pow_approx : float -> float -> float) (elems : list value)
         (riskFreeRate : value) (r : float),
    calculateSharpeRatio pow_approx (VArray elems) riskFreeRate = Ok r ->
    ((0 <? r) = true -> (num riskFreeRate <? mean (map num elems)) = true)
    /\ ((r <? 0) = true -> (mean (map num elems) <? num riskFreeRate) = true).
Proof.
  intros pw elems rfv r. cbn [calculateSharpeRatio].
  destruct (List.length elems <? 2)%nat; [discriminate|].
  destruct (validateReturns 0 elems) as [rs|e] eqn:Hrs; [|discriminate].
  apply validateReturns_Ok in Hrs. subst rs. cbn [bind].
  destruct (negb (is_number rfv) || is_nan (num rfv)); [discriminate|].
  set (avg := mean (map num elems)). set (rf := num rfv).
  destruct (stdDev pw (map num elems) <? 1e-10) eqn:Hvol.
  - destruct (rf <? avg) eqn:H1; [intros [= <-]; split; [reflexivity|discriminate]|].
    destruct (avg <? rf) eqn:H2; intros [= <-]; split; try discriminate; reflexivity.
  - intros [= <-]. split; intros H.
    + apply sub_pos_ltb. eapply div_pos_numerator; eassumption.
    + apply sub_neg_ltb. eapply div_neg_numerator; eassumption.
Qed.

Lemma sharpe_sign_witness :
  (0.02 <? mean (map num [VNumber 0.05; VNumber 0.07; VNumber 0.03])) = true.
Proof.
  apply (sharpe_sign (fun x _ => x * x) [VNumber 0.05; VNumber 0.07; VNumber 0.03]
           (VNumber 0.02)
           ((mean [0.05; 0.07; 0.03] - 0.02) / stdDev (fun x _ => x * x) [0.05; 0.07; 0.03])).
  - vm_compute. reflexivity.
  - vm_compute. reflexivity.
Defined.

(** X17: stdDev never returns a negative number: its result is NaN, a
    zero or positive, whatever [Math.pow] computes for the deviations. *)
Theorem stdDev_not_negative :
  forall (pow_approx : float -> float -> float) (arr : list float),
    (stdDev pow_approx arr <? 0) = false.
Proof.
  intros pw arr. unfold stdDev.
  destruct (List.length arr <? 2)%nat; [reflexivity|]. cbv zeta.
  set (variance := _ / _).
  rewrite FloatAxioms.ltb_spec, sqrt_spec. unfold SFltb, SF64sqrt, SFsqrt.
  destruct (Prim2SF variance) as [s|[|]| |[|] m e]; try reflexivity.
  destruct (SFsqrt_core_binary prec emax (Zpos m) e) as [[mz ez] lz].
  destruct (binary_round_aux_sign false mz ez lz) as [E|[E|[E|(m' & e' & E)]]];
    rewrite E; reflexivity.
Qed.

(** ** calculateMaxDrawdown *)

Lemma validateValues_outcome (elems : list value) :
  forall i,
    forallb validDrawdownValue elems = true /\ validateValues i elems = Ok (map num elems)
    \/ exists j,
         firstRejected validDrawdownValue elems j
         /\ validateValues i elems = Throw (ValueNotNonNegative (i + j)).
Proof.
  induction elems as [|v rest IH]; intros i; [left; split; reflexivity|].
  cbn [validateValues forallb].
  destruct (negb (is_number v) || is_nan (num v) || (num v <? 0)) eqn:Hbad.
  - right. exists 0%nat. rewrite Nat.add_0_r. split; [|reflexivity].
    exists v. repeat split. unfold validDrawdownValue.
    destruct (is_number v), (is_nan (num v)), (num v <? 0); try discriminate; reflexivity.
  - assert (Hv : validDrawdownValue v = true).
    { unfold validDrawdownValue.
      destruct (is_number v), (is_nan (num v)), (num v <? 0); try discriminate; reflexivity. }
    rewrite Hv. cbn [andb].
    destruct (IH (S i)) as [[Hall ->]|(j & (w & Hnth & Hw & Hpre) & ->)].
    + left. split; [exact Hall|reflexivity].
    + right. exists (S j). replace (i + S j)%nat with (S i + j)%nat by lia.
      split; [|reflexivity]. exists w. cbn [nth_error firstn forallb].
      rewrite Hv. repeat split; assumption.
Qed.

(** X18: the outcomes of calculateMaxDrawdown.  It returns exactly when
    [values] is an array of at least two numbers none of which is NaN or
    negative; otherwise the error names the index of the first entry that
    is not such a number. *)
Theorem maxDrawdown_outcomes :
  forall values : value,
    let longEnough :=
      exists elems, values = VArray elems /\ (2 <= List.length elems)%nat in
    match calculateMaxDrawdown values with
    | Ok _ =>
        exists elems, values = VArray elems /\ (2 <= List.length elems)%nat
                      /\ forallb validDrawdownValue elems = true
    | Throw ValuesTooShort => ~ longEnough
    | Throw (ValueNotNonNegative j) =>
        exists elems, values = VArray elems /\ (2 <= List.length elems)%nat
                      /\ firstRejected validDrawdownValue elems j
    | Throw _ => False
    end.
Proof.
  intros values longEnough.
  destruct values as [| | | | | | |elems];
    try (cbn; intros (elems & H & _); discriminate H).
  cbn [calculateMaxDrawdown].
  destruct (List.length elems <? 2)%nat eqn:Hlen.
  { apply Nat.ltb_lt in Hlen. intros (elems' & [= <-] & H). lia. }
  apply Nat.ltb_ge in Hlen.
  destruct (validateValues_outcome elems 0) as [[Hall ->]|(j & Hj & ->)]; cbn [bind Nat.add].
  - destruct (map num elems); exists elems; auto.
  - exists elems. auto.
Qed.

Lemma drawdownScan_least (values : list float) :
  forall peak worst,
    is_nan worst = false ->
    (drawdownScan values peak worst <=? worst) = true
    /\ (drawdownScan values peak worst = worst
        \/ In (drawdownScan values peak worst) (drawdowns values peak))
    /\ (forall d, In d (drawdowns values peak) -> is_nan d = false ->
          (drawdownScan values peak worst <=? d) = true).
Proof.
  induction values as [|v rest IH]; intros peak worst Hworst; cbn [drawdownScan drawdowns].
  - repeat split; [now apply leb_refl|now left|intros d []].
  - destruct (peak <? v); [now apply IH|].
    cbv zeta. set (dd := (v - peak) / peak).
    destruct (dd <? worst) eqn:Hlt.
    + destruct (ltb_true_not_nan _ _ Hlt) as [Hdd _].
      destruct (IH peak dd Hdd) as (Hle & Hin & Hall).
      repeat split.
      * apply (leb_trans _ dd); [exact Hle|now apply ltb_true_leb_true].
      * right. destruct Hin as [->|Hin]; [now left|now right].
      * intros d [<-|Hd] Hn; [exact Hle|now apply Hall].
    + destruct (IH peak worst Hworst) as (Hle & Hin & Hall).
      repeat split.
      * exact Hle.
      * destruct Hin as [->|Hin]; [now left|right; now right].
      * intros d [<-|Hd] Hn; [|now apply Hall].
        apply (leb_trans _ worst); [exact Hle|now apply ltb_false_leb_true].
Qed.

Lemma drawdownScan_app (values more : list float) :
  forall peak worst,
    drawdownScan (values ++ more) peak worst
    = drawdownScan more (runningPeak values peak) (drawdownScan values peak worst).
Proof.
  induction values as [|v rest IH]; intros peak worst; cbn [app drawdownScan runningPeak].
  - reflexivity.
  - destruct (peak <? v); [apply IH|]. cbv zeta.
    destruct ((v - peak) / peak <? worst); apply IH.
Qed.

(** X19: the result of calculateMaxDrawdown is the least of 0 and the
    drawdowns [(v - peak) / peak] of the values that do not exceed the
    running peak before them: it is 0 or one of these drawdowns, and no
    drawdown that is a number is below it. *)
Theorem maxDrawdown_least_drawdown :
  forall (elems : list value) (vs : list float),
    (2 <= List.length elems)%nat ->
    validateValues 0 elems = Ok vs ->
    exists v0 rest r,
      vs = v0 :: rest
      /\ calculateMaxDrawdown (VArray elems) = Ok r
      /\ (r <=? 0) = true
      /\ (r = 0 \/ In r (drawdowns rest v0))
      /\ (forall d, In d (drawdowns rest v0) -> is_nan d = false -> (r <=? d) = true).
Proof.
  intros elems vs Hlen Hvs.
  destruct (calculateMaxDrawdown_validated elems vs Hlen Hvs) as (v0 & rest & -> & _ & ->).
  exists v0, rest, (drawdownScan rest v0 0).
  destruct (drawdownScan_least rest v0 0 eq_refl) as (Hle & Hin & Hall).
  repeat split; assumption.
Qed.

Lemma maxDrawdown_least_drawdown_witness :
  exists v0 rest r,
    [1000; 1100; 950; 1200; 900; 1100] = v0 :: rest
    /\ calculateMaxDrawdown
         (VArray (map VNumber [1000; 1100; 950; 1200; 900; 1100])) = Ok r
    /\ (r <=? 0) = true
    /\ (r = 0 \/ In r (drawdowns rest v0))
    /\ (forall d, In d (drawdowns rest v0) -> is_nan d = false -> (r <=? d) = true).
Proof.
  apply (maxDrawdown_least_drawdown (map VNumber [1000; 1100; 950; 1200; 900; 1100])).
  - simpl. lia.
  - reflexivity.
Defined.

(** X20: values appended to a series never improve its maximum drawdown:
    the result on the longer series is at most the result on the series
    itself. *)
Theorem maxDrawdown_extension :
  forall values more : list float,
    (2 <= List.length values)%nat ->
    Forall (fun v => (0 <=? v) = true) (values ++ more) ->
    exists r r',
      calculateMaxDrawdown (VArray (map VNumber values)) = Ok r
      /\ calculateMaxDrawdown (VArray (map VNumber (values ++ more))) = Ok r'
      /\ (r' <=? r) = true.
Proof.
  intros values more Hlen Hall.
  assert (Hvalues : Forall (fun v => (0 <=? v) = true) values)
    by (apply Forall_app in Hall; tauto).
  assert (Hlen' : (2 <= List.length (map VNumber (values ++ more)))%nat)
    by (rewrite length_map, length_app; lia).
  assert (Hlen0 : (2 <= List.length (map VNumber values))%nat)
    by (rewrite length_map; lia).
  destruct (calculateMaxDrawdown_validated _ _ Hlen0 (validateValues_numbers values Hvalues 0))
    as (v0 & rest & -> & Hvalid & ->).
  destruct (calculateMaxDrawdown_validated _ _ Hlen' (validateValues_numbers _ Hall 0))
    as (v0' & rest' & Heq & _ & ->).
  cbn [app] in Heq. injection Heq as <- <-.
  exists (drawdownScan rest v0 0), (drawdownScan (rest ++ more) v0 0).
  split; [reflexivity|]. split; [reflexivity|]. rewrite drawdownScan_app.
  assert (Hnan : is_nan (drawdownScan rest v0 0) = false).
  { inversion Hvalid as [|? ? Hv0 Hrest]; subst.
    destruct (drawdownScan_range rest Hrest v0 0 Hv0 eq_refl eq_refl) as [Hlo _].
    now apply leb_true_not_nan in Hlo. }
  now destruct (drawdownScan_least more (runningPeak rest v0) _ Hnan) as (Hle & _).
Qed.

Lemma maxDrawdown_extension_witness :
  exists r r',
    calculateMaxDrawdown (VArray (map VNumber [1000; 1100])) = Ok r
    /\ calculateMaxDrawdown (VArray (map VNumber ([1000; 1100] ++ [950; 1200]))) = Ok r'
    /\ (r' <=? r) = true.
Proof.
  apply (maxDrawdown_extension [1000; 1100] [950; 1200]).
  - simpl. lia.
  - repeat constructor.
Defined.

(** A series that declines below its running peak has a negative
    drawdown. *)
Lemma drawdowns_decline (values : list float) :
  Forall finiteValue values ->
  forall peak,
    finiteValue peak -> neverDeclines values peak = false ->
    exists d, In d (drawdowns values peak) /\ (d <? 0) = true.
Proof.
  induction 1 as [|v rest [Hv Fv] Hrest IH]; intros peak [Hp Fp] Hdecl; [discriminate|].
  cbn [neverDeclines drawdowns] in *.
  destruct (peak <? v) eqn:Hlt.
  - rewrite (ltb_true_leb_true _ _ Hlt) in Hdecl. cbn [andb] in Hdecl.
    apply (IH v); [split; assumption|exact Hdecl].
  - destruct (peak <=? v) eqn:Hle; cbn [andb] in Hdecl.
    + destruct (IH peak ltac:(split; assumption) Hdecl) as (d & Hin & Hd).
      exists d. split; [now right|exact Hd].
    + exists ((v - peak) / peak). split; [now left|].
      apply drawdown_negative; try assumption.
      apply leb_false_ltb_true; [| |exact Hle]; now apply is_finite_not_nan.
Qed.

(** X21: on finite values calculateMaxDrawdown is negative exactly when
    some value lies below the largest value before it, and 0 exactly when
    none does: no decline is lost to rounding. *)
Theorem maxDrawdown_negative_iff_decline :
  forall values : list float,
    (2 <= List.length values)%nat ->
    Forall finiteValue values ->
    exists v0 rest r,
      values = v0 :: rest
      /\ calculateMaxDrawdown (VArray (map VNumber values)) = Ok r
      /\ ((r <? 0) = true <-> neverDeclines rest v0 = false)
      /\ (r = 0 <-> neverDeclines rest v0 = true).
Proof.
  intros values Hlen Hall.
  assert (Hnonneg : Forall (fun v => (0 <=? v) = true) values).
  { eapply Forall_impl; [|exact Hall]. now intros v [Hv _]. }
  assert (Hlen' : (2 <= List.length (map VNumber values))%nat) by (rewrite length_map; lia).
  destruct (calculateMaxDrawdown_validated _ _ Hlen' (validateValues_numbers values Hnonneg 0))
    as (v0 & rest & -> & Hvalid & ->).
  exists v0, rest, (drawdownScan rest v0 0).
  inversion Hall as [|? ? Hv0 Hrest]; subst.
  inversion Hvalid as [|? ? Vv0 Vrest]; subst.
  assert (Hdecline : neverDeclines rest v0 = false -> (drawdownScan rest v0 0 <? 0) = true).
  { intros Hdecl.
    destruct (drawdowns_decline rest Hrest v0 Hv0 Hdecl) as (d & Hin & Hd).
    destruct (drawdownScan_least rest v0 0 eq_refl) as (_ & _ & Hleast).
    apply (leb_ltb_trans _ d); [|exact Hd].
    apply Hleast; [exact Hin|]. now apply ltb_true_not_nan in Hd. }
  assert (Hnone : neverDeclines rest v0 = true -> drawdownScan rest v0 0 = 0)
    by (apply drawdownScan_never_declines; assumption).
  split; [reflexivity|]. split; [reflexivity|].
  destruct (neverDeclines rest v0).
  - rewrite Hnone by reflexivity. split; split; try reflexivity; discriminate.
  - specialize (Hdecline eq_refl). split; split; auto; try discriminate.
    intros E. rewrite E in Hdecline. discriminate.
Qed.

Lemma maxDrawdown_negative_iff_decline_witness :
  exists v0 rest r,
    [1000; 1100; 950] = v0 :: rest
    /\ calculateMaxDrawdown (VArray (map VNumber [1000; 1100; 950])) = Ok r
    /\ ((r <? 0) = true <-> neverDeclines rest v0 = false)
    /\ (r = 0 <-> neverDeclines rest v0 = true).
Proof.
  apply (maxDrawdown_negative_iff_decline [1000; 1100; 950]).
  - simpl. lia.
  - repeat constructor.
Defined.
